(** * Log review sessions: a model of [server/services/log_review_session.py]

    The development follows the Python module top to bottom: the values the
    code manipulates (strings, dictionaries returned by the log database,
    fragments sent to the client), the context assembler
    ([_gather_log_context], [_read_project_config], [_build_system_prompt]),
    the session object with its asynchronous generators ([start],
    [send_message], [_query_claude], [close]), the process-wide registry,
    the router, and finally the generators as programs that can stop, for
    the calls that take turns at the query gate.

    Conventions.
    - A Python [str] is a list of code points; a [dict] row of the database
      is a finite map from keys to values; the registry [dict] is an
      association list in insertion order; session objects live in a heap
      and the registry holds references to them.
    - What the module calls but does not define (the log database, the path
      helpers, the model connection, the clock, the refusals of the file
      system) is a field of [Env]; the properties hold for every [Env].
    - An asynchronous generator is a function of the session and the world
      that returns the fragments it yields when its consumer drives it to
      its end, the session and the world it leaves, and how it ended.
    - Exceptions are modelled where the code handles them or where they
      leave a method: [KeyError], [TypeError] and [AttributeError] on rows,
      a raising existence test of a path, a raising read, unlink, client
      constructor, [__aenter__], [__aexit__], query or response stream. *)

From Stdlib Require Import ZArith String Ascii List Lia Bool DecimalString.
From stdpp Require Import base option list gmap strings.

Set Warnings "-register-all".
Local Open Scope Z_scope.
Local Open Scope list_scope.

(** ** Python values *)

(** A Python [str] is a sequence of Unicode code points. *)
Abbreviation pystr := (list N).

(** An ASCII literal of the source, as a [str]. *)
Definition lit (s : string) : pystr :=
  map N_of_ascii (list_ascii_of_string s).

(** [chr(10)], also written as a newline escape in the source. *)
Definition nl : pystr := [10%N].

(** [sep.join(parts)] *)
Fixpoint join (sep : pystr) (parts : list pystr) : pystr :=
  match parts with
  | [] => []
  | [p] => p
  | p :: rest => p ++ sep ++ join sep rest
  end.

(** [xs[:k]] for a sequence [xs] and an integer [k]; a negative bound counts
    from the end. *)
Definition slice_to {A} (k : Z) (xs : list A) : list A :=
  if k <? 0 then take (length xs - Z.to_nat (- k)) xs
  else take (Z.to_nat k) xs.

Fixpoint starts_with (needle hay : pystr) : bool :=
  match needle, hay with
  | [], _ => true
  | _ :: _, [] => false
  | a :: needle', b :: hay' => N.eqb a b && starts_with needle' hay'
  end.

(** [needle in hay] on strings: substring search. *)
Fixpoint str_in (needle hay : pystr) : bool :=
  starts_with needle hay ||
  match hay with
  | [] => false
  | _ :: hay' => str_in needle hay'
  end.

(** The values found in the rows the log database returns. *)
Inductive PyVal :=
| PNone
| PBool (b : bool)
| PInt (z : Z)
| PStr (s : pystr).

(** Truth value of an object, as tested by [if], [and] and [not]. *)
Definition truthy (v : PyVal) : bool :=
  match v with
  | PNone => false
  | PBool b => b
  | PInt z => negb (z =? 0)
  | PStr s => negb (Nat.eqb (length s) 0)
  end.

(** [str(v)], which is what an f-string field renders. *)
Definition py_str (v : PyVal) : pystr :=
  match v with
  | PNone => lit "None"
  | PBool true => lit "True"
  | PBool false => lit "False"
  | PInt z => lit (NilZero.string_of_int (Z.to_int z))
  | PStr s => s
  end.

Inductive exn :=
| KeyError (key : string)
| TypeError
| AttributeError
| OtherError (what : string).

(** Result of a computation that may raise. *)
Inductive res (A : Type) :=
| Ok (a : A)
| Raise (e : exn).
Arguments Ok {A} a.
Arguments Raise {A} e.

#[global] Instance res_ret : MRet res := fun A a => Ok a.
#[global] Instance res_bind : MBind res := fun A B f m =>
  match m with
  | Ok a => f a
  | Raise e => Raise e
  end.

(** [for x in xs: ...] collecting one result per element, stopping at the
    first exception. *)
Fixpoint for_each {A B} (f : A -> res B) (xs : list A) : res (list B) :=
  match xs with
  | [] => Ok []
  | x :: xs' => y ← f x; ys ← for_each f xs'; Ok (y :: ys)
  end.

(** A row of the log database is a [dict] with string keys. *)
Abbreviation Row := (gmap string PyVal).

(** [d[k]] *)
Definition getitem (d : Row) (k : string) : res PyVal :=
  match d !! k with
  | Some v => Ok v
  | None => Raise (KeyError k)
  end.

(** [d.get(k)] *)
Definition get (d : Row) (k : string) : PyVal := default PNone (d !! k).

(** [d.get(k, dflt)] *)
Definition get_or (d : Row) (k : string) (dflt : PyVal) : PyVal :=
  default dflt (d !! k).

(** [v[:k]] on a value that has to be a string. *)
Definition str_slice_to (k : Z) (v : PyVal) : res pystr :=
  match v with
  | PStr s => Ok (slice_to k s)
  | _ => Raise TypeError
  end.

(** A [pathlib.Path], as its components; [p / c] appends one. *)
Abbreviation path := (list string).
Definition path_join (p : path) (c : string) : path := p ++ [c].

(** ** Fragments, turns and the model connection *)

(** The dictionaries the generators yield, by their ["type"]. *)
Inductive Fragment :=
| FText (content : pystr)
| FAnalysisComplete
| FResponseDone
| FError (content : pystr)
| FPong.

Definition is_error (f : Fragment) : bool :=
  match f with FError _ => true | _ => false end.

Inductive Role := User | Assistant.

(** An entry of [self.messages]. *)
Record Message := {
  role : Role;
  content : pystr;
  timestamp : pystr;
}.

(** A content block of a model message, inspected by type name and by
    attribute. *)
Record Block := {
  block_type : string;
  text : option pystr;
}.

(** A message of the response stream. *)
Record SDKMessage := {
  msg_type : string;
  msg_content : option (list Block);
}.

(** What the model connection does with one query: [client.query] may raise;
    otherwise [receive_response] delivers [stream] and then either ends or
    raises. *)
Record Reply := {
  query_raises : option exn;
  stream : list SDKMessage;
  stream_raises : option exn;
}.

(** JSON documents, for the settings file and the tool servers. *)
Inductive Json :=
| JBool (b : bool)
| JStr (s : pystr)
| JArr (items : list Json)
| JObj (fields : list (string * Json)).

Record ClaudeAgentOptions := {
  model : PyVal;
  cli_path : pystr;
  system_prompt : pystr;
  allowed_tools : list pystr;
  permission_mode : pystr;
  max_turns : Z;
  cwd : pystr;
  settings : pystr;
  mcp_servers : Json;
  env : list (pystr * pystr);
}.

Inductive Client := ClaudeSDKClient (options : ClaudeAgentOptions).

(** What constructing and entering the client does. *)
Inductive Connect :=
| ConnectOk
| ConstructorRaises (e : exn)
| EnterRaises (e : exn).

(** The operations of the module on its dictionary of sessions. *)
Inductive RegistryOp :=
| RegGet (project_name : pystr)
| RegPop (project_name : pystr)
| RegSet (project_name : pystr) (session : nat)
| RegValues
| RegClear.

(** What happens outside the session objects, in order. *)
Inductive Event :=
| EvClientNew (options : ClaudeAgentOptions)
| EvClientEnter
| EvClientExit
| EvQuery (message : pystr)
| EvWrite (p : path)
| EvUnlink (p : path)
| EvRegistryAcquire
| EvRegistryRelease
| EvRegistry (op : RegistryOp)
| EvClose (session : nat)
| EvLog (what : string).

(** The collaborators of the module: the log database, the path helpers, the
    registry of models, the file system's refusals, the model connection and
    the clock.  The connection and the clock answer by the history so far.
    The refusals of the file system are those one call meets, path by path;
    a property about two calls in a row takes a machine for each. *)
Record Env := {
  which_claude : option pystr;
  get_sessions : path -> pystr -> Z -> res (list Row);
  get_session_logs : path -> PyVal -> pystr -> Z -> res (list Row);
  iso_minutes : PyVal -> PyVal -> option pystr;
  str_lower : pystr -> pystr;
  get_prompts_dir : path -> path;
  get_expand_settings_path : path -> pystr -> path;
  uuid4_hex : list Event -> pystr;
  get_model_for_role : pystr -> PyVal;
  get_effective_sdk_env : list (pystr * pystr);
  sys_executable : pystr;
  ROOT_DIR : path;
  resolve_str : path -> pystr;
  json_dump : Json -> pystr;
  stat_raises : path -> bool;
  unlink_raises : path -> bool;
  connect : list Event -> Connect;
  exit_raises : list Event -> bool;
  reply : list Event -> pystr -> Reply;
  now_iso : list Event -> nat -> pystr;
}.

(** The files on disk: the text of a readable file, [None] for a file whose
    reading raises. *)
Abbreviation Files := (gmap path (option pystr)).

(** ** Constants of the module *)

Definition LOG_REVIEW_FEATURE_TOOLS : list pystr :=
  [ lit "mcp__features__feature_get_stats";
    lit "mcp__features__feature_get_summary" ].

Definition CONFIG_TRUNCATION_LIMIT : Z := 8000.
Definition PROMPT_TRUNCATION_LIMIT : Z := 4000.

Definition NO_SESSIONS_MARKER : pystr := lit "<no_sessions>".

Definition NO_SESSIONS_CONTEXT : pystr :=
  lit "<no_sessions>" ++ nl ++
  lit "No agent sessions found. The agent has not been run yet for this project." ++ nl ++
  lit "</no_sessions>".

(** ** The context assembler *)

Section ContextAssembler.
Context (E : Env).

(** One line of the [<sessions>] section. *)
Definition session_line (s : Row) : res pystr :=
  let duration :=
    if truthy (get s "started_at") && truthy (get s "ended_at") then
      match iso_minutes E (get s "started_at") (get s "ended_at") with
      | Some mins => lit " (" ++ mins ++ lit "min)"
      | None => []
      end
    else [] in
  id ← getitem s "id";
  status ← getitem s "status";
  yolo ← getitem s "yolo_mode";
  mret (lit "  Session #" ++ py_str id ++ lit ": status=" ++ py_str status ++
        lit ", yolo=" ++ py_str yolo ++ lit ", " ++
        lit "model=" ++ py_str (get_or s "model" (PStr (lit "unknown"))) ++
        lit ", concurrency=" ++
        py_str (get_or s "max_concurrency" (PStr (lit "N/A"))) ++ lit ", " ++
        lit "started=" ++ py_str (get_or s "started_at" (PStr (lit "?"))) ++
        duration).

(** One line of the [<errors>] section. *)
Definition error_line (sid : PyVal) (err : Row) : res pystr :=
  c ← getitem err "content";
  content ← str_slice_to 500 c;
  mret (lit "  [Session #" ++ py_str sid ++ lit "] [" ++
        py_str (get_or err "timestamp" (PStr (lit "?"))) ++ lit "] " ++
        lit "agent=" ++ py_str (get_or err "agent_name" (PStr (lit "?"))) ++
        lit ": " ++ content).

(** One line of the [<tool_usage>] section. *)
Definition tool_line (sid : PyVal) (t : Row) : res pystr :=
  c ← getitem t "content";
  content ← str_slice_to 300 c;
  mret (lit "  [Session #" ++ py_str sid ++ lit "] " ++ content).

Definition FAILURE_KEYWORDS : list pystr :=
  [lit "error"; lit "failed"; lit "denied"; lit "permission"; lit "not allowed"].

(** The line of a tool result, when it mentions a failure keyword. *)
Definition result_line (sid : PyVal) (r : Row) : res (list pystr) :=
  c ← getitem r "content";
  content_lower ← match c with
                  | PStr s => Ok (str_lower E s)
                  | _ => Raise AttributeError
                  end;
  if existsb (fun kw => str_in kw content_lower) FAILURE_KEYWORDS then
    content ← str_slice_to 500 c;
    mret [lit "  [Session #" ++ py_str sid ++ lit "] " ++ content]
  else mret [].

(** The nested loops over session ids and their log rows. *)
Definition log_lines (project_dir : path) (line_type : string) (limit : Z)
    (line : PyVal -> Row -> res (list pystr)) (sids : list PyVal)
    : res (list pystr) :=
  per_session ← for_each (fun sid =>
      rows ← get_session_logs E project_dir sid (lit line_type) limit;
      per_row ← for_each (line sid) rows;
      mret (concat per_row)) sids;
  mret (concat per_session).

Definition one_line (line : PyVal -> Row -> res pystr)
    (sid : PyVal) (r : Row) : res (list pystr) :=
  l ← line sid r; mret [l].

Definition _gather_log_context (project_name : pystr) (project_dir : path)
    : res pystr :=
  sessions ← get_sessions E project_dir project_name 10;
  match sessions with
  | [] => mret NO_SESSIONS_CONTEXT
  | _ :: _ =>
    session_lines ← for_each session_line sessions;
    let sections1 :=
      [lit "<sessions>" ++ nl ++ join nl session_lines ++ nl ++ lit "</sessions>"] in
    session_ids ← for_each (fun s => getitem s "id") (slice_to 5 sessions);
    error_lines ← log_lines project_dir "error" 50 (one_line error_line) session_ids;
    let sections2 :=
      sections1 ++
      match error_lines with
      | _ :: _ =>
        [lit "<errors>" ++ nl ++ join nl (slice_to 200 error_lines) ++ nl ++
         lit "</errors>"]
      | [] =>
        [lit "<errors>" ++ nl ++ lit "No errors found in recent sessions." ++ nl ++
         lit "</errors>"]
      end in
    tool_lines ← log_lines project_dir "tool_use" 200 (one_line tool_line)
                    (slice_to 3 session_ids);
    let sections3 :=
      sections2 ++
      match tool_lines with
      | _ :: _ =>
        [lit "<tool_usage>" ++ nl ++ join nl (slice_to 500 tool_lines) ++ nl ++
         lit "</tool_usage>"]
      | [] => []
      end in
    result_lines ← log_lines project_dir "tool_result" 200 result_line
                      (slice_to 5 session_ids);
    let sections4 :=
      sections3 ++
      match result_lines with
      | _ :: _ =>
        [lit "<failed_tool_results>" ++ nl ++ join nl (slice_to 200 result_lines) ++
         nl ++ lit "</failed_tool_results>"]
      | [] => []
      end in
    mret (join (nl ++ nl) sections4)
  end.

(** [p.exists()]: a refusal of the file system other than absence is
    raised. *)
Definition path_exists (fs : Files) (p : path) : res bool :=
  if stat_raises E p then Raise (OtherError "PermissionError")
  else mret (bool_decide (is_Some (fs !! p))).

(** [p.read_text(encoding="utf-8")] *)
Definition read_text (fs : Files) (p : path) : res pystr :=
  match fs !! p with
  | Some (Some s) => Ok s
  | _ => Raise (OtherError "OSError")
  end.

(** A section of the configuration context for a file that exists: its text
    up to [limit] between tags, or nothing when reading raises. *)
Definition config_section (fs : Files) (p : path) (tag : string) (limit : Z)
    : list pystr :=
  match read_text fs p with
  | Ok s =>
    [lit "<" ++ lit tag ++ lit ">" ++ nl ++ slice_to limit s ++ nl ++
     lit "</" ++ lit tag ++ lit ">"]
  | Raise _ => []
  end.

Definition _read_project_config (project_dir : path) (fs : Files) : res pystr :=
  let prompts_dir := get_prompts_dir E project_dir in
  let ac_path :=
    path_join (path_join project_dir ".autoforge") "allowed_commands.yaml" in
  ac ← path_exists fs ac_path;
  let sections1 :=
    if (ac : bool) then
      config_section fs ac_path "allowed_commands_yaml" CONFIG_TRUNCATION_LIMIT
    else
      [lit "<allowed_commands_yaml>" ++ nl ++
       lit "No allowed_commands.yaml found (using defaults only)." ++ nl ++
       lit "</allowed_commands_yaml>"] in
  let coding_prompt := path_join prompts_dir "coding_prompt.md" in
  cp ← path_exists fs coding_prompt;
  let sections2 :=
    sections1 ++
    if (cp : bool) then
      config_section fs coding_prompt "coding_prompt" PROMPT_TRUNCATION_LIMIT
    else [] in
  let init_prompt := path_join prompts_dir "initializer_prompt.md" in
  ip ← path_exists fs init_prompt;
  let sections3 :=
    sections2 ++
    if (ip : bool) then
      config_section fs init_prompt "initializer_prompt" PROMPT_TRUNCATION_LIMIT
    else [] in
  let claude_md := path_join project_dir "CLAUDE.md" in
  cm ← path_exists fs claude_md;
  let sections4 :=
    sections3 ++
    if (cm : bool) then
      config_section fs claude_md "claude_md" CONFIG_TRUNCATION_LIMIT
    else [] in
  mret (match sections4 with
        | _ :: _ => join (nl ++ nl) sections4
        | [] => lit "No project configuration files found."
        end).

End ContextAssembler.

(** The quotation mark, which the report guidelines use. *)
Definition dq : pystr := [34%N].

(** The analysis brief given to the model as its system prompt. *)
Definition _build_system_prompt (project_name log_context config_context : pystr)
    : pystr :=
  join nl [
    lit "You are an expert DevOps analyst reviewing agent session logs for the AutoForge autonomous coding system.";
    lit "";
    lit "Your task is to analyze the provided agent session logs and project configuration, then produce a structured report with actionable recommendations for improving autonomous agent execution.";
    lit "";
    lit "## Project: " ++ project_name;
    lit "";
    lit "## Agent Session Logs";
    lit "";
    log_context;
    lit "";
    lit "## Project Configuration";
    lit "";
    config_context;
    lit "";
    lit "## Report Format";
    lit "";
    lit "Produce your analysis using the following sections. Use markdown formatting.";
    lit "";
    lit "### 1. Executive Summary";
    lit "2-3 sentences summarizing overall agent health and effectiveness. Mention session count, success rate, and the single biggest issue.";
    lit "";
    lit "### 2. Command Analysis";
    lit "Identify bash commands the agent used frequently (from tool_use logs) that may not be in the project's `allowed_commands.yaml`. For each:";
    lit "- Command name and frequency";
    lit "- Whether it was denied/failed due to permissions";
    lit "- Exact YAML snippet to add to `allowed_commands.yaml`";
    lit "";
    lit "If no command issues are found, say so explicitly.";
    lit "";
    lit "### 3. Error Patterns";
    lit "Group recurring errors by type (build errors, test failures, permission denials, crashes, timeouts). For each group:";
    lit "- Error pattern description";
    lit "- Frequency and affected sessions";
    lit "- Root cause analysis";
    lit "- Specific preventive measure";
    lit "";
    lit "### 4. Efficiency Analysis";
    lit "Analyze wasted effort patterns:";
    lit "- Agent crashes and their causes";
    lit "- Repeated failed attempts at the same task";
    lit "- Time spent on tasks that could be avoided with better configuration";
    lit "- YOLO vs standard mode effectiveness (if both were used)";
    lit "";
    lit "### 5. Prompt Improvement Suggestions";
    lit "Specific text to add to project prompts to prevent recurring issues. Provide suggestions as fenced code blocks that can be directly added to:";
    lit "- `coding_prompt.md` " ++ [8212%N] ++ lit " instructions for the coding agent";
    lit "- `initializer_prompt.md` " ++ [8212%N] ++ lit " instructions for feature creation";
    lit "- `CLAUDE.md` " ++ [8212%N] ++ lit " project-level agent instructions";
    lit "";
    lit "### 6. Configuration Recommendations";
    lit "Based on observed patterns, recommend changes to:";
    lit "- Batch size (current behavior vs optimal)";
    lit "- Concurrency level";
    lit "- YOLO mode suitability for this project";
    lit "- Any other AutoForge settings";
    lit "";
    lit "### 7. Action Items";
    lit "Top 5 prioritized changes, ordered by impact. Each should be a concrete, actionable step.";
    lit "";
    lit "## Guidelines";
    lit "- Only cite evidence from the actual logs provided. Do not speculate beyond what the data shows.";
    lit "- If there are very few sessions or no errors, acknowledge this and provide what analysis you can.";
    lit "- Format all configuration suggestions as code blocks so users can copy-paste them.";
    lit "- Be specific: instead of " ++ dq ++ lit "improve error handling" ++ dq ++ lit ", say exactly what prompt text to add and where.";
    lit "- Use the Read, Glob, and Grep tools to look at relevant project files if you need more context." ].

(** ** The session object *)

Record Session := {
  project_name : pystr;
  project_dir : path;
  client : option Client;
  messages : list Message;
  complete : bool;
  created_at : pystr;
  _conversation_id : option pystr;
  _client_entered : bool;
  _settings_file : option path;
  (** [self._query_lock.locked()] *)
  _query_lock : bool;
}.

(** [LogReviewSession(project_name, project_dir)] *)
Definition new_session (name : pystr) (dir : path) (now : pystr) : Session :=
  {| project_name := name; project_dir := dir; client := None; messages := [];
     complete := false; created_at := now; _conversation_id := None;
     _client_entered := false; _settings_file := None; _query_lock := false |}.

Definition with_client (c : option Client) (s : Session) : Session :=
  {| project_name := project_name s; project_dir := project_dir s; client := c;
     messages := messages s; complete := complete s; created_at := created_at s;
     _conversation_id := _conversation_id s; _client_entered := _client_entered s;
     _settings_file := _settings_file s; _query_lock := _query_lock s |}.

Definition with_messages (ms : list Message) (s : Session) : Session :=
  {| project_name := project_name s; project_dir := project_dir s;
     client := client s; messages := ms; complete := complete s;
     created_at := created_at s; _conversation_id := _conversation_id s;
     _client_entered := _client_entered s; _settings_file := _settings_file s;
     _query_lock := _query_lock s |}.

Definition with_complete (b : bool) (s : Session) : Session :=
  {| project_name := project_name s; project_dir := project_dir s;
     client := client s; messages := messages s; complete := b;
     created_at := created_at s; _conversation_id := _conversation_id s;
     _client_entered := _client_entered s; _settings_file := _settings_file s;
     _query_lock := _query_lock s |}.

Definition with_client_entered (b : bool) (s : Session) : Session :=
  {| project_name := project_name s; project_dir := project_dir s;
     client := client s; messages := messages s; complete := complete s;
     created_at := created_at s; _conversation_id := _conversation_id s;
     _client_entered := b; _settings_file := _settings_file s;
     _query_lock := _query_lock s |}.

Definition with_settings_file (p : option path) (s : Session) : Session :=
  {| project_name := project_name s; project_dir := project_dir s;
     client := client s; messages := messages s; complete := complete s;
     created_at := created_at s; _conversation_id := _conversation_id s;
     _client_entered := _client_entered s; _settings_file := p;
     _query_lock := _query_lock s |}.

Definition with_query_lock (b : bool) (s : Session) : Session :=
  {| project_name := project_name s; project_dir := project_dir s;
     client := client s; messages := messages s; complete := complete s;
     created_at := created_at s; _conversation_id := _conversation_id s;
     _client_entered := _client_entered s; _settings_file := _settings_file s;
     _query_lock := b |}.

Definition is_assistant (m : Message) : Prop := role m = Assistant.
Definition is_user (m : Message) : bool :=
  match role m with User => true | Assistant => false end.

(** The state outside the session: the files and the history of events. *)
Record World := {
  files : Files;
  history : list Event;
}.

(** ** Asynchronous generators

    A generator method runs on its session and the world; driven to its end
    it has yielded a list of fragments and either finished, raised into its
    consumer, or stays suspended on the query gate. *)

Inductive outcome (A : Type) :=
| Done (a : A)
| Raised (e : exn)
| Waiting.
Arguments Done {A} a.
Arguments Raised {A} e.
Arguments Waiting {A}.

Definition Gen (A : Type) : Type :=
  Session -> World -> list Fragment * Session * World * outcome A.

#[global] Instance gen_ret : MRet Gen := fun A a s w => ([], s, w, Done a).
#[global] Instance gen_bind : MBind Gen := fun A B f m s w =>
  match m s w with
  | (out, s', w', Done a) =>
    match f a s' w' with
    | (out', s'', w'', r) => (out ++ out', s'', w'', r)
    end
  | (out, s', w', Raised e) => (out, s', w', Raised e)
  | (out, s', w', Waiting) => (out, s', w', Waiting)
  end.

Definition yield (f : Fragment) : Gen unit := fun s w => ([f], s, w, Done tt).
Definition raise {A} (e : exn) : Gen A := fun s w => ([], s, w, Raised e).
Definition get_self : Gen Session := fun s w => ([], s, w, Done s).
Definition get_world : Gen World := fun s w => ([], s, w, Done w).
Definition update (f : Session -> Session) : Gen unit :=
  fun s w => ([], f s, w, Done tt).
Definition event (e : Event) : Gen unit :=
  fun s w => ([], s, {| files := files w; history := history w ++ [e] |}, Done tt).
Definition set_files (fs : Files) : Gen unit :=
  fun s w => ([], s, {| files := fs; history := history w |}, Done tt).

(** A call of a function that is not a generator. *)
Definition call {A} (r : res A) : Gen A :=
  match r with
  | Ok a => mret a
  | Raise e => raise e
  end.

(** [try: body / except Exception: handler] *)
Definition try_except {A} (body : Gen A) (handler : exn -> Gen A) : Gen A :=
  fun s w =>
    match body s w with
    | (out, s', w', Raised e) =>
      match handler e s' w' with
      | (out', s'', w'', r) => (out ++ out', s'', w'', r)
      end
    | r => r
    end.

(** [try: body / finally: cleanup], for a cleanup that does not raise. *)
Definition try_finally {A} (body : Gen A) (cleanup : Gen unit) : Gen A :=
  fun s w =>
    match body s w with
    | (out, s', w', Waiting) => (out, s', w', Waiting)
    | (out, s', w', r) =>
      match cleanup s' w' with
      | (out', s'', w'', _) => (out ++ out', s'', w'', r)
      end
    end.

(** [async with self._query_lock: body]: waits while the gate is held, and
    releases it however the body ends. *)
Definition async_with_query_lock {A} (body : Gen A) : Gen A :=
  fun s w =>
    if _query_lock s then ([], s, w, Waiting)
    else try_finally (update (with_query_lock true) ;; body)
                     (update (with_query_lock false)) s w.

(** [for x in xs: body(x)] inside a generator. *)
Fixpoint gen_for {A} (body : A -> Gen unit) (xs : list A) : Gen unit :=
  match xs with
  | [] => mret tt
  | x :: xs' => body x ;; gen_for body xs'
  end.

(** ** The methods of [LogReviewSession] *)

Section SessionMethods.
Context (E : Env).

Definition append_message (r : Role) (c : pystr) : Gen unit :=
  s ← get_self;
  w ← get_world;
  update (with_messages
    (messages s ++ [{| role := r; content := c;
                       timestamp := now_iso E (history w) (length (messages s)) |}])).

(** The texts [_query_claude] surfaces from one message of the stream:
    non-empty texts of text blocks of assistant messages. *)
Definition surfaced_texts (msg : SDKMessage) : list pystr :=
  if String.eqb (msg_type msg) "AssistantMessage" then
    match msg_content msg with
    | Some blocks =>
      omap (fun b =>
              if String.eqb (block_type b) "TextBlock" then
                match text b with
                | Some (c :: t) => Some (c :: t)
                | _ => None
                end
              else None) blocks
    | None => []
    end
  else [].

(** The body of the inner loop: the text is yielded, then recorded. *)
Definition surface_text (t : pystr) : Gen unit :=
  yield (FText t) ;; append_message Assistant t.

(** The body of [async for msg in self.client.receive_response()]. *)
Definition surface_message (msg : SDKMessage) : Gen unit :=
  gen_for surface_text (surfaced_texts msg).

Definition _query_claude (message : pystr) : Gen unit :=
  s ← get_self;
  match client s with
  | None => mret tt
  | Some _ =>
    w ← get_world;
    let r := reply E (history w) message in
    event (EvQuery message) ;;
    match query_raises r with
    | Some e => raise e
    | None =>
      gen_for surface_message (stream r) ;;
      match stream_raises r with
      | Some e => raise e
      | None => mret tt
      end
    end
  end.

(** How a query ends, by what the connection does with it. *)
Definition query_end (r : Reply) : outcome unit :=
  match query_raises r with
  | Some e => Raised e
  | None =>
    match stream_raises r with
    | Some e => Raised e
    | None => Done tt
    end
  end.

(** What [send_message] yields last, by how the query ended. *)
Definition follow_up_closing (r : outcome unit) : Fragment :=
  match r with
  | Done _ => FResponseDone
  | _ => FError (lit "Error while processing follow-up question")
  end.

(** What [start] yields last, by how its query ended. *)
Definition analysis_closing (r : outcome unit) : list Fragment :=
  match r with
  | Done _ => [FAnalysisComplete; FResponseDone]
  | _ => [FError (lit "Failed to start analysis")]
  end.

Definition security_settings : Json :=
  JObj [("sandbox", JObj [("enabled", JBool true)]);
        ("permissions",
         JObj [("defaultMode", JStr (lit "bypassPermissions"));
               ("allow",
                JArr ([JStr (lit "Read(./**)"); JStr (lit "Glob(./**)");
                       JStr (lit "Grep(./**)")] ++
                      map JStr LOG_REVIEW_FEATURE_TOOLS))])].

Definition mcp_servers_config (project_dir : path) : Json :=
  JObj [("features",
         JObj [("command", JStr (sys_executable E));
               ("args", JArr [JStr (lit "-m"); JStr (lit "mcp_server.feature_mcp")]);
               ("env",
                JObj [("PROJECT_DIR", JStr (resolve_str E project_dir));
                      ("PYTHONPATH", JStr (resolve_str E (ROOT_DIR E)))])])].

Definition client_options (system_cli system_prompt : pystr)
    (project_dir settings_file : path) : ClaudeAgentOptions :=
  {| model := get_model_for_role E (lit "log_review");
     cli_path := system_cli;
     system_prompt := system_prompt;
     allowed_tools :=
       [lit "Read"; lit "Glob"; lit "Grep"] ++ LOG_REVIEW_FEATURE_TOOLS;
     mcp_servers := mcp_servers_config project_dir;
     permission_mode := lit "bypassPermissions";
     max_turns := 50;
     cwd := resolve_str E project_dir;
     settings := resolve_str E settings_file;
     env := get_effective_sdk_env E |}.

(** [open(settings_file, "w")] and [json.dump]; the parent directory made
    before is not a file and leaves [files] as it is. *)
Definition write_settings (p : path) : Gen unit :=
  w ← get_world;
  event (EvWrite p) ;;
  set_files (<[p := Some (json_dump E security_settings)]> (files w)).

(** The [try] block that creates and enters the client. *)
Definition open_client (options : ClaudeAgentOptions) : Gen unit :=
  w ← get_world;
  event (EvClientNew options) ;;
  match connect E (history w) with
  | ConstructorRaises e => raise e
  | EnterRaises e =>
    update (with_client (Some (ClaudeSDKClient options))) ;;
    event EvClientEnter ;;
    raise e
  | ConnectOk =>
    update (with_client (Some (ClaudeSDKClient options))) ;;
    event EvClientEnter ;;
    update (with_client_entered true)
  end.

Definition ANALYSIS_REQUEST : pystr :=
  lit "Analyze the agent session logs provided in your system prompt and produce the structured report.".

Definition PROGRESS_NOTICE : Fragment :=
  FText (lit "Analyzing agent session logs..." ++ nl ++ nl).

Definition NO_SESSIONS_NOTICE : Fragment :=
  FText (lit "No agent sessions found for this project. Run the agent at least once to generate logs for analysis.").

Definition start : Gen unit :=
  match which_claude E with
  | Some (c :: rest) =>
    let system_cli := c :: rest in
    yield PROGRESS_NOTICE ;;
    s ← get_self;
    log_context ← call (_gather_log_context E (project_name s) (project_dir s));
    if str_in NO_SESSIONS_MARKER log_context then
      yield NO_SESSIONS_NOTICE ;;
      yield FAnalysisComplete ;;
      update (with_complete true)
    else
      w ← get_world;
      config_context ← call (_read_project_config E (project_dir s) (files w));
      let system_prompt :=
        _build_system_prompt (project_name s) log_context config_context in
      let settings_file :=
        get_expand_settings_path E (project_dir s) (uuid4_hex E (history w)) in
      update (with_settings_file (Some settings_file)) ;;
      write_settings settings_file ;;
      let options :=
        client_options system_cli system_prompt (project_dir s) settings_file in
      connected ← try_except
        (open_client options ;; mret true)
        (fun _ =>
           event (EvLog "Failed to create Claude client for log review") ;;
           yield (FError (lit "Failed to initialize Claude for log analysis")) ;;
           mret false);
      if (connected : bool) then
        try_except
          (async_with_query_lock (_query_claude ANALYSIS_REQUEST) ;;
           yield FAnalysisComplete ;;
           update (with_complete true) ;;
           yield FResponseDone)
          (fun _ =>
             event (EvLog "Failed to start log review analysis") ;;
             yield (FError (lit "Failed to start analysis")))
      else mret tt
  | _ =>
    yield (FError (lit "Claude CLI not found. Please install it: npm install -g @anthropic-ai/claude-code"))
  end.

Definition send_message (user_message : pystr) : Gen unit :=
  s ← get_self;
  match client s with
  | None => yield (FError (lit "Session not initialized. Call start() first."))
  | Some _ =>
    append_message User user_message ;;
    try_except
      (async_with_query_lock (_query_claude user_message) ;;
       yield FResponseDone)
      (fun _ =>
         event (EvLog "Error during log review follow-up") ;;
         yield (FError (lit "Error while processing follow-up question")))
  end.

Definition close : Gen unit :=
  s ← get_self;
  (if bool_decide (is_Some (client s)) && _client_entered s then
     try_finally
       (try_except
          (w ← get_world;
           event EvClientExit ;;
           if exit_raises E (history w) then raise (OtherError "__aexit__")
           else mret tt)
          (fun _ => event (EvLog "Error closing Claude client")))
       (update (with_client_entered false) ;; update (with_client None))
   else mret tt) ;;
  s ← get_self;
  match _settings_file s with
  | Some p =>
    w ← get_world;
    there ← call (path_exists E (files w) p);
    if (there : bool) then
      try_except
        (if unlink_raises E p then raise (OtherError "OSError")
         else event (EvUnlink p) ;; set_files (delete p (files w)))
        (fun _ => event (EvLog "Error removing settings file"))
    else mret tt
  | None => mret tt
  end.

Definition is_complete (s : Session) : bool := complete s.
Definition get_messages (s : Session) : list Message := messages s.

End SessionMethods.

(** ** The session registry *)

(** A [dict] with string keys, in insertion order. *)
Abbreviation Dict V := (list (pystr * V)).

(** [d.get(k)] *)
Fixpoint dict_get {V} (k : pystr) (d : Dict V) : option V :=
  match d with
  | [] => None
  | (k', v) :: d' => if decide (k = k') then Some v else dict_get k d'
  end.

(** [d.pop(k, None)]: the value removed and what is left. *)
Fixpoint dict_pop {V} (k : pystr) (d : Dict V) : option V * Dict V :=
  match d with
  | [] => (None, [])
  | (k', v) :: d' =>
    if decide (k = k') then (Some v, d')
    else let '(r, rest) := dict_pop k d' in (r, (k', v) :: rest)
  end.

(** [d[k] = v]: in place for a key that is there, at the end otherwise. *)
Fixpoint dict_set {V} (k : pystr) (v : V) (d : Dict V) : Dict V :=
  match d with
  | [] => [(k, v)]
  | (k', v') :: d' =>
    if decide (k = k') then (k', v) :: d' else (k', v') :: dict_set k v d'
  end.

(** [list(d.values())] *)
Definition dict_values {V} (d : Dict V) : list V := map snd d.

(** The process: the session objects by identity, the module-level
    [_log_review_sessions] holding references to them, and the world. *)
Record Process := {
  heap : list Session;
  _log_review_sessions : Dict nat;
  world : World;
}.

(** A coroutine of the module: it changes the process and returns, raises or
    stays suspended. *)
Definition Proc (A : Type) : Type := Process -> Process * outcome A.

#[global] Instance proc_ret : MRet Proc := fun A a p => (p, Done a).
#[global] Instance proc_bind : MBind Proc := fun A B f m p =>
  match m p with
  | (p', Done a) => f a p'
  | (p', Raised e) => (p', Raised e)
  | (p', Waiting) => (p', Waiting)
  end.

Definition proc_event (e : Event) : Proc unit := fun p =>
  ({| heap := heap p; _log_review_sessions := _log_review_sessions p;
      world := {| files := files (world p); history := history (world p) ++ [e] |} |},
   Done tt).

(** An operation on [_log_review_sessions]: the dictionary becomes [d], the
    operation is recorded where it happens and returns [a]. *)
Definition registry_op {A} (op : RegistryOp) (d : Dict nat) (a : A) : Proc A :=
  fun p =>
    ({| heap := heap p; _log_review_sessions := d;
        world := {| files := files (world p);
                    history := history (world p) ++ [EvRegistry op] |} |},
     Done a).

(** [_log_review_sessions.get(k)] *)
Definition registry_get (k : pystr) : Proc (option nat) := fun p =>
  let d := _log_review_sessions p in
  registry_op (RegGet k) d (dict_get k d) p.

(** [_log_review_sessions.pop(k, None)] *)
Definition registry_pop (k : pystr) : Proc (option nat) := fun p =>
  let '(old, d') := dict_pop k (_log_review_sessions p) in
  registry_op (RegPop k) d' old p.

(** [_log_review_sessions[k] = v] *)
Definition registry_set (k : pystr) (v : nat) : Proc unit := fun p =>
  registry_op (RegSet k v) (dict_set k v (_log_review_sessions p)) tt p.

(** [list(_log_review_sessions.values())] *)
Definition registry_values : Proc (list nat) := fun p =>
  let d := _log_review_sessions p in
  registry_op RegValues d (dict_values d) p.

(** [_log_review_sessions.clear()] *)
Definition registry_clear : Proc unit := registry_op RegClear [] tt.

(** [try: body / except Exception: handler] in a coroutine. *)
Definition proc_try {A} (body : Proc A) (handler : exn -> Proc A) : Proc A :=
  fun p =>
    match body p with
    | (p', Raised e) => handler e p'
    | r => r
    end.

(** [except Exception as e: logger.warning(...)] *)
Definition log_warning (what : string) : exn -> Proc unit :=
  fun _ => proc_event (EvLog what).

(** [for x in xs: body(x)] in a coroutine. *)
Fixpoint proc_for {A} (body : A -> Proc unit) (xs : list A) : Proc unit :=
  match xs with
  | [] => mret tt
  | x :: xs' => body x ;; proc_for body xs'
  end.

(** The world once a call of [close] on the object [session] is recorded. *)
Definition note_close (session : nat) (w : World) : World :=
  {| files := files w; history := history w ++ [EvClose session] |}.

Section Registry.
Context (E : Env).

(** Constructing a session: a new object, whose reference is returned. *)
Definition LogReviewSession (name : pystr) (dir : path) : Proc nat := fun p =>
  let s := new_session name dir
             (now_iso E (history (world p)) 0) in
  ({| heap := heap p ++ [s]; _log_review_sessions := _log_review_sessions p;
      world := world p |},
   Done (length (heap p))).

(** [await session.close()] on the object behind a reference.  The
    registry only holds references to constructed sessions. *)
Definition await_close (session : nat) : Proc unit := fun p =>
  match heap p !! session with
  | Some s =>
    let '(_, s', w', r) := close E s (note_close session (world p)) in
    ({| heap := <[session := s']> (heap p);
        _log_review_sessions := _log_review_sessions p; world := w' |}, r)
  | None => (p, Raised (OtherError "no such object"))
  end.

Definition get_log_review_session (name : pystr) : Proc (option nat) :=
  proc_event EvRegistryAcquire ;;
  found ← registry_get name;
  proc_event EvRegistryRelease ;;
  mret found.

Definition create_log_review_session (name : pystr) (dir : path) : Proc nat :=
  proc_event EvRegistryAcquire ;;
  old_session ← registry_pop name;
  session ← LogReviewSession name dir;
  registry_set name session ;;
  proc_event EvRegistryRelease ;;
  match old_session with
  | Some old =>
    proc_try (await_close old)
             (log_warning "Error closing old log review session")
  | None => mret tt
  end ;;
  mret session.

Definition remove_log_review_session (name : pystr) : Proc unit :=
  proc_event EvRegistryAcquire ;;
  session ← registry_pop name;
  proc_event EvRegistryRelease ;;
  match session with
  | Some l =>
    proc_try (await_close l)
             (log_warning "Error closing log review session")
  | None => mret tt
  end.

Definition cleanup_all_log_review_sessions : Proc unit :=
  proc_event EvRegistryAcquire ;;
  sessions_to_close ← registry_values;
  registry_clear ;;
  proc_event EvRegistryRelease ;;
  proc_for (fun session =>
              proc_try (await_close session)
                       (log_warning "Error closing log review session"))
           sessions_to_close.

End Registry.

(** ** Vocabulary for the registry's properties *)

(** The session objects [close] was called on, in order. *)
Definition closes (h : list Event) : list nat :=
  omap (fun e => match e with EvClose l => Some l | _ => None end) h.

(** The events a session produces by itself: no call of [close] and nothing
    on the registry or its lock. *)
Definition session_event (e : Event) : bool :=
  match e with
  | EvClose _ | EvRegistryAcquire | EvRegistryRelease | EvRegistry _ => false
  | _ => true
  end.

(** A session with an entered client. *)
Definition live (s : Session) : bool :=
  bool_decide (is_Some (client s)) && _client_entered s.

(** The references of the registry point to constructed sessions. *)
Definition well_formed (p : Process) : Prop :=
  Forall (fun l => (l < length (heap p))%nat) (dict_values (_log_review_sessions p)).

(** ** The configuration files by kind *)

Inductive ConfigFile :=
| AllowedCommands
| CodingPrompt
| InitializerPrompt
| ClaudeMd.

(** Where [_read_project_config] looks for each file. *)
Definition config_path (E : Env) (project_dir : path) (f : ConfigFile) : path :=
  match f with
  | AllowedCommands =>
    path_join (path_join project_dir ".autoforge") "allowed_commands.yaml"
  | CodingPrompt => path_join (get_prompts_dir E project_dir) "coding_prompt.md"
  | InitializerPrompt =>
    path_join (get_prompts_dir E project_dir) "initializer_prompt.md"
  | ClaudeMd => path_join project_dir "CLAUDE.md"
  end.

Definition config_tag (f : ConfigFile) : string :=
  match f with
  | AllowedCommands => "allowed_commands_yaml"
  | CodingPrompt => "coding_prompt"
  | InitializerPrompt => "initializer_prompt"
  | ClaudeMd => "claude_md"
  end.

(** A text between its opening and closing tag, as the sections have it. *)
Definition tagged (tag : string) (body : pystr) : pystr :=
  lit "<" ++ lit tag ++ lit ">" ++ nl ++ body ++ nl ++ lit "</" ++ lit tag ++ lit ">".

(** ** Example worlds *)

Module Examples.

Definition no_reply : Reply :=
  {| query_raises := None; stream := []; stream_raises := None |}.

(** One assistant message with two text blocks and a tool block. *)
Definition short_reply : Reply :=
  {| query_raises := None;
     stream :=
       [{| msg_type := "SystemMessage"; msg_content := None |};
        {| msg_type := "AssistantMessage";
           msg_content :=
             Some [{| block_type := "TextBlock"; text := Some (lit "All good.") |};
                   {| block_type := "ToolUseBlock"; text := None |};
                   {| block_type := "TextBlock"; text := Some [] |}] |}];
     stream_raises := None |}.

Definition broken_reply : Reply :=
  {| query_raises := None;
     stream :=
       [{| msg_type := "AssistantMessage";
           msg_content :=
             Some [{| block_type := "TextBlock"; text := Some (lit "Looking") |}] |}];
     stream_raises := Some (OtherError "ProcessError") |}.

(** ASCII lower-casing, which is what [str.lower] does on ASCII text. *)
Definition ascii_lower (s : pystr) : pystr :=
  map (fun c => if ((65 <=? c) && (c <=? 90))%N then (c + 32)%N else c) s.

(** A machine with the CLI installed, a log database answering with the
    given sessions and error rows, and a connection behaving as given. *)
Definition machine (sessions errors : list Row) (conn : Connect) (r : Reply)
    : Env :=
  {| which_claude := Some (lit "/usr/local/bin/claude");
     get_sessions := fun _ _ _ => Ok sessions;
     get_session_logs := fun _ _ line_type _ =>
       if decide (line_type = lit "error") then Ok errors else Ok [];
     iso_minutes := fun _ _ => None;
     str_lower := ascii_lower;
     get_prompts_dir := fun d => path_join (path_join d ".autoforge") "prompts";
     get_expand_settings_path := fun d u =>
       path_join (path_join d ".autoforge") ".claude_settings.expand.json";
     uuid4_hex := fun _ => lit "0f8fad5bd9cb469fa16570867728950e";
     get_model_for_role := fun _ => PStr (lit "sonnet");
     get_effective_sdk_env := [];
     sys_executable := lit "/usr/bin/python3";
     ROOT_DIR := ["srv"; "autoforge"];
     resolve_str := fun p => join (lit "/") (map lit p);
     json_dump := fun _ => lit "{}";
     stat_raises := fun _ => false;
     unlink_raises := fun _ => false;
     connect := fun _ => conn;
     exit_raises := fun _ => false;
     reply := fun _ _ => r;
     now_iso := fun _ _ => lit "2025-06-01T12:00:00" |}.

Definition demo_dir : path := ["home"; "dev"; "demo"].

Definition fresh : Session :=
  new_session (lit "demo") demo_dir (lit "2025-06-01T11:59:00").

Definition quiet : World := {| files := ∅; history := [] |}.

(** A recorded session, as the database returns it. *)
Definition session_row : Row :=
  <["id" := PInt 1]> (<["status" := PStr (lit "completed")]>
    (<["yolo_mode" := PBool false]> ∅)).

(** An error row whose text quotes the marker. *)
Definition marker_row : Row :=
  <["content" := PStr (lit "Unknown tag <no_sessions> in template")]> ∅.

(** A machine without recorded sessions. *)
Definition unused : Env := machine [] [] ConnectOk no_reply.

(** A machine with a recorded session whose connection cannot be opened. *)
Definition unreachable : Env :=
  machine [session_row] [] (ConstructorRaises (OtherError "CLINotFoundError")) no_reply.

(** A machine with a recorded session whose error log quotes the marker. *)
Definition quoting : Env := machine [session_row] [marker_row] ConnectOk short_reply.

(** A machine whose connection breaks in the middle of an answer. *)
Definition flaky : Env := machine [session_row] [] ConnectOk broken_reply.

(** A machine that answers. *)
Definition healthy : Env := machine [session_row] [] ConnectOk short_reply.

(** A file of 20000 characters. *)
Definition long_text : pystr := repeat 120%N (Z.to_nat 20000).

(** A project whose [allowed_commands.yaml] and coding prompt are that
    long. *)
Definition long_files : Files :=
  <[config_path healthy demo_dir AllowedCommands := Some long_text]>
    (<[config_path healthy demo_dir CodingPrompt := Some long_text]> ∅).

(** A session whose client is entered, as [start] leaves it. *)
Definition connected : Session :=
  with_client_entered true
    (with_client
       (Some (ClaudeSDKClient
                (client_options healthy (lit "/usr/local/bin/claude")
                   (lit "You are an expert DevOps analyst.") demo_dir
                   (demo_dir ++ [".autoforge"; ".claude_settings.expand.json"]))))
       fresh).

Definition settings_path : path :=
  demo_dir ++ [".autoforge"; ".claude_settings.expand.json"].

(** The session after a successful analysis, and the world with its
    settings file. *)
Definition analysed : Session :=
  with_complete true (with_settings_file (Some settings_path) connected).

Definition settled : World :=
  {| files := {[ settings_path := Some (lit "{}") ]}; history := [] |}.

(** A process whose registry holds that session for the project. *)
Definition registered : Process :=
  {| heap := [analysed];
     _log_review_sessions := [(lit "demo", 0%nat)];
     world := settled |}.

(** A process with two projects under review. *)
Definition two_projects : Process :=
  {| heap := [analysed; with_settings_file None connected];
     _log_review_sessions := [(lit "demo", 0%nat); (lit "other", 1%nat)];
     world := settled |}.

(** A machine on which every existence test is refused, so that [close]
    raises. *)
Definition locked_down : Env :=
  {| which_claude := which_claude healthy;
     get_sessions := get_sessions healthy;
     get_session_logs := get_session_logs healthy;
     iso_minutes := iso_minutes healthy;
     str_lower := str_lower healthy;
     get_prompts_dir := get_prompts_dir healthy;
     get_expand_settings_path := get_expand_settings_path healthy;
     uuid4_hex := uuid4_hex healthy;
     get_model_for_role := get_model_for_role healthy;
     get_effective_sdk_env := get_effective_sdk_env healthy;
     sys_executable := sys_executable healthy;
     ROOT_DIR := ROOT_DIR healthy;
     resolve_str := resolve_str healthy;
     json_dump := json_dump healthy;
     stat_raises := fun _ => true;
     unlink_raises := unlink_raises healthy;
     connect := connect healthy;
     exit_raises := exit_raises healthy;
     reply := reply healthy;
     now_iso := now_iso healthy |}.

End Examples.

(** ** Vocabulary for the properties of the methods *)

(** The parts of what a generator returns. *)
Definition stream_of {A} (r : list Fragment * Session * World * outcome A)
    : list Fragment := fst (fst (fst r)).
Definition session_of {A} (r : list Fragment * Session * World * outcome A)
    : Session := snd (fst (fst r)).
Definition world_of {A} (r : list Fragment * Session * World * outcome A)
    : World := snd (fst r).
Definition outcome_of {A} (r : list Fragment * Session * World * outcome A)
    : outcome A := snd r.

(** A relation between the state a generator finds and the state it leaves
    holds of the generator. *)
Definition gen_keeps {A} (R : Session * World -> Session * World -> Prop)
    (m : Gen A) : Prop :=
  forall s w, R (s, w) (session_of (m s w), world_of (m s w)).

(** The events by which a session takes hold of something: it never lets go
    of anything by them. *)
Definition acquiring_event (e : Event) : bool :=
  match e with
  | EvClientNew _ | EvClientEnter | EvQuery _ | EvWrite _ | EvLog _ => true
  | _ => false
  end.

(** What [start] and [send_message] do to the session and the world, step by
    step: a relation closed under these steps holds between the state a call
    finds and the state it leaves. *)
Record step_closed (allowed : Event -> bool)
    (R : Session * World -> Session * World -> Prop) : Prop := {
  closed_refl : forall x, R x x;
  closed_trans : forall x y z, R x y -> R y z -> R x z;
  closed_complete : forall s w, R (s, w) (with_complete true s, w);
  closed_settings : forall s w p, R (s, w) (with_settings_file (Some p) s, w);
  closed_client : forall s w c, R (s, w) (with_client (Some c) s, w);
  closed_entered : forall s w, R (s, w) (with_client_entered true s, w);
  closed_lock : forall s w b, R (s, w) (with_query_lock b s, w);
  closed_append : forall s w m,
    R (s, w) (with_messages (messages s ++ [m]) s, w);
  closed_event : forall s w e,
    allowed e = true ->
    R (s, w) (s, {| files := files w; history := history w ++ [e] |});
  closed_write : forall s w p c,
    R (s, w) (s, {| files := <[p := c]> (files w); history := history w |});
}.

(** What [close] does in addition. *)
Record close_closed (R : Session * World -> Session * World -> Prop) : Prop := {
  closed_disconnect : forall s w,
    R (s, w) (with_client None (with_client_entered false s), w);
  closed_files : forall s w fs,
    R (s, w) (s, {| files := fs; history := history w |});
}.

(** The life of a session object: its identity stays, its completion flag
    is not reset, its turns are only appended to, and the world sees events
    of the session only. *)
Definition evolves (before after : Session * World) : Prop :=
  project_name (fst after) = project_name (fst before) /\
  project_dir (fst after) = project_dir (fst before) /\
  created_at (fst after) = created_at (fst before) /\
  (complete (fst before) = true -> complete (fst after) = true) /\
  (exists turns, messages (fst after) = messages (fst before) ++ turns) /\
  (exists evs, history (snd after) = history (snd before) ++ evs /\
               forallb session_event evs = true).

(** What [start] and [send_message] leave in place: the files that are on
    disk stay on disk, and the world sees acquiring events only. *)
Definition holds_on (before after : Session * World) : Prop :=
  (forall p, is_Some (files (snd before) !! p) -> is_Some (files (snd after) !! p)) /\
  (exists evs, history (snd after) = history (snd before) ++ evs /\
               forallb acquiring_event evs = true).

(** The texts a query surfaces from what the connection answers: none when
    the query itself raises, else those of the messages delivered. *)
Definition surfaced (r : Reply) : list pystr :=
  match query_raises r with
  | Some _ => []
  | None => concat (map surfaced_texts (stream r))
  end.

(** The assistant turns recorded for texts, the first when the session has
    [n] turns. *)
Fixpoint assistant_turns (E : Env) (h : list Event) (n : nat) (texts : list pystr)
    : list Message :=
  match texts with
  | [] => []
  | t :: texts' =>
    {| role := Assistant; content := t; timestamp := now_iso E h n |}
    :: assistant_turns E h (S n) texts'
  end.

(** ** More example worlds *)

Module Scenarios.

(** The log context of a project with the one recorded session of
    [Examples.session_row] and no log rows. *)
Definition one_session_context : pystr :=
  lit "<sessions>" ++ nl ++
  lit "  Session #1: status=completed, yolo=False, model=unknown, concurrency=N/A, started=?" ++
  nl ++ lit "</sessions>" ++ nl ++ nl ++ lit "<errors>" ++ nl ++
  lit "No errors found in recent sessions." ++ nl ++ lit "</errors>".

(** The configuration context of a project without configuration files. *)
Definition no_config_context : pystr :=
  tagged "allowed_commands_yaml"
         (lit "No allowed_commands.yaml found (using defaults only).").

(** A machine like [Examples.healthy] whose database also holds error rows
    for sessions other than session 1. *)
Definition noisy_elsewhere : Env :=
  {| which_claude := which_claude Examples.healthy;
     get_sessions := get_sessions Examples.healthy;
     get_session_logs := fun _ sid _ _ =>
       match sid with
       | PInt 1 => Ok []
       | _ => Ok [Examples.marker_row]
       end;
     iso_minutes := iso_minutes Examples.healthy;
     str_lower := str_lower Examples.healthy;
     get_prompts_dir := get_prompts_dir Examples.healthy;
     get_expand_settings_path := get_expand_settings_path Examples.healthy;
     uuid4_hex := uuid4_hex Examples.healthy;
     get_model_for_role := get_model_for_role Examples.healthy;
     get_effective_sdk_env := get_effective_sdk_env Examples.healthy;
     sys_executable := sys_executable Examples.healthy;
     ROOT_DIR := ROOT_DIR Examples.healthy;
     resolve_str := resolve_str Examples.healthy;
     json_dump := json_dump Examples.healthy;
     stat_raises := stat_raises Examples.healthy;
     unlink_raises := unlink_raises Examples.healthy;
     connect := connect Examples.healthy;
     exit_raises := exit_raises Examples.healthy;
     reply := reply Examples.healthy;
     now_iso := now_iso Examples.healthy |}.

(** A row of a session whose status was never written. *)
Definition unfinished_row : Row := <["id" := PInt 2]> ∅.

(** A machine whose database returns that row. *)
Definition half_written : Env :=
  Examples.machine [unfinished_row] [] ConnectOk Examples.short_reply.

(** A machine on which no file can be removed. *)
Definition stuck_file : Env :=
  {| which_claude := which_claude Examples.healthy;
     get_sessions := get_sessions Examples.healthy;
     get_session_logs := get_session_logs Examples.healthy;
     iso_minutes := iso_minutes Examples.healthy;
     str_lower := str_lower Examples.healthy;
     get_prompts_dir := get_prompts_dir Examples.healthy;
     get_expand_settings_path := get_expand_settings_path Examples.healthy;
     uuid4_hex := uuid4_hex Examples.healthy;
     get_model_for_role := get_model_for_role Examples.healthy;
     get_effective_sdk_env := get_effective_sdk_env Examples.healthy;
     sys_executable := sys_executable Examples.healthy;
     ROOT_DIR := ROOT_DIR Examples.healthy;
     resolve_str := resolve_str Examples.healthy;
     json_dump := json_dump Examples.healthy;
     stat_raises := stat_raises Examples.healthy;
     unlink_raises := fun _ => true;
     connect := connect Examples.healthy;
     exit_raises := exit_raises Examples.healthy;
     reply := reply Examples.healthy;
     now_iso := now_iso Examples.healthy |}.

End Scenarios.

(** ** Vocabulary for the configuration context *)

(** The limit of each configuration file. *)
Definition config_limit (f : ConfigFile) : Z :=
  match f with
  | AllowedCommands | ClaudeMd => CONFIG_TRUNCATION_LIMIT
  | CodingPrompt | InitializerPrompt => PROMPT_TRUNCATION_LIMIT
  end.

(** The section that stands for [allowed_commands.yaml] when the file is not
    there. *)
Definition NO_ALLOWED_COMMANDS : pystr :=
  tagged "allowed_commands_yaml"
         (lit "No allowed_commands.yaml found (using defaults only).").

(** What a file whose existence test is answered contributes to the
    configuration context: its text up to its limit between its tags; nothing
    when reading it raises; nothing when it is not there, except for
    [allowed_commands.yaml], which is then replaced by a notice. *)
Definition file_section (E : Env) (project_dir : path) (fs : Files)
    (f : ConfigFile) : list pystr :=
  match fs !! config_path E project_dir f with
  | Some (Some text) =>
    [tagged (config_tag f) (take (Z.to_nat (config_limit f)) text)]
  | Some None => []
  | None => match f with AllowedCommands => [NO_ALLOWED_COMMANDS] | _ => [] end
  end.

(** The configuration context made of the sections found. *)
Definition render_sections (sections : list pystr) : pystr :=
  match sections with
  | _ :: _ => join (nl ++ nl) sections
  | [] => lit "No project configuration files found."
  end.

(** ** Vocabulary for the log context *)

(** The first of the keys a session line reads by subscript that a row does
    not have. *)
Definition first_missing_key (row : Row) : option string :=
  List.find (fun k => negb (bool_decide (is_Some (row !! k))))
            ["id"; "status"; "yolo_mode"].

(** The ids of the first [n] of the sessions returned by the database. *)
Definition recent_ids (n : nat) (sessions : list Row) : list PyVal :=
  omap (fun row => row !! "id") (take n sessions).

(** ** Vocabulary for the registry, continued *)

(** The registry is a dictionary (no project twice), no session object is
    registered for two projects, and every reference points to a constructed
    session. *)
Definition registry_ok (p : Process) : Prop :=
  NoDup (map fst (_log_review_sessions p)) /\
  NoDup (dict_values (_log_review_sessions p)) /\
  well_formed p.

(** What a coroutine leaves and how it ended. *)
Definition process_of {A} (r : Process * outcome A) : Process := fst r.
Definition result_of {A} (r : Process * outcome A) : outcome A := snd r.

(** * The router: [server/routers/log_review.py] *)

(** [HTTPException(status_code, detail)] *)
Inductive HttpError := HTTPException (status_code : Z) (detail : pystr).

(** What [json.loads] returns: an object with string keys, or something
    else (a list, a string, a number, [null]).  The values of the two keys
    the handler reads, [type] and [content], are taken to be scalars. *)
Inductive Decoded :=
| DObject (fields : Row)
| DOther.

(** The collaborators of the router: the validation of project names, the
    registry of projects, the existence of a directory, the JSON decoder
    ([None] where it raises [JSONDecodeError]) and the characters that
    [str.strip] removes. *)
Record RouterEnv := {
  validate_project_name : pystr -> HttpError + pystr;
  _get_project_path : pystr -> option path;
  dir_exists : path -> bool;
  json_loads : pystr -> option Decoded;
  isspace : N -> bool;
}.

(** [s.strip()] *)
Fixpoint lstrip (space : N -> bool) (s : pystr) : pystr :=
  match s with
  | c :: s' => if space c then lstrip space s' else s
  | [] => []
  end.

Definition strip (space : N -> bool) (s : pystr) : pystr :=
  rev (lstrip space (rev (lstrip space s))).

(** [v == "literal"] for a value read from a decoded message. *)
Definition is_literal (v : PyVal) (s : string) : bool :=
  match v with
  | PStr t => bool_decide (t = lit s)
  | _ => false
  end.

(** The response model of the status endpoint. *)
Record LogReviewSessionStatus := {
  status_project_name : pystr;
  is_active : bool;
  status_is_complete : bool;
  message_count : nat;
}.

(** How an endpoint ends: it returns, raises an [HTTPException], raises
    something else, or stays suspended. *)
Inductive Response (A : Type) :=
| Returned (a : A)
| HttpRaised (e : HttpError)
| Failed (e : exn)
| Pending.
Arguments Returned {A} a.
Arguments HttpRaised {A} e.
Arguments Failed {A} e.
Arguments Pending {A}.

(** A generator method driven to its end on the session object behind a
    reference, as [async for chunk in session.start()] does. *)
Definition drive (m : Gen unit) (session : nat) (p : Process)
    : list Fragment * Process * outcome unit :=
  match heap p !! session with
  | Some s =>
    let '(out, s', w', r) := m s (world p) in
    (out,
     {| heap := <[session := s']> (heap p);
        _log_review_sessions := _log_review_sessions p; world := w' |},
     r)
  | None => ([], p, Raised (OtherError "no such object"))
  end.

(** What the handler does on the socket. *)
Inductive Outbound :=
| Accepted
| SendJson (f : Fragment)
| CloseSocket (code : Z) (reason : pystr).

(** How the handler ends: the client went away, the set-up refused the
    connection, an exception reached the outer handler, or a call stayed
    suspended. *)
Inductive HandlerEnd :=
| Disconnected
| Refused
| InternalError (e : exn)
| Stalled.

Definition RESUME_NOTICE : Fragment :=
  FText (lit "Resuming existing log review session. Ask a follow-up question or close and reopen for a fresh analysis.").

Definition NOT_ACTIVE : HttpError :=
  HTTPException 404 (lit "No active log review session for this project").

Section Router.
Context (R : RouterEnv) (E : Env).

(** [GET /sessions/{project_name}] *)
Definition get_log_review_session_status (project_name : pystr) (p : Process)
    : Process * Response LogReviewSessionStatus :=
  match validate_project_name R project_name with
  | inl e => (p, HttpRaised e)
  | inr name =>
    match get_log_review_session name p with
    | (p1, Done (Some session)) =>
      match heap p1 !! session with
      | Some s =>
        (p1, Returned {| status_project_name := name; is_active := true;
                         status_is_complete := is_complete s;
                         message_count := length (get_messages s) |})
      | None => (p1, Failed (OtherError "no such object"))
      end
    | (p1, Done None) => (p1, HttpRaised NOT_ACTIVE)
    | (p1, Raised e) => (p1, Failed e)
    | (p1, Waiting) => (p1, Pending)
    end
  end.

(** [DELETE /sessions/{project_name}]; the body returned is
    [{"success": True, "message": ...}], of which the message is kept. *)
Definition cancel_log_review_session (project_name : pystr) (p : Process)
    : Process * Response pystr :=
  match validate_project_name R project_name with
  | inl e => (p, HttpRaised e)
  | inr name =>
    match get_log_review_session name p with
    | (p1, Done (Some _)) =>
      match remove_log_review_session E name p1 with
      | (p2, Done _) => (p2, Returned (lit "Log review session cancelled"))
      | (p2, Raised e) => (p2, Failed e)
      | (p2, Waiting) => (p2, Pending)
      end
    | (p1, Done None) => (p1, HttpRaised NOT_ACTIVE)
    | (p1, Raised e) => (p1, Failed e)
    | (p1, Waiting) => (p1, Pending)
    end
  end.

(** The outer [except Exception]: the exception is logged and an
    internal-error fragment sent; the loop is over. *)
Definition internal_error (sent : list Outbound) (e : exn) (p : Process)
    : list Outbound * Process * HandlerEnd :=
  (sent ++ [SendJson (FError (lit "Internal server error"))],
   fst (proc_event (EvLog "Log review WebSocket error") p),
   InternalError e).

(** The [while True] loop, on the texts the client sends until it goes
    away; [session] is the local variable of the handler.  Sending is taken
    to succeed as long as the client is there. *)
Fixpoint receive_loop (project_name : pystr) (project_dir : path)
    (inbound : list pystr) (session : option nat) (p : Process)
    : list Outbound * Process * HandlerEnd :=
  match inbound with
  | [] =>
    ([], fst (proc_event (EvLog "Log review WebSocket disconnected") p),
     Disconnected)
  | data :: rest =>
    let continue (sent : list Fragment) (session' : option nat) (p' : Process) :=
      let '(out, p'', e) := receive_loop project_name project_dir rest session' p' in
      (map SendJson sent ++ out, p'', e) in
    match json_loads R data with
    | None => continue [FError (lit "Invalid JSON")] session p
    | Some DOther => internal_error [] AttributeError p
    | Some (DObject message) =>
      let msg_type := get message "type" in
      if is_literal msg_type "ping" then continue [FPong] session p
      else if is_literal msg_type "start" then
        match get_log_review_session project_name p with
        | (p1, Done (Some existing_session)) =>
          continue [RESUME_NOTICE; FAnalysisComplete; FResponseDone]
                   (Some existing_session) p1
        | (p1, Done None) =>
          match create_log_review_session E project_name project_dir p1 with
          | (p2, Done created) =>
            match drive (start E) created p2 with
            | (chunks, p3, Done _) => continue chunks (Some created) p3
            | (chunks, p3, Raised e) => internal_error (map SendJson chunks) e p3
            | (chunks, p3, Waiting) => (map SendJson chunks, p3, Stalled)
            end
          | (p2, Raised e) => internal_error [] e p2
          | (p2, Waiting) => ([], p2, Stalled)
          end
        | (p1, Raised e) => internal_error [] e p1
        | (p1, Waiting) => ([], p1, Stalled)
        end
      else if is_literal msg_type "message" then
        let '(p1, found) :=
          match session with
          | Some l => (p, Done (Some l))
          | None => get_log_review_session project_name p
          end in
        match found with
        | Done None =>
          continue [FError (lit "No active session. Send 'start' first.")] None p1
        | Done (Some l) =>
          match get_or message "content" (PStr []) with
          | PStr content =>
            match strip (isspace R) content with
            | [] => continue [FError (lit "Empty message")] (Some l) p1
            | user_content =>
              match drive (send_message E user_content) l p1 with
              | (chunks, p2, Done _) => continue chunks (Some l) p2
              | (chunks, p2, Raised e) => internal_error (map SendJson chunks) e p2
              | (chunks, p2, Waiting) => (map SendJson chunks, p2, Stalled)
              end
            end
          | _ => internal_error [] AttributeError p1
          end
        | Raised e => internal_error [] e p1
        | Waiting => ([], p1, Stalled)
        end
      else
        continue [FError (lit "Unknown message type: " ++ py_str msg_type)] session p
    end
  end.

(** [WS /ws/{project_name}] *)
Definition log_review_websocket (project_name : pystr) (inbound : list pystr)
    (p : Process) : list Outbound * Process * HandlerEnd :=
  match validate_project_name R project_name with
  | inl _ =>
    ([Accepted; SendJson (FError (lit "Invalid project name"));
      CloseSocket 4000 (lit "Invalid project name")], p, Refused)
  | inr name =>
    match _get_project_path R name with
    | None =>
      ([Accepted; SendJson (FError (lit "Project not found in registry"));
        CloseSocket 4004 (lit "Project not found in registry")], p, Refused)
    | Some project_dir =>
      if dir_exists R project_dir then
        let '(out, p', e) := receive_loop name project_dir inbound None p in
        (Accepted :: out, p', e)
      else
        ([Accepted; SendJson (FError (lit "Project directory not found"));
          CloseSocket 4004 (lit "Project directory not found")], p, Refused)
    end
  end.

End Router.

(** ** Vocabulary for the properties of the handler *)

(** What the handler of the project [name] keeps between two states of the
    process: no session is closed, what is registered stays registered,
    other projects are as they were, and at most one session object is
    constructed, none if the project was registered. *)
Definition handler_keeps (name : pystr) (p p' : Process) : Prop :=
  closes (history (world p')) = closes (history (world p)) /\
  (forall k l, dict_get k (_log_review_sessions p) = Some l ->
               dict_get k (_log_review_sessions p') = Some l) /\
  (forall k, k <> name ->
     dict_get k (_log_review_sessions p') = dict_get k (_log_review_sessions p)) /\
  (length (heap p) <= length (heap p') <= S (length (heap p)))%nat /\
  (is_Some (dict_get name (_log_review_sessions p)) ->
   length (heap p') = length (heap p)) /\
  (length (heap p') = S (length (heap p)) ->
   is_Some (dict_get name (_log_review_sessions p'))).

(** The parts of what the handler returns. *)
Definition sent_of (r : list Outbound * Process * HandlerEnd) : list Outbound :=
  fst (fst r).
Definition left_of (r : list Outbound * Process * HandlerEnd) : Process :=
  snd (fst r).
Definition end_of (r : list Outbound * Process * HandlerEnd) : HandlerEnd :=
  snd r.

(** The handler sent fragments only and did not refuse the connection. *)
Definition only_sends (r : list Outbound * Process * HandlerEnd) : Prop :=
  (exists fs, sent_of r = map SendJson fs) /\ end_of r <> Refused.

(** What the handler answers to a text while no session is registered for
    the project, for the texts that do not start one and do not make the
    handler fail. *)
Definition reply_unstarted (R : RouterEnv) (data : pystr) : option Fragment :=
  match json_loads R data with
  | None => Some (FError (lit "Invalid JSON"))
  | Some DOther => None
  | Some (DObject message) =>
    let msg_type := get message "type" in
    if is_literal msg_type "ping" then Some FPong
    else if is_literal msg_type "start" then None
    else if is_literal msg_type "message" then
      Some (FError (lit "No active session. Send 'start' first."))
    else Some (FError (lit "Unknown message type: " ++ py_str msg_type))
  end.

(** The handler sends fragments and goes on as [r]. *)
Definition after_sending (fs : list Fragment)
    (r : list Outbound * Process * HandlerEnd)
    : list Outbound * Process * HandlerEnd :=
  (map SendJson fs ++ sent_of r, left_of r, end_of r).

(** ** Example clients *)

Module Clients.

(** The text of a JSON object with one or two string members. *)
Definition member (k v : string) : pystr :=
  dq ++ lit k ++ dq ++ lit ": " ++ dq ++ lit v ++ dq.

Definition PING : pystr := lit "{" ++ member "type" "ping" ++ lit "}".
Definition START : pystr := lit "{" ++ member "type" "start" ++ lit "}".
Definition ASK : pystr :=
  lit "{" ++ member "type" "message" ++ lit ", " ++
  member "content" "  Why did it fail? " ++ lit "}".
Definition DANCE : pystr := lit "{" ++ member "type" "dance" ++ lit "}".
Definition BLANK : pystr :=
  lit "{" ++ member "type" "message" ++ lit ", " ++
  member "content" "   " ++ lit "}".

(** A router whose decoder knows these five texts and takes anything else
    for invalid JSON, on a machine where the project [demo] is registered. *)
Definition gateway : RouterEnv :=
  {| validate_project_name := fun n =>
       if decide (n = lit "demo") then inr n
       else inl (HTTPException 400 (lit "Invalid project name"));
     _get_project_path := fun n =>
       if decide (n = lit "demo") then Some Examples.demo_dir else None;
     dir_exists := fun _ => true;
     json_loads := fun data =>
       if decide (data = PING) then
         Some (DObject (<["type" := PStr (lit "ping")]> ∅))
       else if decide (data = START) then
         Some (DObject (<["type" := PStr (lit "start")]> ∅))
       else if decide (data = ASK) then
         Some (DObject (<["type" := PStr (lit "message")]>
                          (<["content" := PStr (lit "  Why did it fail? ")]> ∅)))
       else if decide (data = DANCE) then
         Some (DObject (<["type" := PStr (lit "dance")]> ∅))
       else if decide (data = BLANK) then
         Some (DObject (<["type" := PStr (lit "message")]>
                          (<["content" := PStr (lit "   ")]> ∅)))
       else None;
     isspace := fun c => bool_decide (c = 32%N) || bool_decide (c = 10%N) ||
                         bool_decide (c = 9%N) || bool_decide (c = 13%N) |}.

(** A process in which nothing is registered. *)
Definition idle : Process :=
  {| heap := []; _log_review_sessions := []; world := Examples.quiet |}.

(** A process in which the session registered for [demo] has announced its
    analysis without ever having had a client, as [start] leaves it when
    there are no sessions to review. *)
Definition unanswered : Process :=
  {| heap := [with_complete true Examples.fresh];
     _log_review_sessions := [(lit "demo", 0%nat)];
     world := Examples.quiet |}.

End Clients.

(** * The query gate under interleaving

    Driven to its end, a generator is a function of the session and the
    world.  Several calls of [start] and [send_message] on one session do not
    run to their ends one after the other: each stops where the Python
    generator stops (at a [yield], at an [await], at the query gate when it
    is taken) and another goes on, and the consumer of a generator may
    abandon it where it is suspended: the router stops iterating when
    sending a fragment fails, the generator is then closed at its [yield],
    and a task can be cancelled at an [await].  The exception that closes or
    cancels is not an [Exception]: no [except Exception] catches it, and the
    [async with] blocks it leaves release what they hold.

    This part gives [start] and [send_message] once more as programs that
    can stop, written with the same operations as above, and lets any number
    of calls on one session take turns. *)

Module Gate.

(** Where a generator is suspended: created and not yet iterated, at a
    [yield] with its fragment handed over, at an [await], or waiting for the
    query gate. *)
Inductive Point :=
| PStart
| PYield (f : Fragment)
| PAwait
| PAcquire.

(** A generator from where it stands.  [Suspend pt k blocks] is suspended at
    [pt] and goes on as [k] when it is resumed; [blocks] is the number of
    [async with self._query_lock] blocks around the point: when the
    generator is abandoned there, each of them releases the gate on leaving,
    and the generator is over. *)
Inductive Coro (A : Type) : Type :=
| Ret (a : A)
| Throw (e : exn)
| Read (k : Session -> World -> Coro A)
| Update (f : Session -> Session) (k : Coro A)
| Emit (e : Event) (k : Coro A)
| SetFiles (fs : Files) (k : Coro A)
| Release (k : Coro A)
| Suspend (pt : Point) (k : Coro A) (blocks : nat).
Arguments Ret {A} a.
Arguments Throw {A} e.
Arguments Read {A} k.
Arguments Update {A} f k.
Arguments Emit {A} e k.
Arguments SetFiles {A} fs k.
Arguments Release {A} k.
Arguments Suspend {A} pt k blocks.

Fixpoint bind {A B} (m : Coro A) (f : A -> Coro B) : Coro B :=
  match m with
  | Ret a => f a
  | Throw e => Throw e
  | Read k => Read (fun s w => bind (k s w) f)
  | Update g k => Update g (bind k f)
  | Emit e k => Emit e (bind k f)
  | SetFiles fs k => SetFiles fs (bind k f)
  | Release k => Release (bind k f)
  | Suspend pt k blocks => Suspend pt (bind k f) blocks
  end.

#[global] Instance coro_ret : MRet Coro := fun A a => Ret a.
#[global] Instance coro_bind : MBind Coro := fun A B f m => bind m f.

Definition yield (f : Fragment) : Coro unit := Suspend (PYield f) (Ret tt) 0.
Definition await : Coro unit := Suspend PAwait (Ret tt) 0.
Definition raise {A} (e : exn) : Coro A := Throw e.
Definition get_self : Coro Session := Read (fun s _ => Ret s).
Definition get_world : Coro World := Read (fun _ w => Ret w).
Definition update (f : Session -> Session) : Coro unit := Update f (Ret tt).
Definition event (e : Event) : Coro unit := Emit e (Ret tt).
Definition set_files (fs : Files) : Coro unit := SetFiles fs (Ret tt).

Definition call {A} (r : res A) : Coro A :=
  match r with
  | Ok a => Ret a
  | Raise e => Throw e
  end.

(** [try: body / except Exception: handler]: what abandons a generator is
    not an [Exception], so the handler has no part in it. *)
Fixpoint try_except {A} (body : Coro A) (handler : exn -> Coro A) : Coro A :=
  match body with
  | Ret a => Ret a
  | Throw e => handler e
  | Read k => Read (fun s w => try_except (k s w) handler)
  | Update g k => Update g (try_except k handler)
  | Emit e k => Emit e (try_except k handler)
  | SetFiles fs k => SetFiles fs (try_except k handler)
  | Release k => Release (try_except k handler)
  | Suspend pt k blocks => Suspend pt (try_except k handler) blocks
  end.

(** The body of an [async with self._query_lock] block: the gate is
    released where the body returns or raises, and the points inside have
    one more block around them. *)
Fixpoint releasing {A} (body : Coro A) : Coro A :=
  match body with
  | Ret a => Release (Ret a)
  | Throw e => Release (Throw e)
  | Read k => Read (fun s w => releasing (k s w))
  | Update g k => Update g (releasing k)
  | Emit e k => Emit e (releasing k)
  | SetFiles fs k => SetFiles fs (releasing k)
  | Release k => Release (releasing k)
  | Suspend pt k blocks => Suspend pt (releasing k) (S blocks)
  end.

(** [async with self._query_lock: body]: a call abandoned while it waits for
    the gate has nothing to release. *)
Definition async_with_query_lock {A} (body : Coro A) : Coro A :=
  Suspend PAcquire (releasing body) 0.

Fixpoint gen_for {A} (body : A -> Coro unit) (xs : list A) : Coro unit :=
  match xs with
  | [] => mret tt
  | x :: xs' => body x ;; gen_for body xs'
  end.

(** ** The generators of [LogReviewSession], with their awaits *)

Section Methods.
Context (E : Env).

Definition append_message (r : Role) (c : pystr) : Coro unit :=
  s ← get_self;
  w ← get_world;
  update (with_messages
    (messages s ++ [{| role := r; content := c;
                       timestamp := now_iso E (history w) (length (messages s)) |}])).

Definition surface_text (t : pystr) : Coro unit :=
  yield (FText t) ;; append_message Assistant t.

Definition surface_message (msg : SDKMessage) : Coro unit :=
  gen_for surface_text (surfaced_texts msg).

(** [await self.client.query(message)], then one [await] for each message
    of [receive_response()] and one for its end. *)
Definition _query_claude (message : pystr) : Coro unit :=
  s ← get_self;
  match client s with
  | None => mret tt
  | Some _ =>
    w ← get_world;
    let r := reply E (history w) message in
    event (EvQuery message) ;;
    await ;;
    match query_raises r with
    | Some e => raise e
    | None =>
      gen_for (fun msg => await ;; surface_message msg) (stream r) ;;
      await ;;
      match stream_raises r with
      | Some e => raise e
      | None => mret tt
      end
    end
  end.

Definition write_settings (p : path) : Coro unit :=
  w ← get_world;
  event (EvWrite p) ;;
  set_files (<[p := Some (json_dump E security_settings)]> (files w)).

(** The client is constructed, then [await self.client.__aenter__()]. *)
Definition open_client (options : ClaudeAgentOptions) : Coro unit :=
  w ← get_world;
  event (EvClientNew options) ;;
  match connect E (history w) with
  | ConstructorRaises e => raise e
  | EnterRaises e =>
    update (with_client (Some (ClaudeSDKClient options))) ;;
    event EvClientEnter ;;
    await ;;
    raise e
  | ConnectOk =>
    update (with_client (Some (ClaudeSDKClient options))) ;;
    event EvClientEnter ;;
    await ;;
    update (with_client_entered true)
  end.

Definition start : Coro unit :=
  match which_claude E with
  | Some (c :: rest) =>
    let system_cli := c :: rest in
    yield PROGRESS_NOTICE ;;
    s ← get_self;
    log_context ← call (_gather_log_context E (project_name s) (project_dir s));
    if str_in NO_SESSIONS_MARKER log_context then
      yield NO_SESSIONS_NOTICE ;;
      yield FAnalysisComplete ;;
      update (with_complete true)
    else
      w ← get_world;
      config_context ← call (_read_project_config E (project_dir s) (files w));
      let system_prompt :=
        _build_system_prompt (project_name s) log_context config_context in
      let settings_file :=
        get_expand_settings_path E (project_dir s) (uuid4_hex E (history w)) in
      update (with_settings_file (Some settings_file)) ;;
      write_settings settings_file ;;
      let options :=
        client_options E system_cli system_prompt (project_dir s) settings_file in
      connected ← try_except
        (open_client options ;; mret true)
        (fun _ =>
           event (EvLog "Failed to create Claude client for log review") ;;
           yield (FError (lit "Failed to initialize Claude for log analysis")) ;;
           mret false);
      if (connected : bool) then
        try_except
          (async_with_query_lock (_query_claude ANALYSIS_REQUEST) ;;
           yield FAnalysisComplete ;;
           update (with_complete true) ;;
           yield FResponseDone)
          (fun _ =>
             event (EvLog "Failed to start log review analysis") ;;
             yield (FError (lit "Failed to start analysis")))
      else mret tt
  | _ =>
    yield (FError (lit "Claude CLI not found. Please install it: npm install -g @anthropic-ai/claude-code"))
  end.

Definition send_message (user_message : pystr) : Coro unit :=
  s ← get_self;
  match client s with
  | None => yield (FError (lit "Session not initialized. Call start() first."))
  | Some _ =>
    append_message User user_message ;;
    try_except
      (async_with_query_lock (_query_claude user_message) ;;
       yield FResponseDone)
      (fun _ =>
         event (EvLog "Error during log review follow-up") ;;
         yield (FError (lit "Error while processing follow-up question")))
  end.

End Methods.

(** ** One consumer, to the end

    The generator as its consumer sees it who iterates it to its end and
    never abandons it: the fragments yielded, the session and the world
    left, and how it ended; it stays suspended at a gate that is taken. *)

Fixpoint run {A} (c : Coro A) (s : Session) (w : World) {struct c}
    : list Fragment * Session * World * outcome A :=
  match c with
  | Ret a => ([], s, w, Done a)
  | Throw e => ([], s, w, Raised e)
  | Read k => run (k s w) s w
  | Update f k => run k (f s) w
  | Emit e k => run k s {| files := files w; history := history w ++ [e] |}
  | SetFiles fs k => run k s {| files := fs; history := history w |}
  | Release k => run k (with_query_lock false s) w
  | Suspend (PYield f) k _ =>
    let '(out, s', w', r) := run k s w in (f :: out, s', w', r)
  | Suspend PAcquire k _ =>
    if _query_lock s then ([], s, w, Waiting)
    else run k (with_query_lock true s) w
  | Suspend _ k _ => run k s w
  end.

(** The program and the generator are the same to such a consumer. *)
Definition agrees {A} (c : Coro A) (g : Gen A) : Prop :=
  forall s w, run c s w = g s w.

(** ** Calls taking turns *)

(** What the calls do, in order, each with the number of its call: taking
    and releasing the gate, what happens outside the session, a fragment
    handed to the consumer, and a consumer abandoning its generator. *)
Inductive Obs :=
| OEnter (call : nat)
| OLeave (call : nat)
| OEvent (call : nat) (e : Event)
| OYield (call : nat) (f : Fragment)
| OAbandon (call : nat).

(** A generator goes on from where it was resumed until it is suspended
    again or over: nothing else runs in between. *)
Fixpoint advance {A} (call : nat) (c : Coro A) (s : Session) (w : World)
    {struct c} : list Obs * Session * World * Coro A :=
  match c with
  | Read k => advance call (k s w) s w
  | Update f k => advance call k (f s) w
  | Emit e k =>
    let '(obs, s', w', c') :=
      advance call k s {| files := files w; history := history w ++ [e] |} in
    (OEvent call e :: obs, s', w', c')
  | SetFiles fs k => advance call k s {| files := fs; history := history w |}
  | Release k =>
    let '(obs, s', w', c') := advance call k (with_query_lock false s) w in
    (OLeave call :: obs, s', w', c')
  | _ => ([], s, w, c)
  end.

(** The fragment of a [yield] is handed over when the generator gets
    there. *)
Definition arriving {A} (call : nat) (c : Coro A) : list Obs :=
  match c with
  | Suspend (PYield f) _ _ => [OYield call f]
  | _ => []
  end.

(** The session, the world, the calls made on the session, each where it
    stands, and what has been observed. *)
Record State := {
  self : Session;
  outside : World;
  tasks : list (Coro unit);
  log : list Obs;
}.

(** What abandoning a generator inside [blocks] blocks does: each releases
    the gate. *)
Definition unwinding (call : nat) (blocks : nat) (s : Session)
    : list Obs * Session :=
  match blocks with
  | O => ([], s)
  | S _ => (repeat (OLeave call) blocks, with_query_lock false s)
  end.

(** The event loop resumes a suspended call, or the consumer of a call
    abandons it. *)
Inductive Move :=
| Resume (call : nat)
| Abandon (call : nat).

(** A call waiting for the gate is resumed only when the gate is free, and
    takes it. *)
Definition enabled (pt : Point) (s : Session) : bool :=
  match pt with
  | PAcquire => negb (_query_lock s)
  | _ => true
  end.

Definition resumed (pt : Point) (call : nat) (s : Session)
    : list Obs * Session :=
  match pt with
  | PAcquire => ([OEnter call], with_query_lock true s)
  | _ => ([], s)
  end.

Definition fire (mv : Move) (st : State) : option State :=
  match mv with
  | Resume i =>
    match tasks st !! i with
    | Some (Suspend pt k _) =>
      if enabled pt (self st) then
        let '(entered, s0) := resumed pt i (self st) in
        let '(obs, s', w', c') := advance i k s0 (outside st) in
        Some {| self := s'; outside := w'; tasks := <[i := c']> (tasks st);
                log := log st ++ entered ++ obs ++ arriving i c' |}
      else None
    | _ => None
    end
  | Abandon i =>
    match tasks st !! i with
    | Some (Suspend _ _ blocks) =>
      let '(obs, s') := unwinding i blocks (self st) in
      Some {| self := s'; outside := outside st;
              tasks := <[i := Ret tt]> (tasks st);
              log := log st ++ [OAbandon i] ++ obs |}
    | _ => None
    end
  end.

Definition step (st st' : State) : Prop := exists mv, fire mv st = Some st'.

Fixpoint fire_all (mvs : list Move) (st : State) : option State :=
  match mvs with
  | [] => Some st
  | mv :: mvs' =>
    match fire mv st with
    | Some st' => fire_all mvs' st'
    | None => None
    end
  end.

(** A call that has been made and not yet iterated. *)
Definition made (program : Coro unit) : Coro unit :=
  Suspend PStart program 0.

Section Runs.
Context (E : Env).

(** The calls of [start] and [send_message] on a session whose gate is
    free, none of them iterated yet. *)
Definition is_call (c : Coro unit) : Prop :=
  c = made (start E) \/ exists user_message, c = made (send_message E user_message).

Definition initial (st : State) : Prop :=
  _query_lock (self st) = false /\
  Forall is_call (tasks st) /\
  log st = [].

(** ** What serialization asks of the observations *)

(** Reading the observations from the start: the call inside the
    [async with] block, if any; the texts its query has still to deliver;
    whether it has sent its query; whether its consumer has abandoned it;
    and the history of the world. *)
Record Flight := {
  holder : option nat;
  awaited : list pystr;
  queried : bool;
  excused : bool;
  past : list Event;
}.

Definition takeoff (h : list Event) : Flight :=
  {| holder := None; awaited := []; queried := false; excused := false;
     past := h |}.

Definition with_past (h : list Event) (fl : Flight) : Flight :=
  {| holder := holder fl; awaited := awaited fl; queried := queried fl;
     excused := excused fl; past := h |}.

Definition is_query (e : Event) : bool :=
  match e with
  | EvQuery _ => true
  | _ => false
  end.

(** One observation is in order when:
    - a call enters the block only while no call is inside;
    - a query is sent only by the call inside, and only once; what the
      connection answers to it then are the texts awaited;
    - what the call inside yields is the next text awaited;
    - the call inside leaves only when no text is awaited any more: the
      stream of its query has been read to its end.  When [strict] is off,
      a call abandoned by its consumer may leave with texts still
      awaited. *)
Definition observe (strict : bool) (fl : Flight) (o : Obs) : option Flight :=
  match o with
  | OEnter i =>
    match holder fl with
    | None =>
      Some {| holder := Some i; awaited := []; queried := false;
              excused := false; past := past fl |}
    | Some _ => None
    end
  | OLeave i =>
    if bool_decide (holder fl = Some i) &&
       (bool_decide (awaited fl = []) || excused fl)
    then Some {| holder := None; awaited := []; queried := false;
                 excused := false; past := past fl |}
    else None
  | OEvent i (EvQuery message) =>
    if bool_decide (holder fl = Some i) && negb (queried fl)
    then Some {| holder := holder fl;
                 awaited := surfaced (reply E (past fl) message);
                 queried := true; excused := excused fl;
                 past := past fl ++ [EvQuery message] |}
    else None
  | OEvent i e =>
    Some {| holder := holder fl; awaited := awaited fl; queried := queried fl;
            excused := excused fl; past := past fl ++ [e] |}
  | OYield i f =>
    if bool_decide (holder fl = Some i) then
      match f, awaited fl with
      | FText t, t' :: rest =>
        if bool_decide (t = t') then
          Some {| holder := holder fl; awaited := rest; queried := queried fl;
                  excused := excused fl; past := past fl |}
        else None
      | _, _ => None
      end
    else Some fl
  | OAbandon i =>
    if bool_decide (holder fl = Some i) && negb strict then
      Some {| holder := holder fl; awaited := awaited fl; queried := queried fl;
              excused := true; past := past fl |}
    else Some fl
  end.

Fixpoint check (strict : bool) (fl : Flight) (obs : list Obs) : option Flight :=
  match obs with
  | [] => Some fl
  | o :: obs' =>
    match observe strict fl o with
    | Some fl' => check strict fl' obs'
    | None => None
    end
  end.

(** The observations are in order, from a world whose history was [h]. *)
Definition serialized (h : list Event) (obs : list Obs) : Prop :=
  is_Some (check false (takeoff h) obs).

(** They are, and every call that left the block had read its stream to the
    end. *)
Definition strictly_serialized (h : list Event) (obs : list Obs) : Prop :=
  is_Some (check true (takeoff h) obs).

Definition abandons (o : Obs) : bool :=
  match o with
  | OAbandon _ => true
  | _ => false
  end.

(** The queries sent and the texts yielded, each with its call. *)
Definition queries_sent (obs : list Obs) : list (nat * pystr) :=
  omap (fun o => match o with
                 | OEvent i (EvQuery message) => Some (i, message)
                 | _ => None
                 end) obs.

Definition texts_yielded (obs : list Obs) : list (nat * pystr) :=
  omap (fun o => match o with
                 | OYield i (FText t) => Some (i, t)
                 | _ => None
                 end) obs.

(** ** The discipline of a call

    What a program has to be like so that the calls running it are
    serialized, wherever it stands: outside the block, just inside it, and
    inside it with its query sent. *)

Definition keeps_lock (f : Session -> Session) : Prop :=
  forall s, _query_lock (f s) = _query_lock (s).

(** [calm c]: [c] is outside the block; it sends no query and does not touch
    the gate but by waiting for it, and its points have no block around
    them.
    [entering c s w]: [c] has just taken the gate, in the session [s] and the
    world [w]; before it stops it sends its query, or releases the gate.
    [inside c texts]: [c] is inside the block, its query sent; it yields
    [texts], one by one, and then releases the gate; its points have the
    block around them. *)
Fixpoint calm {A} (c : Coro A) {struct c} : Prop :=
  match c with
  | Ret _ | Throw _ => True
  | Read k => forall s w, calm (k s w)
  | Update f k => keeps_lock f /\ calm k
  | Emit e k => is_query e = false /\ calm k
  | SetFiles _ k => calm k
  | Release _ => False
  | Suspend PAcquire k blocks => (forall s w, entering k s w) /\ blocks = 0%nat
  | Suspend _ k blocks => calm k /\ blocks = 0%nat
  end
with entering {A} (c : Coro A) (s : Session) (w : World) {struct c} : Prop :=
  match c with
  | Read k => entering (k s w) s w
  | Update f k => keeps_lock f /\ entering k (f s) w
  | Emit e k =>
    match e with
    | EvQuery message => inside k (surfaced (reply E (history w) message))
    | _ => entering k s {| files := files w; history := history w ++ [e] |}
    end
  | SetFiles fs k => entering k s {| files := fs; history := history w |}
  | Release k => calm k
  | _ => False
  end
with inside {A} (c : Coro A) (texts : list pystr) {struct c} : Prop :=
  match c with
  | Read k => forall s w, inside (k s w) texts
  | Update f k => keeps_lock f /\ inside k texts
  | Emit e k => is_query e = false /\ inside k texts
  | SetFiles _ k => inside k texts
  | Release k => texts = [] /\ calm k
  | Suspend (PYield f) k blocks =>
    match f, texts with
    | FText t, t' :: rest => t = t' /\ inside k rest /\ blocks = 1%nat
    | _, _ => False
    end
  | Suspend PAwait k blocks => inside k texts /\ blocks = 1%nat
  | _ => False
  end.

(** A call suspended inside the block with [texts] still to yield. *)
Definition held {A} (c : Coro A) (texts : list pystr) : Prop :=
  match c with
  | Suspend (PYield _) k blocks | Suspend PAwait k blocks =>
    inside k texts /\ blocks = 1%nat
  | _ => False
  end.

(** The body of an [async with] block before it is wrapped: it yields
    [texts] and returns, or raises when it may, and does not touch the
    gate. *)
Fixpoint streams {A} (c : Coro A) (may_raise : bool) (texts : list pystr)
    {struct c} : Prop :=
  match c with
  | Ret _ => texts = []
  | Throw _ => may_raise = true /\ texts = []
  | Read k => forall s w, streams (k s w) may_raise texts
  | Update f k => keeps_lock f /\ streams k may_raise texts
  | Emit e k => is_query e = false /\ streams k may_raise texts
  | SetFiles _ k => streams k may_raise texts
  | Release _ => False
  | Suspend (PYield f) k blocks =>
    match f, texts with
    | FText t, t' :: rest => t = t' /\ streams k may_raise rest /\ blocks = 0%nat
    | _, _ => False
    end
  | Suspend PAwait k blocks => streams k may_raise texts /\ blocks = 0%nat
  | _ => False
  end.

(** The body of the block from its beginning, in the session [s] and the
    world [w]: it returns at once or sends one query and streams its
    answer. *)
Fixpoint queries {A} (c : Coro A) (s : Session) (w : World) {struct c} : Prop :=
  match c with
  | Ret _ | Throw _ => True
  | Read k => queries (k s w) s w
  | Update f k => keeps_lock f /\ queries k (f s) w
  | Emit e k =>
    match e with
    | EvQuery message => streams k true (surfaced (reply E (history w) message))
    | _ => queries k s {| files := files w; history := history w ++ [e] |}
    end
  | SetFiles fs k => queries k s {| files := fs; history := history w |}
  | _ => False
  end.

(** The invariant of the runs: the observations are in order; the gate is
    held exactly when they end with a call inside the block; that call is
    suspended inside with the awaited texts to yield, and every other call
    is outside. *)
Definition gate_inv (h : list Event) (st : State) (fl : Flight) : Prop :=
  check false (takeoff h) (log st) = Some fl /\
  past fl = history (outside st) /\
  excused fl = false /\
  _query_lock (self st) = bool_decide (is_Some (holder fl)) /\
  forall i c, tasks st !! i = Some c ->
    if bool_decide (holder fl = Some i) then held c (awaited fl) else calm c.

End Runs.

End Gate.

(** ** Example runs *)

Module Runs.

(** An answer in two parts. *)
Definition long_reply : Reply :=
  {| query_raises := None;
     stream :=
       [{| msg_type := "AssistantMessage";
           msg_content :=
             Some [{| block_type := "TextBlock";
                      text := Some (lit "Three sessions crashed.") |}] |};
        {| msg_type := "AssistantMessage";
           msg_content :=
             Some [{| block_type := "TextBlock";
                      text := Some (lit "Allow the npm command.") |}] |}];
     stream_raises := None |}.

Definition talkative : Env :=
  Examples.machine [Examples.session_row] [] ConnectOk long_reply.

Definition QUESTION : pystr := lit "What should I fix first?".

(** [start] and a follow-up are called on a fresh session. *)
Definition called : Gate.State :=
  {| Gate.self := Examples.fresh; Gate.outside := Examples.quiet;
     Gate.tasks := [Gate.made (Gate.start talkative);
                    Gate.made (Gate.send_message talkative QUESTION)];
     Gate.log := [] |}.

(** [start] is iterated until it has yielded the first part of the answer;
    the follow-up is then made and waits for the gate. *)
Definition first_part : list Gate.Move :=
  [Gate.Resume 0; Gate.Resume 0; Gate.Resume 0; Gate.Resume 0; Gate.Resume 0;
   Gate.Resume 0; Gate.Resume 1].

(** The consumer of [start] goes on to the end, and the follow-up gets its
    turn. *)
Definition patient : list Gate.Move :=
  first_part ++
  [Gate.Resume 0; Gate.Resume 0; Gate.Resume 0; Gate.Resume 0; Gate.Resume 1].

(** The consumer of [start] gives up after the first part, and the
    follow-up gets its turn. *)
Definition impatient : list Gate.Move :=
  first_part ++ [Gate.Abandon 0; Gate.Resume 1].

End Runs.

(** * Properties *)

Arguments lit : simpl never.
Arguments _gather_log_context : simpl never.
Arguments _read_project_config : simpl never.
Arguments _build_system_prompt : simpl never.
Arguments client_options : simpl never.
Arguments str_in : simpl never.
Arguments _query_claude : simpl never.
Arguments async_with_query_lock : simpl never.

(** ** Strings and slices *)

Lemma slice_to_take {A} (k : Z) (xs : list A) :
  0 <= k -> slice_to k xs = take (Z.to_nat k) xs.
Proof.
  intros Hk. unfold slice_to.
  destruct (Z.ltb_spec k 0) as [Hneg | _]; [lia | reflexivity].
Qed.

Lemma slice_to_length {A} (k : Z) (xs : list A) :
  0 <= k -> k <= Z.of_nat (length xs) ->
  Z.of_nat (length (slice_to k xs)) = k.
Proof.
  intros Hk Hlen. rewrite slice_to_take by assumption.
  rewrite length_take. lia.
Qed.

Lemma slice_to_short {A} (k : Z) (xs : list A) :
  Z.of_nat (length xs) <= k -> slice_to k xs = xs.
Proof.
  intros Hlen. rewrite slice_to_take by lia.
  apply take_ge. lia.
Qed.

Lemma starts_with_app (needle rest : pystr) :
  starts_with needle (needle ++ rest) = true.
Proof.
  induction needle as [| a needle IH]; simpl; [reflexivity |].
  rewrite N.eqb_refl. exact IH.
Qed.

(** The substring test finds a needle wherever it occurs. *)
Lemma str_in_infix (needle pre post : pystr) :
  str_in needle (pre ++ needle ++ post) = true.
Proof.
  induction pre as [| a pre IH].
  - simpl app. destruct (needle ++ post) eqn:Hnp; unfold str_in; fold str_in;
      rewrite <- ?Hnp, starts_with_app; reflexivity.
  - simpl app. unfold str_in; fold str_in. rewrite IH. apply orb_true_r.
Qed.

Lemma starts_with_prefix (needle hay : pystr) :
  starts_with needle hay = true -> exists post, hay = needle ++ post.
Proof.
  revert hay. induction needle as [| a needle IH]; intros hay H.
  - exists hay. reflexivity.
  - destruct hay as [| b hay]; simpl in H; [discriminate |].
    apply andb_true_iff in H as [Hab Hrest].
    apply N.eqb_eq in Hab. subst b.
    destruct (IH _ Hrest) as [post ->]. exists post. reflexivity.
Qed.

Lemma str_in_occurs (needle hay : pystr) :
  str_in needle hay = true -> exists pre post, hay = pre ++ needle ++ post.
Proof.
  induction hay as [| b hay IH]; unfold str_in; fold str_in; intros H.
  - rewrite orb_false_r in H. apply starts_with_prefix in H as [post Hp].
    exists [], post. exact Hp.
  - apply orb_true_iff in H as [H | H].
    + apply starts_with_prefix in H as [post Hp]. exists [], post. exact Hp.
    + destruct (IH H) as (pre & post & ->). exists (b :: pre), post. reflexivity.
Qed.

(** ** Session updates *)

Lemma with_messages_id (s : Session) : with_messages (messages s) s = s.
Proof. destruct s; reflexivity. Qed.

Lemma with_messages_twice (m1 m2 : list Message) (s : Session) :
  with_messages m2 (with_messages m1 s) = with_messages m2 s.
Proof. reflexivity. Qed.

Lemma unlock_lock (s : Session) (ms : list Message) :
  _query_lock s = false ->
  with_query_lock false (with_messages ms (with_query_lock true s)) =
  with_messages ms s.
Proof. destruct s; simpl; intros ->; reflexivity. Qed.

(** ** [_query_claude] *)

Section QueryClaude.
Context (E : Env).

(** The loop over the texts of one message yields each text and appends
    one assistant turn for each. *)
Lemma texts_loop (texts : list pystr) (s : Session) (w : World) :
  exists entries,
    gen_for (surface_text E) texts s w =
      (map FText texts, with_messages (messages s ++ entries) s, w, Done tt) /\
    map content entries = texts /\
    Forall is_assistant entries.
Proof.
  set (body := surface_text E).
  revert s. induction texts as [| t texts IH]; intros s.
  - exists []. rewrite app_nil_r, with_messages_id. repeat split. constructor.
  - pose (entry := {| role := Assistant; content := t;
                      timestamp := now_iso E (history w) (length (messages s)) |}).
    destruct (IH (with_messages (messages s ++ [entry]) s))
      as (entries & Hrun & Hcontent & Hroles).
    exists (entry :: entries). split; [| split].
    + change (gen_for body (t :: texts) s w)
        with (match body t s w with
              | (out, s', w', Done a) =>
                match gen_for body texts s' w' with
                | (out', s'', w'', r) => (out ++ out', s'', w'', r)
                end
              | (out, s', w', Raised e) => (out, s', w', Raised e)
              | (out, s', w', Waiting) => (out, s', w', Waiting)
              end).
      change (body t s w)
        with ([FText t], with_messages (messages s ++ [entry]) s, w, Done tt).
      cbv beta iota. rewrite Hrun. simpl.
      rewrite <- app_assoc. reflexivity.
    + simpl. rewrite Hcontent. reflexivity.
    + constructor; [reflexivity | exact Hroles].
Qed.

(** The loop over the stream does so for every message in turn. *)
Lemma stream_loop (msgs : list SDKMessage) (s : Session) (w : World) :
  exists entries,
    gen_for (surface_message E) msgs s w =
      (map FText (concat (map surfaced_texts msgs)),
       with_messages (messages s ++ entries) s, w, Done tt) /\
    map content entries = concat (map surfaced_texts msgs) /\
    Forall is_assistant entries.
Proof.
  set (body := surface_message E).
  revert s. induction msgs as [| msg msgs IH]; intros s.
  - exists []. rewrite app_nil_r, with_messages_id. repeat split. constructor.
  - destruct (texts_loop (surfaced_texts msg) s w) as (e1 & Hrun1 & Hc1 & Hr1).
    destruct (IH (with_messages (messages s ++ e1) s)) as (e2 & Hrun2 & Hc2 & Hr2).
    exists (e1 ++ e2). split; [| split].
    + change (gen_for body (msg :: msgs) s w)
        with (match body msg s w with
              | (out, s', w', Done a) =>
                match gen_for body msgs s' w' with
                | (out', s'', w'', r) => (out ++ out', s'', w'', r)
                end
              | (out, s', w', Raised e) => (out, s', w', Raised e)
              | (out, s', w', Waiting) => (out, s', w', Waiting)
              end).
      unfold body at 1, surface_message. rewrite Hrun1. cbv beta iota. rewrite Hrun2.
      simpl. rewrite map_app, app_assoc. reflexivity.
    + simpl. rewrite map_app, Hc1, Hc2. reflexivity.
    + apply Forall_app. split; assumption.
Qed.

Lemma query_claude_run (message : pystr) (s : Session) (w : World) (c : Client) :
  client s = Some c ->
  exists texts entries,
    _query_claude E message s w =
      (map FText texts, with_messages (messages s ++ entries) s,
       {| files := files w; history := history w ++ [EvQuery message] |},
       query_end (reply E (history w) message)) /\
    map content entries = texts /\
    Forall is_assistant entries.
Proof.
  intros Hc. unfold _query_claude, query_end.
  unfold mbind, gen_bind, get_self, get_world, event, raise, mret, gen_ret.
  rewrite Hc. cbv zeta.
  destruct (query_raises (reply E (history w) message)) as [e |].
  - exists [], []. rewrite (app_nil_r (messages s)), with_messages_id.
    repeat split. constructor.
  - set (w1 := {| files := files w; history := history w ++ [EvQuery message] |}).
    destruct (stream_loop (stream (reply E (history w) message)) s w1)
      as (entries & Hrun & Hcontent & Hroles).
    exists (concat (map surfaced_texts (stream (reply E (history w) message)))), entries.
    split; [| split; assumption].
    simpl. fold w1. rewrite Hrun.
    destruct (stream_raises (reply E (history w) message));
      simpl; rewrite ?app_nil_r; reflexivity.
Qed.

(** A query behind the gate, when the gate is free: the gate is taken for
    the query and free again afterwards. *)
Lemma gated_query_run (message : pystr) (s : Session) (w : World) (c : Client) :
  client s = Some c ->
  _query_lock s = false ->
  exists texts entries,
    async_with_query_lock (_query_claude E message) s w =
      (map FText texts, with_messages (messages s ++ entries) s,
       {| files := files w; history := history w ++ [EvQuery message] |},
       query_end (reply E (history w) message)) /\
    map content entries = texts /\
    Forall is_assistant entries.
Proof.
  intros Hc Hfree.
  destruct (query_claude_run message (with_query_lock true s) w c Hc)
    as (texts & entries & Hrun & Hcontent & Hroles).
  exists texts, entries. split; [| split; assumption].
  unfold async_with_query_lock. rewrite Hfree.
  unfold try_finally, mbind, gen_bind, update. rewrite Hrun.
  clear Hrun. unfold query_end.
  destruct (query_raises (reply E (history w) message));
    [| destruct (stream_raises (reply E (history w) message))];
    simpl; rewrite ?app_nil_r; destruct s; simpl in *; subst; reflexivity.
Qed.

(** While the gate is held the call stays suspended at it. *)
Lemma gated_query_waits {A} (body : Gen A) (s : Session) (w : World) :
  _query_lock s = true ->
  async_with_query_lock body s w = ([], s, w, Waiting).
Proof. intros Hheld. unfold async_with_query_lock. rewrite Hheld. reflexivity. Qed.

Lemma send_message_run (user_message : pystr) (s : Session) (w : World) (c : Client) :
  client s = Some c ->
  _query_lock s = false ->
  let turn := {| role := User; content := user_message;
                 timestamp := now_iso E (history w) (length (messages s)) |} in
  let ending := query_end (reply E (history w) user_message) in
  exists texts entries,
    send_message E user_message s w =
      (map FText texts ++ [follow_up_closing ending],
       with_messages (messages s ++ turn :: entries) s,
       {| files := files w;
          history := history w ++ EvQuery user_message ::
                     match ending with
                     | Done _ => []
                     | _ => [EvLog "Error during log review follow-up"]
                     end |},
       Done tt) /\
    map content entries = texts /\
    Forall is_assistant entries.
Proof.
  intros Hc Hfree turn ending.
  destruct (gated_query_run user_message (with_messages (messages s ++ [turn]) s)
              w c Hc Hfree) as (texts & entries & Hrun & Hcontent & Hroles).
  exists texts, entries. split; [| split; assumption].
  unfold send_message, try_except, append_message.
  unfold mbind, gen_bind, get_self, get_world, update, yield, event.
  rewrite Hc. simpl. fold turn. rewrite Hrun. fold ending.
  simpl messages. rewrite <- app_assoc. simpl app.
  unfold ending, query_end.
  destruct (query_raises (reply E (history w) user_message));
    [| destruct (stream_raises (reply E (history w) user_message))];
    simpl; rewrite ?app_nil_r, <- ?app_assoc; reflexivity.
Qed.

Lemma send_message_waits (user_message : pystr) (s : Session) (w : World) (c : Client) :
  client s = Some c ->
  _query_lock s = true ->
  send_message E user_message s w =
    ([],
     with_messages
       (messages s ++
        [{| role := User; content := user_message;
            timestamp := now_iso E (history w) (length (messages s)) |}]) s,
     w, Waiting).
Proof.
  intros Hc Hheld.
  unfold send_message, try_except, append_message.
  unfold mbind, gen_bind, get_self, get_world, update, yield, event.
  rewrite Hc. simpl. rewrite gated_query_waits by exact Hheld. reflexivity.
Qed.

Lemma send_message_no_client (user_message : pystr) (s : Session) (w : World) :
  client s = None ->
  send_message E user_message s w =
    ([FError (lit "Session not initialized. Call start() first.")], s, w, Done tt).
Proof.
  intros Hc. unfold send_message, mbind, gen_bind, get_self. rewrite Hc.
  reflexivity.
Qed.

End QueryClaude.

(** ** The branches of [start] *)

Section StartBranches.
Context (E : Env) (s : Session) (w : World).

Lemma start_no_cli :
  match which_claude E with Some (_ :: _) => False | _ => True end ->
  start E s w =
    ([FError (lit "Claude CLI not found. Please install it: npm install -g @anthropic-ai/claude-code")],
     s, w, Done tt).
Proof.
  intros H. unfold start.
  destruct (which_claude E) as [[| c rest] |]; [reflexivity | contradiction | reflexivity].
Qed.

Lemma start_gather_raises c rest e :
  which_claude E = Some (c :: rest) ->
  _gather_log_context E (project_name s) (project_dir s) = Raise e ->
  start E s w = ([PROGRESS_NOTICE], s, w, Raised e).
Proof.
  intros Hcli Hctx. unfold start. rewrite Hcli.
  unfold mbind, gen_bind, yield, get_self. simpl. rewrite Hctx. reflexivity.
Qed.

Lemma start_marker_found c rest ctx :
  which_claude E = Some (c :: rest) ->
  _gather_log_context E (project_name s) (project_dir s) = Ok ctx ->
  str_in NO_SESSIONS_MARKER ctx = true ->
  start E s w =
    ([PROGRESS_NOTICE; NO_SESSIONS_NOTICE; FAnalysisComplete],
     with_complete true s, w, Done tt).
Proof.
  intros Hcli Hctx Hin. unfold start. rewrite Hcli.
  unfold mbind, gen_bind, yield, get_self. simpl. rewrite Hctx. simpl.
  rewrite Hin. reflexivity.
Qed.

(** The path of the settings file [start] writes, and the options it gives
    the client. *)
Let settings_file : path :=
  get_expand_settings_path E (project_dir s) (uuid4_hex E (history w)).

Let options_for (cli ctx cfg : pystr) : ClaudeAgentOptions :=
  client_options E cli (_build_system_prompt (project_name s) ctx cfg)
                 (project_dir s) settings_file.

Let files_written : Files :=
  <[settings_file := Some (json_dump E security_settings)]> (files w).

Lemma start_config_raises c rest ctx e :
  which_claude E = Some (c :: rest) ->
  _gather_log_context E (project_name s) (project_dir s) = Ok ctx ->
  str_in NO_SESSIONS_MARKER ctx = false ->
  _read_project_config E (project_dir s) (files w) = Raise e ->
  start E s w = ([PROGRESS_NOTICE], s, w, Raised e).
Proof.
  intros Hcli Hctx Hin Hcfg. unfold start. rewrite Hcli.
  unfold mbind, gen_bind, yield, get_self, get_world. simpl.
  rewrite Hctx. simpl. rewrite Hin, Hcfg. reflexivity.
Qed.

Lemma start_constructor_raises c rest ctx cfg e :
  which_claude E = Some (c :: rest) ->
  _gather_log_context E (project_name s) (project_dir s) = Ok ctx ->
  str_in NO_SESSIONS_MARKER ctx = false ->
  _read_project_config E (project_dir s) (files w) = Ok cfg ->
  connect E (history w ++ [EvWrite settings_file]) = ConstructorRaises e ->
  start E s w =
    ([PROGRESS_NOTICE; FError (lit "Failed to initialize Claude for log analysis")],
     with_settings_file (Some settings_file) s,
     {| files := files_written;
        history := history w ++
          [EvWrite settings_file;
           EvClientNew (options_for (c :: rest) ctx cfg);
           EvLog "Failed to create Claude client for log review"] |},
     Done tt).
Proof.
  intros Hcli Hctx Hin Hcfg Hconn. unfold start. rewrite Hcli.
  unfold try_except, open_client, write_settings.
  unfold mbind, gen_bind, yield, get_self, get_world, event, update, set_files,
    raise, mret, gen_ret.
  simpl. rewrite Hctx. simpl. rewrite Hin, Hcfg. simpl.
  fold settings_file. rewrite Hconn. simpl.
  rewrite <- !app_assoc. reflexivity.
Qed.

Lemma start_enter_raises c rest ctx cfg e :
  which_claude E = Some (c :: rest) ->
  _gather_log_context E (project_name s) (project_dir s) = Ok ctx ->
  str_in NO_SESSIONS_MARKER ctx = false ->
  _read_project_config E (project_dir s) (files w) = Ok cfg ->
  connect E (history w ++ [EvWrite settings_file]) = EnterRaises e ->
  start E s w =
    ([PROGRESS_NOTICE; FError (lit "Failed to initialize Claude for log analysis")],
     with_client (Some (ClaudeSDKClient (options_for (c :: rest) ctx cfg)))
       (with_settings_file (Some settings_file) s),
     {| files := files_written;
        history := history w ++
          [EvWrite settings_file;
           EvClientNew (options_for (c :: rest) ctx cfg);
           EvClientEnter;
           EvLog "Failed to create Claude client for log review"] |},
     Done tt).
Proof.
  intros Hcli Hctx Hin Hcfg Hconn. unfold start. rewrite Hcli.
  unfold try_except, open_client, write_settings.
  unfold mbind, gen_bind, yield, get_self, get_world, event, update, set_files,
    raise, mret, gen_ret.
  simpl. rewrite Hctx. simpl. rewrite Hin, Hcfg. simpl.
  fold settings_file. rewrite Hconn. simpl.
  rewrite <- !app_assoc. reflexivity.
Qed.

Lemma start_connected c rest ctx cfg :
  which_claude E = Some (c :: rest) ->
  _gather_log_context E (project_name s) (project_dir s) = Ok ctx ->
  str_in NO_SESSIONS_MARKER ctx = false ->
  _read_project_config E (project_dir s) (files w) = Ok cfg ->
  connect E (history w ++ [EvWrite settings_file]) = ConnectOk ->
  _query_lock s = false ->
  let options := options_for (c :: rest) ctx cfg in
  let entered :=
    history w ++ [EvWrite settings_file; EvClientNew options; EvClientEnter] in
  let ending := query_end (reply E entered ANALYSIS_REQUEST) in
  exists texts entries,
    start E s w =
      (PROGRESS_NOTICE :: map FText texts ++ analysis_closing ending,
       match ending with
       | Done _ => with_complete true
       | _ => fun s' => s'
       end (with_messages (messages s ++ entries)
              (with_client_entered true
                 (with_client (Some (ClaudeSDKClient options))
                    (with_settings_file (Some settings_file) s)))),
       {| files := files_written;
          history := entered ++ EvQuery ANALYSIS_REQUEST ::
                     match ending with
                     | Done _ => []
                     | _ => [EvLog "Failed to start log review analysis"]
                     end |},
       Done tt) /\
    map content entries = texts /\
    Forall is_assistant entries.
Proof.
  intros Hcli Hctx Hin Hcfg Hconn Hfree options entered ending.
  set (s1 := with_client_entered true
               (with_client (Some (ClaudeSDKClient options))
                  (with_settings_file (Some settings_file) s))).
  set (w1 := {| files := files_written; history := entered |}).
  assert (Hc1 : client s1 = Some (ClaudeSDKClient options)) by reflexivity.
  assert (Hfree1 : _query_lock s1 = false) by exact Hfree.
  destruct (gated_query_run E ANALYSIS_REQUEST s1 w1 _ Hc1 Hfree1)
    as (texts & entries & Hrun & Hcontent & Hroles).
  exists texts, entries. split; [| split; assumption].
  unfold start. rewrite Hcli.
  unfold try_except, open_client, write_settings.
  unfold mbind, gen_bind, yield, get_self, get_world, event, update, set_files,
    raise, mret, gen_ret.
  simpl. rewrite Hctx. simpl. rewrite Hin, Hcfg. simpl.
  fold settings_file. rewrite Hconn. simpl.
  rewrite <- !app_assoc. simpl app.
  fold files_written. fold (options_for (c :: rest) ctx cfg). fold options.
  fold entered. fold w1. fold s1.
  rewrite Hrun. simpl history. fold ending.
  unfold ending, query_end, analysis_closing.
  destruct (query_raises (reply E entered ANALYSIS_REQUEST));
    [| destruct (stream_raises (reply E entered ANALYSIS_REQUEST))];
    simpl; rewrite ?app_nil_r, <- ?app_assoc; reflexivity.
Qed.

End StartBranches.


(** ** Projects without recorded sessions *)

Lemma gather_no_sessions (E : Env) (name : pystr) (dir : path) :
  get_sessions E dir name 10 = Ok [] ->
  _gather_log_context E name dir = Ok NO_SESSIONS_CONTEXT.
Proof.
  intros Hnone. unfold _gather_log_context. rewrite Hnone. reflexivity.
Qed.

Lemma no_sessions_context_marked :
  str_in NO_SESSIONS_MARKER NO_SESSIONS_CONTEXT = true.
Proof. apply (str_in_infix NO_SESSIONS_MARKER []). Qed.

Lemma start_no_sessions (E : Env) (s : Session) (w : World) c rest :
  which_claude E = Some (c :: rest) ->
  get_sessions E (project_dir s) (project_name s) 10 = Ok [] ->
  start E s w =
    ([PROGRESS_NOTICE; NO_SESSIONS_NOTICE; FAnalysisComplete],
     with_complete true s, w, Done tt).
Proof.
  intros Hcli Hnone.
  apply (start_marker_found E s w c rest NO_SESSIONS_CONTEXT Hcli).
  - apply gather_no_sessions, Hnone.
  - apply no_sessions_context_marked.
Qed.

(** C1 (the stream of [start] for a project without recorded sessions): with
    the CLI installed and no session recorded, the generator finishes
    normally and the last fragment it yields is [analysis_complete], which is
    neither an [error] nor the [response_done] that ends every other stream
    without an error. *)
Theorem start_no_sessions_last_fragment (E : Env) (s : Session) (w : World) c rest :
  which_claude E = Some (c :: rest) ->
  get_sessions E (project_dir s) (project_name s) 10 = Ok [] ->
  exists out s' w',
    start E s w = (out, s', w', Done tt) /\
    last out = Some FAnalysisComplete /\
    last out <> Some FResponseDone /\
    (forall f, last out = Some f -> is_error f = false).
Proof.
  intros Hcli Hnone.
  exists [PROGRESS_NOTICE; NO_SESSIONS_NOTICE; FAnalysisComplete],
         (with_complete true s), w.
  split; [apply (start_no_sessions E s w c rest Hcli Hnone) |].
  split; [reflexivity |]. split; [discriminate |].
  intros f Hf. simpl in Hf. injection Hf as <-. reflexivity.
Qed.

Lemma start_no_sessions_last_fragment_witness :
  exists out s' w',
    start Examples.unused Examples.fresh Examples.quiet = (out, s', w', Done tt) /\
    last out = Some FAnalysisComplete /\
    last out <> Some FResponseDone /\
    (forall f, last out = Some f -> is_error f = false).
Proof.
  apply (start_no_sessions_last_fragment Examples.unused Examples.fresh
           Examples.quiet 47%N (lit "usr/local/bin/claude")); reflexivity.
Defined.

(** Every stream of [start] that ends normally from a free gate ends with an
    [error] fragment, with [response_done], or, in the branch that finds the
    marker and touches nothing outside the session, with
    [analysis_complete]. *)
Lemma start_last_fragment (E : Env) (s : Session) (w : World) out s' w' :
  _query_lock s = false ->
  start E s w = (out, s', w', Done tt) ->
  exists f,
    last out = Some f /\
    (is_error f = true \/ f = FResponseDone \/
     (f = FAnalysisComplete /\ w' = w /\ client s' = client s)).
Proof.
  intros Hfree Hrun.
  destruct (which_claude E) as [[| c rest] |] eqn:Hcli;
    try (rewrite start_no_cli in Hrun by (rewrite Hcli; exact I);
         injection Hrun as <- <- <-; eexists; split; [reflexivity | left; reflexivity]).
  destruct (_gather_log_context E (project_name s) (project_dir s)) as [ctx | e] eqn:Hctx;
    [| rewrite (start_gather_raises E s w c rest e Hcli Hctx) in Hrun; discriminate].
  destruct (str_in NO_SESSIONS_MARKER ctx) eqn:Hin.
  { rewrite (start_marker_found E s w c rest ctx Hcli Hctx Hin) in Hrun.
    injection Hrun as <- <- <-. eexists. split; [reflexivity |].
    right. right. repeat split. }
  destruct (_read_project_config E (project_dir s) (files w)) as [cfg | e] eqn:Hcfg;
    [| rewrite (start_config_raises E s w c rest ctx e Hcli Hctx Hin Hcfg) in Hrun;
       discriminate].
  destruct (connect E (history w ++
              [EvWrite (get_expand_settings_path E (project_dir s)
                          (uuid4_hex E (history w)))])) as [| e | e] eqn:Hconn.
  - destruct (start_connected E s w c rest ctx cfg Hcli Hctx Hin Hcfg Hconn Hfree)
      as (texts & entries & Hrun' & _).
    rewrite Hrun' in Hrun. injection Hrun as <- _ _.
    rewrite app_comm_cons. unfold analysis_closing.
    match goal with |- context [query_end ?r] => destruct (query_end r) end.
    + exists FResponseDone.
      split; [| right; left; reflexivity].
      change [FAnalysisComplete; FResponseDone]
        with ([FAnalysisComplete] ++ [FResponseDone]).
      rewrite app_assoc. apply last_snoc.
    + eexists. split; [apply last_snoc | left; reflexivity].
    + eexists. split; [apply last_snoc | left; reflexivity].
  - rewrite (start_constructor_raises E s w c rest ctx cfg e Hcli Hctx Hin Hcfg Hconn)
      in Hrun.
    injection Hrun as <- _ _. eexists. split; [reflexivity | left; reflexivity].
  - rewrite (start_enter_raises E s w c rest ctx cfg e Hcli Hctx Hin Hcfg Hconn)
      in Hrun.
    injection Hrun as <- _ _. eexists. split; [reflexivity | left; reflexivity].
Qed.

(** Every stream of [send_message] that ends normally ends with an [error]
    fragment or with [response_done]. *)
Lemma send_message_last_fragment (E : Env) (user_message : pystr)
    (s : Session) (w : World) out s' w' :
  send_message E user_message s w = (out, s', w', Done tt) ->
  exists f, last out = Some f /\ (is_error f = true \/ f = FResponseDone).
Proof.
  intros Hrun. destruct (client s) as [c |] eqn:Hc.
  - destruct (_query_lock s) eqn:Hlock.
    + rewrite (send_message_waits E user_message s w c Hc Hlock) in Hrun.
      discriminate.
    + destruct (send_message_run E user_message s w c Hc Hlock)
        as (texts & entries & Hrun' & _).
      rewrite Hrun' in Hrun. injection Hrun as <- _ _.
      eexists. split; [apply last_snoc |].
      unfold follow_up_closing.
      match goal with |- context [query_end ?r] => destruct (query_end r) end;
        [right | left | left]; reflexivity.
  - rewrite (send_message_no_client E user_message s w Hc) in Hrun.
    injection Hrun as <- _ _. eexists. split; [reflexivity | left; reflexivity].
Qed.

(** C2, as the code has it: with the CLI installed and no session recorded,
    [start] yields the progress notice, then one [text] fragment with the
    no-sessions notice, then [analysis_complete], and finishes; the session
    is marked complete and is otherwise as before (no client), and the world
    is untouched: no client is constructed or entered, no query is sent and
    no file is written. *)
Theorem start_no_sessions_stream (E : Env) (s : Session) (w : World) c rest :
  which_claude E = Some (c :: rest) ->
  get_sessions E (project_dir s) (project_name s) 10 = Ok [] ->
  exists s' w',
    start E s w =
      ([PROGRESS_NOTICE; NO_SESSIONS_NOTICE; FAnalysisComplete], s', w', Done tt) /\
    complete s' = true /\
    client s' = client s /\
    _settings_file s' = _settings_file s /\
    history w' = history w /\
    files w' = files w.
Proof.
  intros Hcli Hnone. exists (with_complete true s), w.
  split; [apply (start_no_sessions E s w c rest Hcli Hnone) |].
  repeat split.
Qed.

Lemma start_no_sessions_stream_witness :
  exists s' w',
    start Examples.unused Examples.fresh Examples.quiet =
      ([PROGRESS_NOTICE; NO_SESSIONS_NOTICE; FAnalysisComplete], s', w', Done tt) /\
    complete s' = true /\
    client s' = client Examples.fresh /\
    _settings_file s' = _settings_file Examples.fresh /\
    history w' = history Examples.quiet /\
    files w' = files Examples.quiet.
Proof.
  apply (start_no_sessions_stream Examples.unused Examples.fresh Examples.quiet
           47%N (lit "usr/local/bin/claude")); reflexivity.
Defined.

(** C2 as stated fails: for a project without recorded sessions the stream
    of [start] is not one [text] fragment followed by [analysis_complete]; it
    holds two [text] fragments. *)
Lemma start_no_sessions_not_one_text :
  get_sessions Examples.unused (project_dir Examples.fresh)
    (project_name Examples.fresh) 10 = Ok [] /\
  ~ (exists notice s' w' r,
       start Examples.unused Examples.fresh Examples.quiet =
         ([FText notice; FAnalysisComplete], s', w', r)).
Proof.
  split; [reflexivity |].
  intros (notice & s' & w' & r & Hrun).
  rewrite (start_no_sessions Examples.unused Examples.fresh Examples.quiet
             47%N (lit "usr/local/bin/claude") eq_refl eq_refl) in Hrun.
  discriminate Hrun.
Qed.

(** C3 (a follow-up after the no-sessions branch): a fresh session started
    on a project without recorded sessions yields [analysis_complete] and is
    marked complete, and the [send_message] that follows is rejected with the
    not-initialized [error] fragment, without any query. *)
Theorem follow_up_after_no_sessions (E : Env) (s : Session) (w : World) c rest
    (user_message : pystr) :
  which_claude E = Some (c :: rest) ->
  get_sessions E (project_dir s) (project_name s) 10 = Ok [] ->
  client s = None ->
  exists out s' w',
    start E s w = (out, s', w', Done tt) /\
    In FAnalysisComplete out /\
    is_complete s' = true /\
    send_message E user_message s' w' =
      ([FError (lit "Session not initialized. Call start() first.")], s', w', Done tt).
Proof.
  intros Hcli Hnone Hclient.
  exists [PROGRESS_NOTICE; NO_SESSIONS_NOTICE; FAnalysisComplete],
         (with_complete true s), w.
  split; [apply (start_no_sessions E s w c rest Hcli Hnone) |].
  split; [simpl; tauto |]. split; [reflexivity |].
  apply send_message_no_client. exact Hclient.
Qed.

Lemma follow_up_after_no_sessions_witness :
  exists out s' w',
    start Examples.unused Examples.fresh Examples.quiet = (out, s', w', Done tt) /\
    In FAnalysisComplete out /\
    is_complete s' = true /\
    send_message Examples.unused (lit "What should I fix first?") s' w' =
      ([FError (lit "Session not initialized. Call start() first.")], s', w', Done tt).
Proof.
  apply (follow_up_after_no_sessions Examples.unused Examples.fresh Examples.quiet
           47%N (lit "usr/local/bin/claude")); reflexivity.
Defined.

(** ** Failure to open the connection *)

Lemma close_removes_settings (E : Env) (s : Session) (w : World) (p : path) :
  _client_entered s = false ->
  _settings_file s = Some p ->
  stat_raises E p = false ->
  unlink_raises E p = false ->
  is_Some (files w !! p) ->
  close E s w =
    ([], s, {| files := delete p (files w); history := history w ++ [EvUnlink p] |},
     Done tt).
Proof.
  intros Hentered Hfile Hstat Hunlink Hthere.
  unfold close, try_except, try_finally, call, path_exists.
  unfold mbind, gen_bind, get_self, get_world, event, update, set_files, raise,
    mret, gen_ret, res_ret.
  rewrite Hentered, andb_false_r. simpl. rewrite Hfile, Hstat.
  rewrite (bool_decide_eq_true_2 _ Hthere). simpl. rewrite Hunlink. reflexivity.
Qed.

(** C5, as the code has it: when the client cannot be constructed or
    entered, [start] on a session that was never entered yields the progress
    notice and one [error] fragment and finishes; the session is still not
    entered, so no connection is live, but the settings file written before
    the attempt is on disk and recorded in the session.  It is the next
    [close] that removes it, when the file system lets it. *)
Theorem start_connect_failure (E : Env) (s : Session) (w : World) c rest ctx cfg :
  let settings_file :=
    get_expand_settings_path E (project_dir s) (uuid4_hex E (history w)) in
  which_claude E = Some (c :: rest) ->
  _gather_log_context E (project_name s) (project_dir s) = Ok ctx ->
  str_in NO_SESSIONS_MARKER ctx = false ->
  _read_project_config E (project_dir s) (files w) = Ok cfg ->
  connect E (history w ++ [EvWrite settings_file]) <> ConnectOk ->
  _client_entered s = false ->
  exists s' w',
    start E s w =
      ([PROGRESS_NOTICE; FError (lit "Failed to initialize Claude for log analysis")],
       s', w', Done tt) /\
    _client_entered s' = false /\
    _settings_file s' = Some settings_file /\
    files w' !! settings_file = Some (Some (json_dump E security_settings)) /\
    (stat_raises E settings_file = false ->
     unlink_raises E settings_file = false ->
     exists w'',
       close E s' w' = ([], s', w'', Done tt) /\ files w'' !! settings_file = None).
Proof.
  intros settings_file Hcli Hctx Hin Hcfg Hconn Hentered.
  destruct (connect E (history w ++ [EvWrite settings_file])) as [| e | e] eqn:Hc;
    [contradiction | |].
  - eexists _, _. split;
      [apply (start_constructor_raises E s w c rest ctx cfg e Hcli Hctx Hin Hcfg Hc) |].
    split; [exact Hentered |]. split; [reflexivity |].
    split; [apply lookup_insert_eq |].
    intros Hstat Hunlink. eexists. split.
    + match goal with
      | |- close E ?s' ?w' = _ =>
        apply (close_removes_settings E s' w' settings_file Hentered eq_refl
                 Hstat Hunlink)
      end.
      eexists. apply lookup_insert_eq.
    + apply lookup_delete_eq.
  - eexists _, _. split;
      [apply (start_enter_raises E s w c rest ctx cfg e Hcli Hctx Hin Hcfg Hc) |].
    split; [exact Hentered |]. split; [reflexivity |].
    split; [apply lookup_insert_eq |].
    intros Hstat Hunlink. eexists. split.
    + match goal with
      | |- close E ?s' ?w' = _ =>
        apply (close_removes_settings E s' w' settings_file Hentered eq_refl
                 Hstat Hunlink)
      end.
      eexists. apply lookup_insert_eq.
    + apply lookup_delete_eq.
Qed.

Lemma start_connect_failure_witness :
  let p := Examples.demo_dir ++ [".autoforge"; ".claude_settings.expand.json"] in
  exists s' w',
    start Examples.unreachable Examples.fresh Examples.quiet =
      ([PROGRESS_NOTICE; FError (lit "Failed to initialize Claude for log analysis")],
       s', w', Done tt) /\
    _client_entered s' = false /\
    _settings_file s' = Some p /\
    files w' !! p = Some (Some (lit "{}")) /\
    (stat_raises Examples.unreachable p = false ->
     unlink_raises Examples.unreachable p = false ->
     exists w'',
       close Examples.unreachable s' w' = ([], s', w'', Done tt) /\
       files w'' !! p = None).
Proof.
  apply (start_connect_failure Examples.unreachable Examples.fresh Examples.quiet
           47%N (lit "usr/local/bin/claude")
           (lit "<sessions>" ++ nl ++
            lit "  Session #1: status=completed, yolo=False, model=unknown, concurrency=N/A, started=?" ++
            nl ++ lit "</sessions>" ++ nl ++ nl ++ lit "<errors>" ++ nl ++
            lit "No errors found in recent sessions." ++ nl ++ lit "</errors>")
           (tagged "allowed_commands_yaml"
                   (lit "No allowed_commands.yaml found (using defaults only).")));
    [reflexivity | vm_compute; reflexivity | vm_compute; reflexivity
     | vm_compute; reflexivity | discriminate | reflexivity].
Defined.

(** C5 as stated fails: after a failed attempt to construct the client the
    settings file is still on disk. *)
Lemma settings_file_survives_failure :
  exists out s' w' p,
    start Examples.unreachable Examples.fresh Examples.quiet = (out, s', w', Done tt) /\
    last out = Some (FError (lit "Failed to initialize Claude for log analysis")) /\
    _settings_file s' = Some p /\
    files w' !! p <> None.
Proof.
  eexists _, _, _, _. split; [vm_compute; reflexivity |].
  split; [reflexivity |]. split; [reflexivity |].
  vm_compute. discriminate.
Qed.

(** ** The marker in the log context *)

(** C9: with the CLI installed, whenever the assembled log context contains
    the marker, [start] takes the no-sessions branch, also when the database
    has recorded sessions: it yields the no-sessions notice and
    [analysis_complete], marks the session complete, and leaves the world
    untouched (no settings file, no client, no query). *)
Theorem marker_selects_no_sessions_branch (E : Env) (s : Session) (w : World)
    c rest (sessions : list Row) (ctx : pystr) :
  which_claude E = Some (c :: rest) ->
  get_sessions E (project_dir s) (project_name s) 10 = Ok sessions ->
  sessions <> [] ->
  _gather_log_context E (project_name s) (project_dir s) = Ok ctx ->
  str_in NO_SESSIONS_MARKER ctx = true ->
  exists s' w',
    start E s w =
      ([PROGRESS_NOTICE; NO_SESSIONS_NOTICE; FAnalysisComplete], s', w', Done tt) /\
    complete s' = true /\
    client s' = client s /\
    history w' = history w /\
    files w' = files w.
Proof.
  intros Hcli _ _ Hctx Hin. exists (with_complete true s), w.
  split; [apply (start_marker_found E s w c rest ctx Hcli Hctx Hin) |].
  repeat split.
Qed.

Lemma marker_selects_no_sessions_branch_witness :
  get_session_logs Examples.quoting Examples.demo_dir (PInt 1) (lit "error") 50 =
    Ok [Examples.marker_row] /\
  exists s' w',
    start Examples.quoting Examples.fresh Examples.quiet =
      ([PROGRESS_NOTICE; NO_SESSIONS_NOTICE; FAnalysisComplete], s', w', Done tt) /\
    complete s' = true /\
    client s' = client Examples.fresh /\
    history w' = history Examples.quiet /\
    files w' = files Examples.quiet.
Proof.
  split; [reflexivity |].
  apply (marker_selects_no_sessions_branch Examples.quoting Examples.fresh
           Examples.quiet 47%N (lit "usr/local/bin/claude") [Examples.session_row]
           (lit "<sessions>" ++ nl ++
            lit "  Session #1: status=completed, yolo=False, model=unknown, concurrency=N/A, started=?" ++
            nl ++ lit "</sessions>" ++ nl ++ nl ++ lit "<errors>" ++ nl ++
            lit "  [Session #1] [?] agent=?: Unknown tag <no_sessions> in template" ++
            nl ++ lit "</errors>"));
    [reflexivity | reflexivity | discriminate | vm_compute; reflexivity
     | vm_compute; reflexivity].
Defined.

(** ** Follow-up questions *)

Lemma filter_user_assistants (entries : list Message) :
  Forall is_assistant entries -> List.filter is_user entries = [].
Proof.
  induction 1 as [| m entries Hm _ IH]; [reflexivity |].
  simpl. unfold is_user. rewrite Hm. exact IH.
Qed.

Lemma one_more_user_turn (before entries : list Message) (turn : Message) :
  role turn = User ->
  Forall is_assistant entries ->
  length (List.filter is_user (before ++ turn :: entries)) =
  S (length (List.filter is_user before)).
Proof.
  intros Hturn Hentries.
  rewrite List.filter_app, length_app. simpl.
  unfold is_user at 2. rewrite Hturn.
  rewrite (filter_user_assistants entries Hentries). simpl. lia.
Qed.

(** C10: on a session with a client, [send_message] appends the user turn
    first; every turn appended after it is an assistant turn, so the log
    gains exactly one user turn however the query ends.  With the gate free,
    a query that raises ends the stream with the [error] fragment and a query
    that succeeds ends it with [response_done]; with the gate held, the call
    waits with the user turn already appended and no query sent. *)
Theorem send_message_keeps_user_turn (E : Env) (user_message : pystr)
    (s : Session) (w : World) (c : Client) :
  client s = Some c ->
  let turn := {| role := User; content := user_message;
                 timestamp := now_iso E (history w) (length (messages s)) |} in
  let ending := query_end (reply E (history w) user_message) in
  exists out s' w' r entries,
    send_message E user_message s w = (out, s', w', r) /\
    messages s' = messages s ++ turn :: entries /\
    Forall is_assistant entries /\
    length (List.filter is_user (messages s')) =
      S (length (List.filter is_user (messages s))) /\
    (_query_lock s = false -> ending <> Done tt ->
     r = Done tt /\
     last out = Some (FError (lit "Error while processing follow-up question"))) /\
    (_query_lock s = false -> ending = Done tt ->
     r = Done tt /\ last out = Some FResponseDone) /\
    (_query_lock s = true ->
     r = Waiting /\ out = [] /\ entries = [] /\ history w' = history w).
Proof.
  intros Hc turn ending.
  destruct (_query_lock s) eqn:Hlock.
  - eexists _, _, _, _, []. split; [apply (send_message_waits E _ s w c Hc Hlock) |].
    split; [reflexivity |]. split; [constructor |].
    split; [apply one_more_user_turn; [reflexivity | constructor] |].
    split; [discriminate |]. split; [discriminate |].
    intros _. repeat split.
  - destruct (send_message_run E user_message s w c Hc Hlock)
      as (texts & entries & Hrun & _ & Hroles).
    eexists _, _, _, _, entries. split; [exact Hrun |].
    split; [reflexivity |]. split; [exact Hroles |].
    split; [apply one_more_user_turn; [reflexivity | exact Hroles] |].
    split; [| split; [| discriminate]]; intros _ Hend; (split; [reflexivity |]);
      rewrite last_snoc; fold ending.
    + destruct ending as [[] | e |]; [contradiction | reflexivity | reflexivity].
    + rewrite Hend. reflexivity.
Qed.

Lemma send_message_keeps_user_turn_witness :
  let turn := {| role := User; content := lit "Why did session 1 fail?";
                 timestamp := lit "2025-06-01T12:00:00" |} in
  exists out s' w' r entries,
    send_message Examples.flaky (lit "Why did session 1 fail?")
      Examples.connected Examples.quiet = (out, s', w', r) /\
    messages s' = messages Examples.connected ++ turn :: entries /\
    Forall is_assistant entries /\
    length (List.filter is_user (messages s')) =
      S (length (List.filter is_user (messages Examples.connected))) /\
    (_query_lock Examples.connected = false ->
     Raised (OtherError "ProcessError") <> Done tt ->
     r = Done tt /\
     last out = Some (FError (lit "Error while processing follow-up question"))) /\
    (_query_lock Examples.connected = false ->
     Raised (OtherError "ProcessError") = Done tt ->
     r = Done tt /\ last out = Some FResponseDone) /\
    (_query_lock Examples.connected = true ->
     r = Waiting /\ out = [] /\ entries = [] /\
     history w' = history Examples.quiet).
Proof.
  exact (send_message_keeps_user_turn Examples.flaky (lit "Why did session 1 fail?")
           Examples.connected Examples.quiet _ eq_refl).
Defined.

(** ** The configuration context, file by file *)

Lemma join_cons (sep : pystr) (after : list pystr) (x : pystr) :
  join sep (x :: after) = x ++ concat (map (fun a => sep ++ a) after).
Proof.
  revert x. induction after as [| a after IH]; intros x.
  - simpl. rewrite app_nil_r. reflexivity.
  - change (join sep (x :: a :: after)) with (x ++ sep ++ join sep (a :: after)).
    rewrite (IH a). simpl. rewrite <- !app_assoc. reflexivity.
Qed.

Lemma join_around (sep : pystr) (before after : list pystr) (x : pystr) :
  join sep (before ++ x :: after) =
    concat (map (fun b => b ++ sep) before) ++ x ++
    concat (map (fun a => sep ++ a) after).
Proof.
  induction before as [| b before IH].
  - apply join_cons.
  - change (join sep ((b :: before) ++ x :: after))
      with (match before ++ x :: after with
            | [] => b
            | _ :: _ => b ++ sep ++ join sep (before ++ x :: after)
            end).
    destruct (before ++ x :: after) eqn:Hl.
    + destruct before; discriminate.
    + rewrite IH. simpl. rewrite <- !app_assoc. reflexivity.
Qed.

(** The brief carries the configuration context as it is, once, and what
    stands around it does not depend on it. *)
Lemma brief_frames_config (name log : pystr) :
  exists pre post,
    forall cfg, _build_system_prompt name log cfg = pre ++ cfg ++ post.
Proof.
  unfold _build_system_prompt.
  match goal with
  | |- context [join nl (?a1 :: ?a2 :: ?a3 :: ?a4 :: ?a5 :: ?a6 :: ?a7 :: ?a8 ::
                         ?a9 :: ?a10 :: ?a11 :: ?a12 :: _ :: ?rest)] =>
    exists (concat (map (fun b => b ++ nl)
                      [a1; a2; a3; a4; a5; a6; a7; a8; a9; a10; a11; a12])),
           (concat (map (fun a => nl ++ a) rest));
    intros cfg;
    apply (join_around nl [a1; a2; a3; a4; a5; a6; a7; a8; a9; a10; a11; a12]
                       rest cfg)
  end.
Qed.

Section ConfigContext.
Context (E : Env) (dir : path) (fs : Files).

(** What the block of [_read_project_config] for one file appends. *)
Let block (f : ConfigFile) : list pystr :=
  if bool_decide (is_Some (fs !! config_path E dir f)) then
    config_section fs (config_path E dir f) (config_tag f) (config_limit f)
  else
    match f with
    | AllowedCommands => [NO_ALLOWED_COMMANDS]
    | _ => []
    end.

Lemma read_project_config_blocks :
  (forall f, stat_raises E (config_path E dir f) = false) ->
  _read_project_config E dir fs =
    Ok (render_sections (block AllowedCommands ++ block CodingPrompt ++
                         block InitializerPrompt ++ block ClaudeMd)).
Proof.
  intros Hstat.
  pose proof (Hstat AllowedCommands) as H1. pose proof (Hstat CodingPrompt) as H2.
  pose proof (Hstat InitializerPrompt) as H3. pose proof (Hstat ClaudeMd) as H4.
  cbv beta iota delta [config_path] in H1, H2, H3, H4.
  unfold _read_project_config, path_exists. rewrite H1, H2, H3, H4.
  unfold mbind, res_bind, mret, res_ret. cbv beta iota zeta.
  unfold render_sections. rewrite <- !app_assoc. reflexivity.
Qed.

Lemma block_of_file (f : ConfigFile) :
  block f =
    match fs !! config_path E dir f with
    | Some (Some body) => [tagged (config_tag f) (slice_to (config_limit f) body)]
    | Some None => []
    | None => match f with AllowedCommands => [NO_ALLOWED_COMMANDS] | _ => [] end
    end.
Proof.
  unfold block, config_section, read_text.
  destruct (fs !! config_path E dir f) as [[body |] |].
  - rewrite bool_decide_eq_true_2 by eauto. reflexivity.
  - rewrite bool_decide_eq_true_2 by eauto. reflexivity.
  - rewrite bool_decide_eq_false_2 by (intros [x Hx]; discriminate). reflexivity.
Qed.

(** C8: when the existence tests of the four files are answered and one of
    them holds 20000 characters, the text included for it is exactly its
    first 8000 characters for [allowed_commands.yaml] and [CLAUDE.md] and its
    first 4000 characters for the two prompt files: the file contributes one
    section, that text between the file's tags, and the configuration
    context is nothing but the sections of the four files, in order, joined
    by an empty line.  The brief carries the context once, as it is, and
    nothing else of the brief depends on it. *)
Theorem config_file_truncated (f : ConfigFile) (body : pystr) :
  (forall g, stat_raises E (config_path E dir g) = false) ->
  fs !! config_path E dir f = Some (Some body) ->
  Z.of_nat (length body) = 20000 ->
  let limit := match f with
               | AllowedCommands | ClaudeMd => 8000
               | CodingPrompt | InitializerPrompt => 4000
               end in
  let included := take (Z.to_nat limit) body in
  Z.of_nat (length included) = limit /\
  file_section E dir fs f = [tagged (config_tag f) included] /\
  _read_project_config E dir fs =
    Ok (join (nl ++ nl)
          (file_section E dir fs AllowedCommands ++
           file_section E dir fs CodingPrompt ++
           file_section E dir fs InitializerPrompt ++
           file_section E dir fs ClaudeMd)) /\
  forall name log,
    exists pre post,
      forall cfg, _build_system_prompt name log cfg = pre ++ cfg ++ post.
Proof.
  intros Hstat Hfile Hlen limit included.
  assert (Hlimit : config_limit f = limit) by (destruct f; reflexivity).
  assert (Hsections : forall g, block g = file_section E dir fs g).
  { intros g. rewrite block_of_file. unfold file_section.
    destruct (fs !! config_path E dir g) as [[text |] |]; try reflexivity.
    rewrite slice_to_take; [reflexivity |].
    destruct g; unfold config_limit, CONFIG_TRUNCATION_LIMIT,
      PROMPT_TRUNCATION_LIMIT; lia. }
  assert (Hsection : file_section E dir fs f = [tagged (config_tag f) included]).
  { unfold file_section. rewrite Hfile, Hlimit. reflexivity. }
  split; [| split; [exact Hsection | split; [| apply brief_frames_config]]].
  - unfold included. rewrite length_take. destruct f; unfold limit; lia.
  - rewrite read_project_config_blocks by exact Hstat.
    rewrite !Hsections. f_equal. unfold render_sections.
    destruct (file_section E dir fs AllowedCommands ++
              file_section E dir fs CodingPrompt ++
              file_section E dir fs InitializerPrompt ++
              file_section E dir fs ClaudeMd) eqn:Hall; [| reflexivity].
    exfalso. apply app_eq_nil in Hall as [H1 Hall].
    apply app_eq_nil in Hall as [H2 Hall]. apply app_eq_nil in Hall as [H3 H4].
    destruct f; rewrite Hsection in *; discriminate.
Qed.

(** X9: when no existence test is refused, [_read_project_config] returns
    the sections of the four files in the order allowed commands, coding
    prompt, initializer prompt, agent instructions, joined by an empty line.
    A readable file gives its text up to its limit (8000 or 4000 characters)
    between its tags, whole when it is within the limit; a file whose reading
    raises gives nothing; a file that is not there gives nothing, except
    [allowed_commands.yaml], which gives a notice.  With no section at all the
    context is the sentence that no configuration file was found. *)
Theorem config_context_by_file :
  (forall f, stat_raises E (config_path E dir f) = false) ->
  exists section : ConfigFile -> list pystr,
    _read_project_config E dir fs =
      Ok (render_sections (section AllowedCommands ++ section CodingPrompt ++
                           section InitializerPrompt ++ section ClaudeMd)) /\
    forall f,
      (forall body, fs !! config_path E dir f = Some (Some body) ->
         section f =
           [tagged (config_tag f) (take (Z.to_nat (config_limit f)) body)] /\
         (Z.of_nat (length body) <= config_limit f ->
          take (Z.to_nat (config_limit f)) body = body) /\
         Z.of_nat (length (take (Z.to_nat (config_limit f)) body)) <= config_limit f) /\
      (fs !! config_path E dir f = Some None -> section f = []) /\
      (fs !! config_path E dir f = None ->
         section f = match f with
                     | AllowedCommands => [NO_ALLOWED_COMMANDS]
                     | _ => []
                     end).
Proof.
  intros Hstat. exists block. split; [apply read_project_config_blocks, Hstat |].
  intros f. rewrite block_of_file.
  assert (Hlimit : 0 <= config_limit f)
    by (destruct f; unfold config_limit, CONFIG_TRUNCATION_LIMIT,
          PROMPT_TRUNCATION_LIMIT; lia).
  split; [| split].
  - intros body Hbody. rewrite Hbody, slice_to_take by exact Hlimit.
    split; [reflexivity |]. split.
    + intros Hshort. apply take_ge. lia.
    + rewrite length_take. lia.
  - intros Hbody. rewrite Hbody. reflexivity.
  - intros Hbody. rewrite Hbody. reflexivity.
Qed.

Lemma config_context_refused :
  (exists f, stat_raises E (config_path E dir f) = true) ->
  _read_project_config E dir fs = Raise (OtherError "PermissionError").
Proof.
  intros [f Hf].
  unfold _read_project_config, path_exists.
  unfold mbind, res_bind, mret, res_ret.
  destruct (stat_raises E (config_path E dir AllowedCommands)) eqn:H1;
    cbv beta iota delta [config_path] in H1; rewrite H1; [reflexivity |].
  destruct (stat_raises E (config_path E dir CodingPrompt)) eqn:H2;
    cbv beta iota delta [config_path] in H2; cbv beta iota zeta; rewrite H2;
    [reflexivity |].
  destruct (stat_raises E (config_path E dir InitializerPrompt)) eqn:H3;
    cbv beta iota delta [config_path] in H3; cbv beta iota zeta; rewrite H3;
    [reflexivity |].
  destruct (stat_raises E (config_path E dir ClaudeMd)) eqn:H4;
    cbv beta iota delta [config_path] in H4; cbv beta iota zeta; rewrite H4;
    [reflexivity |].
  destruct f; cbv beta iota delta [config_path] in Hf; congruence.
Qed.

(** X10: [_read_project_config] raises exactly when the existence test of
    one of the four files is refused, and what it raises then is that
    refusal; a missing or unreadable file never makes it raise. *)
Theorem config_context_raises_on_refusal :
  ((exists e, _read_project_config E dir fs = Raise e) <->
   (exists f, stat_raises E (config_path E dir f) = true)) /\
  (forall e, _read_project_config E dir fs = Raise e ->
             e = OtherError "PermissionError").
Proof.
  assert (Hraise : forall e, _read_project_config E dir fs = Raise e ->
                             exists f, stat_raises E (config_path E dir f) = true).
  { intros e He.
    destruct (stat_raises E (config_path E dir AllowedCommands)) eqn:H1;
      [exists AllowedCommands; exact H1 |].
    destruct (stat_raises E (config_path E dir CodingPrompt)) eqn:H2;
      [exists CodingPrompt; exact H2 |].
    destruct (stat_raises E (config_path E dir InitializerPrompt)) eqn:H3;
      [exists InitializerPrompt; exact H3 |].
    destruct (stat_raises E (config_path E dir ClaudeMd)) eqn:H4;
      [exists ClaudeMd; exact H4 |].
    rewrite read_project_config_blocks in He by (intros []; assumption).
    discriminate He. }
  split; [split |].
  - intros [e He]. apply (Hraise e He).
  - intros Hf. eexists. apply (config_context_refused Hf).
  - intros e He. pose proof (config_context_refused (Hraise e He)) as Hp.
    rewrite He in Hp. injection Hp as ->. reflexivity.
Qed.

End ConfigContext.

Lemma config_file_truncated_witness :
  Z.of_nat (length (take (Z.to_nat 8000) Examples.long_text)) = 8000 /\
  _read_project_config Examples.healthy Examples.demo_dir Examples.long_files =
    Ok (join (nl ++ nl)
          [tagged "allowed_commands_yaml" (take (Z.to_nat 8000) Examples.long_text);
           tagged "coding_prompt" (take (Z.to_nat 4000) Examples.long_text)]).
Proof.
  destruct (config_file_truncated Examples.healthy Examples.demo_dir
              Examples.long_files AllowedCommands Examples.long_text)
    as (Hlen & Hfirst & Hall & _).
  - intros g. reflexivity.
  - apply lookup_insert_eq.
  - unfold Examples.long_text. rewrite repeat_length. lia.
  - split; [exact Hlen |]. rewrite Hall, Hfirst. reflexivity.
Defined.

Lemma config_context_by_file_witness :
  _read_project_config Examples.healthy Examples.demo_dir ∅ = Ok NO_ALLOWED_COMMANDS.
Proof.
  destruct (config_context_by_file Examples.healthy Examples.demo_dir ∅)
    as (section & Hres & Hsection); [intros f; reflexivity |].
  rewrite Hres.
  rewrite (proj2 (proj2 (Hsection AllowedCommands)) eq_refl).
  rewrite (proj2 (proj2 (Hsection CodingPrompt)) eq_refl).
  rewrite (proj2 (proj2 (Hsection InitializerPrompt)) eq_refl).
  rewrite (proj2 (proj2 (Hsection ClaudeMd)) eq_refl).
  reflexivity.
Defined.

(** ** [close] *)

Lemma closes_app (h1 h2 : list Event) : closes (h1 ++ h2) = closes h1 ++ closes h2.
Proof. apply omap_app. Qed.

Lemma closes_session_events (evs : list Event) :
  forallb session_event evs = true -> closes evs = [].
Proof.
  induction evs as [| e evs IH]; [reflexivity |]. simpl.
  intros H. apply andb_true_iff in H as [He Hevs].
  destruct e; try discriminate He; exact (IH Hevs).
Qed.

(** However [close] ends, it yields nothing, does not wait, leaves no entered
    client behind, and what it does outside the session are session events
    only. *)
Lemma close_run (E : Env) (s : Session) (w : World) :
  exists s' w' r evs,
    close E s w = ([], s', w', r) /\
    r <> Waiting /\
    live s' = false /\
    history w' = history w ++ evs /\
    forallb session_event evs = true.
Proof.
  unfold close, try_except, try_finally, call, path_exists, live.
  unfold mbind, gen_bind, get_self, get_world, event, update, set_files, raise,
    mret, gen_ret, res_ret.
  destruct s as [name dir [c |] ms done created conv [|] [p |] lock]; simpl;
    repeat match goal with
           | |- context [if ?b then _ else _] => destruct b; simpl
           end;
    eexists _, _, _, _; (split; [reflexivity |]); (split; [discriminate |]);
    (split; [reflexivity |]); simpl; rewrite <- ?app_assoc;
    first [ split; [reflexivity | reflexivity]
          | split; [symmetry; apply app_nil_r | reflexivity] ].
Qed.

(** ** The registry *)

Arguments await_close : simpl never.
Arguments proc_try : simpl never.

Lemma dict_pop_get {V} (k : pystr) (d : Dict V) :
  fst (dict_pop k d) = dict_get k d.
Proof.
  induction d as [| [k' v] d IH]; [reflexivity |]. simpl.
  destruct (decide (k = k')); [reflexivity |].
  destruct (dict_pop k d). exact IH.
Qed.

Lemma dict_get_pop_ne {V} (k k' : pystr) (d : Dict V) :
  k' <> k -> dict_get k' (snd (dict_pop k d)) = dict_get k' d.
Proof.
  intros Hne. induction d as [| [k0 v] d IH]; [reflexivity |]. simpl.
  destruct (decide (k = k0)) as [-> | Hk].
  - simpl. destruct (decide (k' = k0)); [contradiction | reflexivity].
  - destruct (dict_pop k d) as [r rest]. simpl in *.
    destruct (decide (k' = k0)); [reflexivity | exact IH].
Qed.

Lemma dict_get_set_eq {V} (k : pystr) (v : V) (d : Dict V) :
  dict_get k (dict_set k v d) = Some v.
Proof.
  induction d as [| [k0 v0] d IH]; simpl.
  - destruct (decide (k = k)); [reflexivity | contradiction].
  - destruct (decide (k = k0)) as [-> | Hk]; simpl.
    + destruct (decide (k0 = k0)); [reflexivity | contradiction].
    + destruct (decide (k = k0)); [contradiction | exact IH].
Qed.

Lemma dict_get_set_ne {V} (k k' : pystr) (v : V) (d : Dict V) :
  k' <> k -> dict_get k' (dict_set k v d) = dict_get k' d.
Proof.
  intros Hne. induction d as [| [k0 v0] d IH]; simpl.
  - destruct (decide (k' = k)); [contradiction | reflexivity].
  - destruct (decide (k = k0)) as [-> | Hk]; simpl.
    + destruct (decide (k' = k0)); [contradiction | reflexivity].
    + destruct (decide (k' = k0)); [reflexivity | exact IH].
Qed.

Section RegistryProperties.
Context (E : Env).

(** A guarded call of [close] on a constructed session returns normally
    whatever [close] does; it records the call, changes that object only,
    and leaves it without an entered client. *)
Lemma guarded_close (l : nat) (what : string) (p : Process) :
  (l < length (heap p))%nat ->
  exists s' w' evs,
    proc_try (await_close E l) (log_warning what) p =
      ({| heap := <[l := s']> (heap p);
          _log_review_sessions := _log_review_sessions p;
          world := w' |}, Done tt) /\
    live s' = false /\
    history w' = history (world p) ++ EvClose l :: evs /\
    forallb session_event evs = true.
Proof.
  intros Hl. unfold proc_try, await_close, log_warning, proc_event.
  destruct (lookup_lt_is_Some_2 _ _ Hl) as [s Hs]. rewrite Hs.
  destruct (close_run E s (note_close l (world p)))
    as (s' & w' & r & evs & Hrun & Hr & Hlive & Hh & Hev).
  rewrite Hrun. simpl in Hh. rewrite <- app_assoc in Hh.
  destruct r as [[] | e |]; [| | contradiction].
  - exists s', w', evs. repeat split; assumption.
  - exists s', {| files := files w'; history := history w' ++ [EvLog what] |},
           (evs ++ [EvLog what]).
    split; [reflexivity |]. split; [exact Hlive |]. split.
    + simpl. rewrite Hh, <- app_assoc. reflexivity.
    + rewrite forallb_app, Hev. reflexivity.
Qed.

(** The loop of the shut-down closes each captured session in turn and
    goes on after a failure. *)
Lemma close_each (what : string) (ls : list nat) (p : Process) :
  Forall (fun l => (l < length (heap p))%nat) ls ->
  exists p',
    proc_for (fun l => proc_try (await_close E l) (log_warning what)) ls p =
      (p', Done tt) /\
    _log_review_sessions p' = _log_review_sessions p /\
    length (heap p') = length (heap p) /\
    closes (history (world p')) = closes (history (world p)) ++ ls /\
    (forall l, In l ls -> exists s', heap p' !! l = Some s' /\ live s' = false) /\
    (forall l, ~ In l ls -> heap p' !! l = heap p !! l).
Proof.
  revert p. induction ls as [| l ls IH]; intros p Hls.
  - exists p. simpl. rewrite app_nil_r. repeat split; try reflexivity.
    intros l [].
  - apply Forall_cons in Hls as [Hl Hls].
    destruct (guarded_close l what p Hl) as (s' & w' & evs & Hrun & Hlive & Hh & Hev).
    set (p1 := {| heap := <[l := s']> (heap p);
                  _log_review_sessions := _log_review_sessions p;
                  world := w' |}) in *.
    assert (Hlen1 : length (heap p1) = length (heap p)) by apply length_insert.
    destruct (IH p1) as (p' & Hrest & Hreg & Hlen & Hcloses & Hclosed & Hframe).
    { rewrite Hlen1. exact Hls. }
    exists p'. split; [| split; [| split; [| split; [| split]]]].
    + simpl proc_for. unfold mbind, proc_bind. rewrite Hrun. exact Hrest.
    + rewrite Hreg. reflexivity.
    + rewrite Hlen. exact Hlen1.
    + rewrite Hcloses. simpl world. rewrite Hh, closes_app. simpl.
      rewrite (closes_session_events evs Hev), <- app_assoc. reflexivity.
    + intros l' [<- | Hin]; [| apply Hclosed, Hin].
      destruct (in_dec Nat.eq_dec l ls) as [Hin | Hout]; [apply Hclosed, Hin |].
      exists s'. split; [| exact Hlive].
      rewrite (Hframe l Hout). apply list_lookup_insert_eq. exact Hl.
    + intros l' Hout. rewrite Hframe by (intros Hin; apply Hout; right; exact Hin).
      apply list_lookup_insert_ne. intros <-. apply Hout. left. reflexivity.
Qed.

(** C6: for a project whose registry entry refers to a constructed
    session, [create_log_review_session] returns normally with the
    reference of a session constructed in the call, whatever [close] does
    on the old one.  What it does is, in this order: the lock is taken, the
    old entry popped and the new session registered with nothing in
    between, the lock released, and only then [close] called on the old
    session, once; everything that follows are events of that session.  The
    registry then maps the project to the new session and every other
    project as before. *)
Theorem create_replaces_and_closes_old (name : pystr) (dir : path)
    (p : Process) (old : nat) :
  dict_get name (_log_review_sessions p) = Some old ->
  (old < length (heap p))%nat ->
  let session := length (heap p) in
  exists p' s' evs,
    create_log_review_session E name dir p = (p', Done session) /\
    heap p' !! session =
      Some (new_session name dir
              (now_iso E (history (world p) ++
                          [EvRegistryAcquire; EvRegistry (RegPop name)]) 0)) /\
    dict_get name (_log_review_sessions p') = Some session /\
    (forall k, k <> name ->
       dict_get k (_log_review_sessions p') = dict_get k (_log_review_sessions p)) /\
    history (world p') =
      history (world p) ++
      [EvRegistryAcquire; EvRegistry (RegPop name);
       EvRegistry (RegSet name session); EvRegistryRelease; EvClose old] ++ evs /\
    forallb session_event evs = true /\
    closes (history (world p')) = closes (history (world p)) ++ [old] /\
    heap p' !! old = Some s' /\ live s' = false.
Proof.
  intros Hold Hlt session.
  unfold create_log_review_session.
  unfold mbind, proc_bind, proc_event, registry_pop, registry_set,
    registry_get, registry_values, registry_clear, registry_op,
    LogReviewSession, mret, proc_ret.
  simpl.
  pose proof (dict_pop_get name (_log_review_sessions p)) as Hfst.
  pose proof (fun k => dict_get_pop_ne name k (_log_review_sessions p)) as Hother.
  destruct (dict_pop name (_log_review_sessions p)) as [popped d'].
  simpl in Hfst, Hother. rewrite Hold in Hfst. subst popped. simpl.
  match goal with
  | |- context [proc_try _ _ ?p1] =>
    destruct (guarded_close old "Error closing old log review session" p1)
      as (s' & w' & evs & Hrun & Hlive & Hh & Hev);
      [simpl; rewrite length_app; lia |]
  end.
  rewrite Hrun. simpl in Hh.
  eexists _, s', evs. split; [reflexivity |]. simpl.
  split; [| split; [| split; [| split; [| split; [| split; [| split]]]]]].
  - rewrite list_lookup_insert_ne by (unfold session; lia).
    rewrite lookup_app_r by reflexivity.
    unfold session. rewrite Nat.sub_diag, <- app_assoc. reflexivity.
  - apply dict_get_set_eq.
  - intros k Hk. rewrite dict_get_set_ne by exact Hk. apply Hother, Hk.
  - rewrite Hh, <- !app_assoc. reflexivity.
  - exact Hev.
  - rewrite Hh, !closes_app. simpl.
    rewrite (closes_session_events evs Hev), !app_nil_r. reflexivity.
  - apply list_lookup_insert_eq. rewrite length_app. lia.
  - exact Hlive.
Qed.

(** C7: on a registry whose references point to constructed sessions, the
    shut-down returns normally whatever the calls of [close] do; it calls
    [close] on every session of the registry, in the registry's order,
    leaves each without an entered client, and leaves the registry empty.
    On an empty registry it only takes and releases the lock. *)
Theorem cleanup_closes_all (p : Process) :
  well_formed p ->
  exists p',
    cleanup_all_log_review_sessions E p = (p', Done tt) /\
    _log_review_sessions p' = [] /\
    closes (history (world p')) =
      closes (history (world p)) ++ dict_values (_log_review_sessions p) /\
    (forall l, In l (dict_values (_log_review_sessions p)) ->
       exists s', heap p' !! l = Some s' /\ live s' = false) /\
    (_log_review_sessions p = [] ->
     heap p' = heap p /\
     files (world p') = files (world p) /\
     history (world p') =
       history (world p) ++
       [EvRegistryAcquire; EvRegistry RegValues; EvRegistry RegClear;
        EvRegistryRelease]).
Proof.
  intros Hwf. unfold cleanup_all_log_review_sessions.
  unfold mbind, proc_bind, proc_event, registry_pop, registry_set,
    registry_get, registry_values, registry_clear, registry_op. simpl.
  match goal with
  | |- context [proc_for ?body ?ls ?p1] =>
    destruct (close_each "Error closing log review session" ls p1)
      as (p' & Hrun & Hreg & Hlen & Hcloses & Hclosed & Hframe);
      [exact Hwf |]
  end.
  exists p'. split; [exact Hrun |]. split; [exact Hreg |].
  split; [| split; [exact Hclosed |]].
  - rewrite Hcloses. simpl. rewrite <- !app_assoc, closes_app, app_nil_r.
    reflexivity.
  - intros Hempty. clear Hcloses Hclosed Hframe Hreg Hlen.
    rewrite Hempty in Hrun. simpl in Hrun.
    injection Hrun as <-. simpl. rewrite <- !app_assoc. repeat split.
Qed.

End RegistryProperties.

Lemma create_replaces_and_closes_old_witness :
  exists p' s' evs,
    create_log_review_session Examples.locked_down (lit "demo") Examples.demo_dir
      Examples.registered = (p', Done 1%nat) /\
    heap p' !! 1%nat =
      Some (new_session (lit "demo") Examples.demo_dir
              (now_iso Examples.locked_down
                 (history (world Examples.registered) ++
                  [EvRegistryAcquire; EvRegistry (RegPop (lit "demo"))]) 0)) /\
    dict_get (lit "demo") (_log_review_sessions p') = Some 1%nat /\
    (forall k, k <> lit "demo" ->
       dict_get k (_log_review_sessions p') =
       dict_get k (_log_review_sessions Examples.registered)) /\
    history (world p') =
      history (world Examples.registered) ++
      [EvRegistryAcquire; EvRegistry (RegPop (lit "demo"));
       EvRegistry (RegSet (lit "demo") 1); EvRegistryRelease; EvClose 0] ++ evs /\
    forallb session_event evs = true /\
    closes (history (world p')) =
      closes (history (world Examples.registered)) ++ [0%nat] /\
    heap p' !! 0%nat = Some s' /\ live s' = false.
Proof.
  apply (create_replaces_and_closes_old Examples.locked_down (lit "demo")
           Examples.demo_dir Examples.registered 0);
    [reflexivity | simpl; lia].
Defined.

Lemma cleanup_closes_all_witness :
  exists p',
    cleanup_all_log_review_sessions Examples.healthy Examples.two_projects =
      (p', Done tt) /\
    _log_review_sessions p' = [] /\
    closes (history (world p')) =
      closes (history (world Examples.two_projects)) ++ [0%nat; 1%nat] /\
    (forall l, In l [0%nat; 1%nat] ->
       exists s', heap p' !! l = Some s' /\ live s' = false) /\
    (_log_review_sessions Examples.two_projects = [] ->
     heap p' = heap Examples.two_projects /\
     files (world p') = files (world Examples.two_projects) /\
     history (world p') =
       history (world Examples.two_projects) ++
       [EvRegistryAcquire; EvRegistry RegValues; EvRegistry RegClear;
        EvRegistryRelease]).
Proof.
  apply (cleanup_closes_all Examples.healthy Examples.two_projects).
  repeat constructor.
Defined.


(** ** The query gate *)

(** *** The programs that can stop are the generators *)

Lemma run_bind {A B} (m : Gate.Coro A) (f : A -> Gate.Coro B) (s : Session)
    (w : World) :
  Gate.run (Gate.bind m f) s w =
    match Gate.run m s w with
    | (out, s', w', Done a) =>
      match Gate.run (f a) s' w' with
      | (out', s'', w'', r) => (out ++ out', s'', w'', r)
      end
    | (out, s', w', Raised e) => (out, s', w', Raised e)
    | (out, s', w', Waiting) => (out, s', w', Waiting)
    end.
Proof.
  revert s w.
  induction m as [a | e | k IH | g k IH | e k IH | fs k IH | k IH | pt k IH n];
    intros s w; simpl; try (rewrite IH; reflexivity).
  - destruct (Gate.run (f a) s w) as [[[out s'] w'] r]. reflexivity.
  - reflexivity.
  - destruct pt; simpl; try (rewrite IH; reflexivity).
    + rewrite IH.
      destruct (Gate.run k s w) as [[[out s'] w'] [a | e |]]; try reflexivity.
      destruct (Gate.run (f a) s' w') as [[[out' s''] w''] r]. reflexivity.
    + destruct (_query_lock s); [reflexivity | apply IH].
Qed.

Lemma run_try_except {A} (m : Gate.Coro A) (h : exn -> Gate.Coro A)
    (s : Session) (w : World) :
  Gate.run (Gate.try_except m h) s w =
    match Gate.run m s w with
    | (out, s', w', Raised e) =>
      match Gate.run (h e) s' w' with
      | (out', s'', w'', r) => (out ++ out', s'', w'', r)
      end
    | r => r
    end.
Proof.
  revert s w.
  induction m as [a | e | k IH | g k IH | e k IH | fs k IH | k IH | pt k IH n];
    intros s w; simpl; try (rewrite IH; reflexivity).
  - reflexivity.
  - destruct (Gate.run (h e) s w) as [[[out s'] w'] r]. reflexivity.
  - destruct pt; simpl; try (rewrite IH; reflexivity).
    + rewrite IH.
      destruct (Gate.run k s w) as [[[out s'] w'] [a | e |]]; try reflexivity.
      destruct (Gate.run (h e) s' w') as [[[out' s''] w''] r]. reflexivity.
    + destruct (_query_lock s); [reflexivity | apply IH].
Qed.

Lemma run_releasing {A} (b : Gate.Coro A) (s : Session) (w : World) :
  Gate.run (Gate.releasing b) s w =
    match Gate.run b s w with
    | (out, s', w', Waiting) => (out, s', w', Waiting)
    | (out, s', w', r) => (out, with_query_lock false s', w', r)
    end.
Proof.
  revert s w.
  induction b as [a | e | k IH | g k IH | e k IH | fs k IH | k IH | pt k IH n];
    intros s w; simpl; try (rewrite IH; reflexivity).
  - reflexivity.
  - reflexivity.
  - destruct pt; simpl; try (rewrite IH; reflexivity).
    + rewrite IH.
      destruct (Gate.run k s w) as [[[out s'] w'] [a | e |]]; reflexivity.
    + destruct (_query_lock s); [reflexivity | apply IH].
Qed.

Lemma agrees_ret {A} (a : A) : Gate.agrees (mret a) (mret a).
Proof. intros s w. reflexivity. Qed.

Lemma agrees_bind {A B} (m : Gate.Coro A) (g : Gen A) (f : A -> Gate.Coro B)
    (f' : A -> Gen B) :
  Gate.agrees m g -> (forall a, Gate.agrees (f a) (f' a)) ->
  Gate.agrees (m ≫= f) (g ≫= f').
Proof.
  intros Hm Hf s w. unfold mbind, Gate.coro_bind, gen_bind.
  rewrite run_bind, Hm.
  destruct (g s w) as [[[out s'] w'] [a | e |]]; try reflexivity.
  rewrite Hf. reflexivity.
Qed.

Lemma agrees_await {B} (m : Gate.Coro B) (g : Gen B) :
  Gate.agrees m g -> Gate.agrees (Gate.await ≫= fun _ => m) g.
Proof. intros Hm s w. apply Hm. Qed.

Lemma agrees_try_except {A} (m : Gate.Coro A) (g : Gen A)
    (h : exn -> Gate.Coro A) (h' : exn -> Gen A) :
  Gate.agrees m g -> (forall e, Gate.agrees (h e) (h' e)) ->
  Gate.agrees (Gate.try_except m h) (try_except g h').
Proof.
  intros Hm Hh s w. unfold try_except. rewrite run_try_except, Hm.
  destruct (g s w) as [[[out s'] w'] [a | e |]]; try reflexivity.
  rewrite Hh. reflexivity.
Qed.

Lemma agrees_gate {A} (body : Gate.Coro A) (body' : Gen A) :
  Gate.agrees body body' ->
  Gate.agrees (Gate.async_with_query_lock body) (async_with_query_lock body').
Proof.
  intros Hbody s w. unfold Gate.async_with_query_lock, async_with_query_lock.
  simpl. destruct (_query_lock s); [reflexivity |].
  rewrite run_releasing, Hbody.
  unfold try_finally, mbind, gen_bind, update. simpl.
  destruct (body' (with_query_lock true s) w) as [[[out s'] w'] [a | e |]];
    simpl; rewrite ?app_nil_r; reflexivity.
Qed.

Lemma agrees_for {A} (body : A -> Gate.Coro unit) (body' : A -> Gen unit)
    (xs : list A) :
  (forall x, Gate.agrees (body x) (body' x)) ->
  Gate.agrees (Gate.gen_for body xs) (gen_for body' xs).
Proof.
  intros Hbody. induction xs as [| x xs IH]; [apply agrees_ret |].
  apply (agrees_bind (body x) (body' x)); [apply Hbody | intros _; exact IH].
Qed.

Lemma agrees_yield (f : Fragment) : Gate.agrees (Gate.yield f) (yield f).
Proof. intros s w. reflexivity. Qed.

Lemma agrees_raise {A} (e : exn) : Gate.agrees (A:=A) (Gate.raise e) (raise e).
Proof. intros s w. reflexivity. Qed.

Lemma agrees_get_self : Gate.agrees Gate.get_self get_self.
Proof. intros s w. reflexivity. Qed.

Lemma agrees_get_world : Gate.agrees Gate.get_world get_world.
Proof. intros s w. reflexivity. Qed.

Lemma agrees_update (f : Session -> Session) :
  Gate.agrees (Gate.update f) (update f).
Proof. intros s w. reflexivity. Qed.

Lemma agrees_event (e : Event) : Gate.agrees (Gate.event e) (event e).
Proof. intros s w. reflexivity. Qed.

Lemma agrees_set_files (fs : Files) : Gate.agrees (Gate.set_files fs) (set_files fs).
Proof. intros s w. reflexivity. Qed.

Lemma agrees_call {A} (r : res A) : Gate.agrees (Gate.call r) (call r).
Proof. destruct r; intros s w; reflexivity. Qed.

Create HintDb agrees.

#[local] Hint Resolve agrees_ret agrees_yield agrees_raise agrees_get_self
  agrees_get_world agrees_update agrees_event agrees_set_files agrees_call
  : agrees.

Ltac agree_step :=
  lazymatch goal with
  | |- Gate.agrees (Gate.await ≫= _) _ => apply agrees_await
  | |- Gate.agrees (_ ≫= _) (_ ≫= _) => apply agrees_bind; [idtac | intros ?]
  | |- Gate.agrees (Gate.try_except _ _) (try_except _ _) =>
    apply agrees_try_except; [idtac | intros ?]
  | |- Gate.agrees (Gate.async_with_query_lock _) _ => apply agrees_gate
  | |- _ => solve [auto with agrees]
  end.

Ltac agree := repeat agree_step.

Section Agreement.
Context (E : Env).

Lemma agrees_append_message (r : Role) (c : pystr) :
  Gate.agrees (Gate.append_message E r c) (append_message E r c).
Proof. unfold Gate.append_message, append_message. agree. Qed.

Lemma agrees_surface_message (msg : SDKMessage) :
  Gate.agrees (Gate.surface_message E msg) (surface_message E msg).
Proof.
  apply agrees_for. intros t. unfold Gate.surface_text, surface_text. agree.
  apply agrees_append_message.
Qed.

Lemma agrees_query_claude (message : pystr) :
  Gate.agrees (Gate._query_claude E message) (_query_claude E message).
Proof.
  unfold Gate._query_claude, _query_claude.
  apply agrees_bind; [apply agrees_get_self | intros s].
  destruct (client s); [| apply agrees_ret].
  apply agrees_bind; [apply agrees_get_world | intros w]. cbv zeta.
  apply agrees_bind; [apply agrees_event | intros _].
  agree_step.
  destruct (query_raises (reply E (history w) message)); [apply agrees_raise |].
  apply agrees_bind.
  - apply agrees_for. intros msg. agree_step. apply agrees_surface_message.
  - intros _. agree_step.
    destruct (stream_raises (reply E (history w) message));
      [apply agrees_raise | apply agrees_ret].
Qed.

Lemma agrees_send_message (user_message : pystr) :
  Gate.agrees (Gate.send_message E user_message) (send_message E user_message).
Proof.
  unfold Gate.send_message, send_message.
  apply agrees_bind; [apply agrees_get_self | intros s].
  destruct (client s); [| apply agrees_yield].
  apply agrees_bind; [apply agrees_append_message | intros _].
  apply agrees_try_except.
  - apply agrees_bind; [| intros _; apply agrees_yield].
    apply agrees_gate, agrees_query_claude.
  - intros _. agree.
Qed.

Lemma agrees_write_settings (p : path) :
  Gate.agrees (Gate.write_settings E p) (write_settings E p).
Proof. unfold Gate.write_settings, write_settings. agree. Qed.

Lemma agrees_open_client (options : ClaudeAgentOptions) :
  Gate.agrees (Gate.open_client E options) (open_client E options).
Proof.
  unfold Gate.open_client, open_client.
  apply agrees_bind; [apply agrees_get_world | intros w].
  apply agrees_bind; [apply agrees_event | intros _].
  destruct (connect E (history w)); agree.
Qed.

Lemma agrees_start : Gate.agrees (Gate.start E) (start E).
Proof.
  unfold Gate.start, start.
  destruct (which_claude E) as [[| c rest] |]; try apply agrees_yield.
  cbv zeta.
  apply agrees_bind; [apply agrees_yield | intros _].
  apply agrees_bind; [apply agrees_get_self | intros s].
  apply agrees_bind; [apply agrees_call | intros log_context].
  destruct (str_in NO_SESSIONS_MARKER log_context); [agree |].
  apply agrees_bind; [apply agrees_get_world | intros w].
  apply agrees_bind; [apply agrees_call | intros config_context].
  apply agrees_bind; [apply agrees_update | intros _].
  apply agrees_bind; [apply agrees_write_settings | intros _].
  apply agrees_bind.
  - apply agrees_try_except; [| intros _; agree].
    apply agrees_bind; [apply agrees_open_client | intros _; apply agrees_ret].
  - intros [|]; [| apply agrees_ret].
    apply agrees_try_except; [| intros _; agree].
    apply agrees_bind; [apply agrees_gate, agrees_query_claude | intros _].
    agree.
Qed.

End Agreement.

(** *** The programs keep the discipline of the gate *)

Section Discipline.
Context (E : Env).

Lemma bind_discipline {A B} (c : Gate.Coro A) (f : A -> Gate.Coro B) :
  (forall a, Gate.calm E (f a)) ->
  (Gate.calm E c -> Gate.calm E (Gate.bind c f)) /\
  (forall s w, Gate.entering E c s w -> Gate.entering E (Gate.bind c f) s w) /\
  (forall texts, Gate.inside E c texts -> Gate.inside E (Gate.bind c f) texts).
Proof.
  intros Hf.
  induction c as [a | e | k IH | g k IH | e k IH | fs k IH | k IH | pt k IH n];
    simpl.
  - split; [intros _; apply Hf | split; [intros s w [] | intros texts []]].
  - split; [trivial | split; [intros s w [] | intros texts []]].
  - split; [| split].
    + intros Hk s w. apply (IH s w), Hk.
    + intros s w Hk. apply (IH s w), Hk.
    + intros texts Hk s w. apply (IH s w), Hk.
  - destruct IH as (IH1 & IH2 & IH3). split; [| split].
    + intros [Hg Hk]. auto.
    + intros s w [Hg Hk]. auto.
    + intros texts [Hg Hk]. auto.
  - destruct IH as (IH1 & IH2 & IH3). split; [| split].
    + intros [He Hk]. auto.
    + intros s w Hk. destruct e; auto.
    + intros texts [He Hk]. auto.
  - destruct IH as (IH1 & IH2 & IH3). split; [| split]; auto.
  - destruct IH as (IH1 & IH2 & IH3). split; [| split].
    + intros [].
    + intros s w Hk. auto.
    + intros texts [Ht Hk]. auto.
  - destruct IH as (IH1 & IH2 & IH3). split; [| split].
    + destruct pt; intros [Hk Hn]; auto.
    + intros s w [].
    + intros texts. destruct pt; try solve [intros []].
      * destruct f0; try solve [intros []]. destruct texts as [| t' rest]; [intros [] |].
        intros (Ht & Hk & Hn). auto.
      * intros [Hk Hn]. auto.
Qed.

Lemma try_discipline {A} (c : Gate.Coro A) (h : exn -> Gate.Coro A) :
  (forall e, Gate.calm E (h e)) ->
  (Gate.calm E c -> Gate.calm E (Gate.try_except c h)) /\
  (forall s w, Gate.entering E c s w -> Gate.entering E (Gate.try_except c h) s w) /\
  (forall texts, Gate.inside E c texts -> Gate.inside E (Gate.try_except c h) texts).
Proof.
  intros Hh.
  induction c as [a | e | k IH | g k IH | e k IH | fs k IH | k IH | pt k IH n];
    simpl.
  - split; [trivial | split; [intros s w [] | intros texts []]].
  - split; [intros _; apply Hh | split; [intros s w [] | intros texts []]].
  - split; [| split].
    + intros Hk s w. apply (IH s w), Hk.
    + intros s w Hk. apply (IH s w), Hk.
    + intros texts Hk s w. apply (IH s w), Hk.
  - destruct IH as (IH1 & IH2 & IH3). split; [| split].
    + intros [Hg Hk]. auto.
    + intros s w [Hg Hk]. auto.
    + intros texts [Hg Hk]. auto.
  - destruct IH as (IH1 & IH2 & IH3). split; [| split].
    + intros [He Hk]. auto.
    + intros s w Hk. destruct e; auto.
    + intros texts [He Hk]. auto.
  - destruct IH as (IH1 & IH2 & IH3). split; [| split]; auto.
  - destruct IH as (IH1 & IH2 & IH3). split; [| split].
    + intros [].
    + intros s w Hk. auto.
    + intros texts [Ht Hk]. auto.
  - destruct IH as (IH1 & IH2 & IH3). split; [| split].
    + destruct pt; intros [Hk Hn]; auto.
    + intros s w [].
    + intros texts. destruct pt; try solve [intros []].
      * destruct f; try solve [intros []]. destruct texts as [| t' rest]; [intros [] |].
        intros (Ht & Hk & Hn). auto.
      * intros [Hk Hn]. auto.
Qed.

Lemma releasing_streams {A} (b : Gate.Coro A) (may_raise : bool)
    (texts : list pystr) :
  Gate.streams b may_raise texts -> Gate.inside E (Gate.releasing b) texts.
Proof.
  revert texts.
  induction b as [a | e | k IH | g k IH | e k IH | fs k IH | k IH | pt k IH n];
    intros texts; simpl.
  - auto.
  - intros [_ Ht]. auto.
  - intros Hk s w. apply (IH s w), Hk.
  - intros [Hg Hk]. auto.
  - intros [He Hk]. auto.
  - auto.
  - intros [].
  - destruct pt; try solve [intros []].
    + destruct f; try solve [intros []]. destruct texts as [| t' rest]; [intros [] |].
      intros (Ht & Hk & ->). auto.
    + intros [Hk ->]. auto.
Qed.

Lemma releasing_queries {A} (b : Gate.Coro A) (s : Session) (w : World) :
  Gate.queries E b s w -> Gate.entering E (Gate.releasing b) s w.
Proof.
  revert s w.
  induction b as [a | e | k IH | g k IH | e k IH | fs k IH | k IH | pt k IH n];
    intros s w; simpl; auto.
  - intros [Hg Hk]. auto.
  - destruct e; auto. apply releasing_streams.
  - intros [].
Qed.

Lemma streams_bind {A B} (m : Gate.Coro A) (f : A -> Gate.Coro B)
    (may_raise : bool) (first rest : list pystr) :
  Gate.streams m false first ->
  (forall a, Gate.streams (f a) may_raise rest) ->
  Gate.streams (Gate.bind m f) may_raise (first ++ rest).
Proof.
  intros Hm Hf. revert first Hm.
  induction m as [a | e | k IH | g k IH | e k IH | fs k IH | k IH | pt k IH n];
    intros first; simpl.
  - intros ->. apply Hf.
  - intros [Hraise _]. discriminate Hraise.
  - intros Hk s w. apply (IH s w), Hk.
  - intros [Hg Hk]. auto.
  - intros [He Hk]. auto.
  - auto.
  - intros [].
  - destruct pt; try solve [intros []].
    + destruct f0; try solve [intros []]. destruct first as [| t' first]; [intros [] |].
      intros (Ht & Hk & Hn). simpl. auto.
    + intros [Hk Hn]. auto.
Qed.

Lemma streams_for {A} (body : A -> Gate.Coro unit) (texts : A -> list pystr)
    (xs : list A) :
  (forall x, Gate.streams (body x) false (texts x)) ->
  Gate.streams (Gate.gen_for body xs) false (concat (map texts xs)).
Proof.
  intros Hbody. induction xs as [| x xs IH]; [reflexivity |].
  apply (streams_bind (body x)); [apply Hbody | intros _; exact IH].
Qed.

Lemma concat_singletons {A} (xs : list A) : concat (map (fun x => [x]) xs) = xs.
Proof. induction xs as [| x xs IH]; [reflexivity |]. simpl. rewrite IH. reflexivity. Qed.

Lemma streams_surface_text (t : pystr) :
  Gate.streams (Gate.surface_text E t) false [t].
Proof. simpl. repeat split. Qed.

Lemma streams_surface_message (msg : SDKMessage) :
  Gate.streams (Gate.surface_message E msg) false (surfaced_texts msg).
Proof.
  unfold Gate.surface_message.
  rewrite <- (concat_singletons (surfaced_texts msg)) at 2.
  apply streams_for, streams_surface_text.
Qed.

Lemma queries_query_claude (message : pystr) (s : Session) (w : World) :
  Gate.queries E (Gate._query_claude E message) s w.
Proof.
  unfold Gate._query_claude. simpl.
  destruct (client s); [| exact I]. simpl.
  unfold surfaced.
  destruct (query_raises (reply E (history w) message)) as [e |]; simpl;
    [repeat split |].
  split; [| reflexivity].
  rewrite <- (app_nil_r (concat _)).
  apply streams_bind.
  - apply (streams_for _ surfaced_texts). intros msg. simpl.
    split; [apply streams_surface_message | reflexivity].
  - intros _. simpl.
    destruct (stream_raises (reply E (history w) message)); simpl; repeat split.
Qed.

(** The gated block with what follows it and its handler. *)
Lemma calm_gate {A B} (body : Gate.Coro A) (f : A -> Gate.Coro B)
    (h : exn -> Gate.Coro B) :
  (forall s w, Gate.queries E body s w) ->
  (forall a, Gate.calm E (f a)) ->
  (forall e, Gate.calm E (h e)) ->
  Gate.calm E (Gate.try_except (Gate.async_with_query_lock body ≫= f) h).
Proof.
  intros Hbody Hf Hh. unfold Gate.async_with_query_lock, mbind, Gate.coro_bind.
  simpl. split; [| reflexivity]. intros s w.
  apply try_discipline; [exact Hh |].
  apply bind_discipline; [exact Hf |].
  apply releasing_queries, Hbody.
Qed.

Ltac discipline :=
  cbn [Gate.calm Gate.entering Gate.inside Gate.bind Gate.try_except
       Gate.releasing mbind mret Gate.coro_bind Gate.coro_ret Gate.yield
       Gate.await Gate.raise Gate.get_self Gate.get_world Gate.update
       Gate.event Gate.set_files Gate.call Gate.append_message
       Gate.write_settings Gate.open_client Gate.is_query].

Lemma calm_send_message (user_message : pystr) :
  Gate.calm E (Gate.send_message E user_message).
Proof.
  unfold Gate.send_message. discipline. intros s w.
  destruct (client s); discipline; [| auto].
  intros s1 w1 s2 w2. split; [intros s'; reflexivity |].
  apply calm_gate.
  - apply queries_query_claude.
  - intros _. discipline. auto.
  - intros _. discipline. auto.
Qed.

Lemma calm_start : Gate.calm E (Gate.start E).
Proof.
  unfold Gate.start.
  destruct (which_claude E) as [[| c rest] |]; discipline; auto.
  split; [| reflexivity]. intros s w.
  destruct (_gather_log_context E (project_name s) (project_dir s))
    as [log_context | e]; discipline; [| exact I].
  destruct (str_in NO_SESSIONS_MARKER log_context); discipline.
  { repeat split. }
  intros s1 w1.
  destruct (_read_project_config E (project_dir s) (files w1))
    as [config_context | e]; discipline; [| exact I].
  split; [intros s'; reflexivity |].
  intros s2 w2. split; [reflexivity |].
  intros s3 w3. split; [reflexivity |].
  apply bind_discipline.
  - intros [|]; [| exact I].
    apply calm_gate.
    + apply queries_query_claude.
    + intros _. discipline. repeat split.
    + intros _. discipline. repeat split.
  - apply try_discipline; [intros _; discipline; repeat split |].
    apply bind_discipline; [intros _; exact I |].
    destruct (connect E (history w3)); discipline; repeat split.
Qed.

End Discipline.

(** *** One call goes on *)

Section Advance.
Context (E : Env) (strict : bool) (i : nat).

Lemma check_app (fl : Gate.Flight) (obs1 obs2 : list Gate.Obs) :
  Gate.check E strict fl (obs1 ++ obs2) =
    match Gate.check E strict fl obs1 with
    | Some fl1 => Gate.check E strict fl1 obs2
    | None => None
    end.
Proof.
  revert fl. induction obs1 as [| o obs1 IH]; intros fl; [reflexivity |].
  simpl. destruct (Gate.observe E strict fl o); [apply IH | reflexivity].
Qed.

Lemma with_past_id (fl : Gate.Flight) : Gate.with_past (Gate.past fl) fl = fl.
Proof. destruct fl; reflexivity. Qed.

Lemma observe_event (fl : Gate.Flight) (e : Event) :
  Gate.is_query e = false ->
  Gate.observe E strict fl (Gate.OEvent i e) =
    Some (Gate.with_past (Gate.past fl ++ [e]) fl).
Proof. destruct e; try discriminate; reflexivity. Qed.

Lemma observe_other_yield (fl : Gate.Flight) (f : Fragment) :
  Gate.holder fl <> Some i ->
  Gate.observe E strict fl (Gate.OYield i f) = Some fl.
Proof.
  intros Hh. simpl. rewrite bool_decide_eq_false_2 by exact Hh. reflexivity.
Qed.

Lemma advance_calm {A} (c : Gate.Coro A) (s : Session) (w : World)
    (fl : Gate.Flight) :
  Gate.calm E c -> Gate.past fl = history w -> Gate.holder fl <> Some i ->
  exists obs s' w' c',
    Gate.advance i c s w = (obs, s', w', c') /\
    Gate.check E strict fl (obs ++ Gate.arriving i c') =
      Some (Gate.with_past (history w') fl) /\
    _query_lock s' = _query_lock s /\
    Gate.calm E c'.
Proof.
  revert s w fl.
  induction c as [a | e | k IH | g k IH | e k IH | fs k IH | k IH | pt k IH n];
    intros s w fl Hc Hpast Hh; simpl in Hc.
  - exists [], s, w, (Gate.Ret a). simpl. rewrite <- Hpast, with_past_id. auto.
  - exists [], s, w, (Gate.Throw e). simpl. rewrite <- Hpast, with_past_id. auto.
  - apply (IH s w s w fl (Hc s w) Hpast Hh).
  - destruct Hc as [Hg Hk].
    destruct (IH (g s) w fl Hk Hpast Hh) as (obs & s' & w' & c' & Hadv & Hck & Hl & Hc').
    exists obs, s', w', c'. simpl. rewrite Hadv, Hl, Hg. auto.
  - destruct Hc as [He Hk].
    set (w1 := {| files := files w; history := history w ++ [e] |}).
    destruct (IH s w1 (Gate.with_past (Gate.past fl ++ [e]) fl) Hk)
      as (obs & s' & w' & c' & Hadv & Hck & Hl & Hc').
    { simpl. rewrite Hpast. reflexivity. }
    { exact Hh. }
    exists (Gate.OEvent i e :: obs), s', w', c'. cbn [Gate.advance]. fold w1.
    rewrite Hadv. split; [reflexivity |]. split; [| auto].
    change ((Gate.OEvent i e :: obs) ++ Gate.arriving i c')
      with (Gate.OEvent i e :: (obs ++ Gate.arriving i c')).
    cbn [Gate.check]. rewrite (observe_event fl e He). exact Hck.
  - set (w1 := {| files := fs; history := history w |}).
    destruct (IH s w1 fl Hc Hpast Hh) as (obs & s' & w' & c' & Hadv & Hck & Hl & Hc').
    exists obs, s', w', c'. simpl. fold w1. rewrite Hadv. auto.
  - destruct Hc.
  - exists [], s, w, (Gate.Suspend pt k n). simpl.
    split; [reflexivity |]. split; [| split; [reflexivity | exact Hc]].
    rewrite <- Hpast, with_past_id.
    destruct pt; try reflexivity.
    simpl. rewrite bool_decide_eq_false_2 by exact Hh. reflexivity.
Qed.

(** The call inside the block leaves. *)
Lemma observe_leave (fl : Gate.Flight) :
  Gate.holder fl = Some i ->
  Gate.awaited fl = [] \/ Gate.excused fl = true ->
  Gate.observe E strict fl (Gate.OLeave i) = Some (Gate.takeoff (Gate.past fl)).
Proof.
  intros Hh Hdone. simpl. rewrite bool_decide_eq_true_2 by exact Hh.
  destruct Hdone as [-> | ->]; simpl; rewrite ?orb_true_r; reflexivity.
Qed.

Lemma advance_inside {A} (c : Gate.Coro A) (texts : list pystr) (s : Session)
    (w : World) (fl : Gate.Flight) :
  Gate.inside E c texts -> Gate.past fl = history w ->
  Gate.holder fl = Some i -> Gate.awaited fl = texts -> Gate.excused fl = false ->
  exists obs s' w' c' fl',
    Gate.advance i c s w = (obs, s', w', c') /\
    Gate.check E strict fl (obs ++ Gate.arriving i c') = Some fl' /\
    Gate.past fl' = history w' /\ Gate.excused fl' = false /\
    ((Gate.holder fl' = Some i /\ Gate.held E c' (Gate.awaited fl') /\
      _query_lock s' = _query_lock s) \/
     (Gate.holder fl' = None /\ Gate.calm E c' /\ _query_lock s' = false)).
Proof.
  revert texts s w fl.
  induction c as [a | e | k IH | g k IH | e k IH | fs k IH | k IH | pt k IH n];
    intros texts s w fl Hc Hpast Hh Haw Hex; simpl in Hc; try contradiction.
  - apply (IH s w texts s w fl (Hc s w) Hpast Hh Haw Hex).
  - destruct Hc as [Hg Hk].
    destruct (IH texts (g s) w fl Hk Hpast Hh Haw Hex)
      as (obs & s' & w' & c' & fl' & Hadv & Hck & Hp & He & Hcase).
    exists obs, s', w', c', fl'. simpl. rewrite Hadv, <- (Hg s). auto.
  - destruct Hc as [He Hk].
    set (w1 := {| files := files w; history := history w ++ [e] |}).
    destruct (IH texts s w1 (Gate.with_past (Gate.past fl ++ [e]) fl) Hk)
      as (obs & s' & w' & c' & fl' & Hadv & Hck & Hp & Hex' & Hcase);
      [simpl; rewrite Hpast; reflexivity | exact Hh | exact Haw | exact Hex |].
    exists (Gate.OEvent i e :: obs), s', w', c', fl'. cbn [Gate.advance].
    fold w1. rewrite Hadv. split; [reflexivity |]. split; [| auto].
    change ((Gate.OEvent i e :: obs) ++ Gate.arriving i c')
      with (Gate.OEvent i e :: (obs ++ Gate.arriving i c')).
    cbn [Gate.check]. rewrite (observe_event fl e He). exact Hck.
  - set (w1 := {| files := fs; history := history w |}).
    destruct (IH texts s w1 fl Hc Hpast Hh Haw Hex)
      as (obs & s' & w' & c' & fl' & Hadv & Hck & Hp & Hex' & Hcase).
    exists obs, s', w', c', fl'. simpl. fold w1. rewrite Hadv. auto.
  - destruct Hc as [-> Hk].
    destruct (advance_calm k (with_query_lock false s) w
                (Gate.takeoff (Gate.past fl)) Hk Hpast)
      as (obs & s' & w' & c' & Hadv & Hck & Hl & Hc'); [discriminate |].
    exists (Gate.OLeave i :: obs), s', w', c',
      (Gate.with_past (history w') (Gate.takeoff (Gate.past fl))).
    simpl Gate.advance. rewrite Hadv. split; [reflexivity |].
    split; [| split; [reflexivity | split; [reflexivity |]]].
    + change ((Gate.OLeave i :: obs) ++ Gate.arriving i c')
        with (Gate.OLeave i :: (obs ++ Gate.arriving i c')).
      cbn [Gate.check]. rewrite (observe_leave fl Hh (or_introl Haw)). exact Hck.
    + right. split; [reflexivity |]. split; [exact Hc' | exact Hl].
  - destruct pt; try contradiction.
    + destruct f as [t | | | |]; try contradiction.
      destruct texts as [| t' rest]; [contradiction |].
      destruct Hc as (<- & Hk & Hn).
      exists [], s, w, (Gate.Suspend (Gate.PYield (FText t)) k n),
        {| Gate.holder := Gate.holder fl; Gate.awaited := rest;
           Gate.queried := Gate.queried fl; Gate.excused := Gate.excused fl;
           Gate.past := Gate.past fl |}.
      simpl. rewrite bool_decide_eq_true_2 by exact Hh. rewrite Haw.
      rewrite bool_decide_eq_true_2 by reflexivity.
      repeat split; auto.
    + destruct Hc as [Hk Hn].
      exists [], s, w, (Gate.Suspend Gate.PAwait k n), fl. simpl.
      rewrite Haw. repeat split; auto.
Qed.

Lemma advance_entering {A} (c : Gate.Coro A) (s : Session) (w : World)
    (fl : Gate.Flight) :
  Gate.entering E c s w -> Gate.past fl = history w ->
  Gate.holder fl = Some i -> Gate.awaited fl = [] -> Gate.queried fl = false ->
  Gate.excused fl = false ->
  exists obs s' w' c' fl',
    Gate.advance i c s w = (obs, s', w', c') /\
    Gate.check E strict fl (obs ++ Gate.arriving i c') = Some fl' /\
    Gate.past fl' = history w' /\ Gate.excused fl' = false /\
    ((Gate.holder fl' = Some i /\ Gate.held E c' (Gate.awaited fl') /\
      _query_lock s' = _query_lock s) \/
     (Gate.holder fl' = None /\ Gate.calm E c' /\ _query_lock s' = false)).
Proof.
  revert s w fl.
  induction c as [a | e | k IH | g k IH | e k IH | fs k IH | k IH | pt k IH n];
    intros s w fl Hc Hpast Hh Haw Hq Hex; simpl in Hc; try contradiction.
  - apply (IH s w s w fl Hc Hpast Hh Haw Hq Hex).
  - destruct Hc as [Hg Hk].
    destruct (IH (g s) w fl Hk Hpast Hh Haw Hq Hex)
      as (obs & s' & w' & c' & fl' & Hadv & Hck & Hp & He & Hcase).
    exists obs, s', w', c', fl'. simpl. rewrite Hadv, <- (Hg s). auto.
  - set (w1 := {| files := files w; history := history w ++ [e] |}).
    assert (Hother : Gate.is_query e = false ->
              Gate.entering E k s w1 ->
              exists obs s' w' c' fl',
                Gate.advance i (Gate.Emit e k) s w = (obs, s', w', c') /\
                Gate.check E strict fl (obs ++ Gate.arriving i c') = Some fl' /\
                Gate.past fl' = history w' /\ Gate.excused fl' = false /\
                ((Gate.holder fl' = Some i /\ Gate.held E c' (Gate.awaited fl') /\
                  _query_lock s' = _query_lock s) \/
                 (Gate.holder fl' = None /\ Gate.calm E c' /\
                  _query_lock s' = false))).
    { intros He Hk.
      destruct (IH s w1 (Gate.with_past (Gate.past fl ++ [e]) fl) Hk)
        as (obs & s' & w' & c' & fl' & Hadv & Hck & Hp & Hex' & Hcase);
        [simpl; rewrite Hpast; reflexivity | exact Hh | exact Haw | exact Hq
         | exact Hex |].
      exists (Gate.OEvent i e :: obs), s', w', c', fl'. cbn [Gate.advance].
      fold w1. rewrite Hadv. split; [reflexivity |]. split; [| auto].
      change ((Gate.OEvent i e :: obs) ++ Gate.arriving i c')
        with (Gate.OEvent i e :: (obs ++ Gate.arriving i c')).
      cbn [Gate.check]. rewrite (observe_event fl e He). exact Hck. }
    destruct e; try (apply Hother; [reflexivity | exact Hc]).
    clear Hother.
    set (fl1 := {| Gate.holder := Gate.holder fl;
                   Gate.awaited := surfaced (reply E (Gate.past fl) message);
                   Gate.queried := true; Gate.excused := Gate.excused fl;
                   Gate.past := Gate.past fl ++ [EvQuery message] |}).
    destruct (advance_inside k (surfaced (reply E (history w) message)) s w1 fl1 Hc)
      as (obs & s' & w' & c' & fl' & Hadv & Hck & Hp & Hex' & Hcase);
      [simpl; rewrite Hpast; reflexivity | exact Hh
       | simpl; rewrite Hpast; reflexivity | exact Hex |].
    exists (Gate.OEvent i (EvQuery message) :: obs), s', w', c', fl'.
    simpl Gate.advance. fold w1. rewrite Hadv. split; [reflexivity |].
    split; [| auto].
    change ((Gate.OEvent i (EvQuery message) :: obs) ++ Gate.arriving i c')
      with (Gate.OEvent i (EvQuery message) :: (obs ++ Gate.arriving i c')).
    cbn [Gate.check Gate.observe].
    rewrite bool_decide_eq_true_2 by exact Hh. rewrite Hq. exact Hck.
  - set (w1 := {| files := fs; history := history w |}).
    destruct (IH s w1 fl Hc Hpast Hh Haw Hq Hex)
      as (obs & s' & w' & c' & fl' & Hadv & Hck & Hp & Hex' & Hcase).
    exists obs, s', w', c', fl'. simpl. fold w1. rewrite Hadv. auto.
  - destruct (advance_calm k (with_query_lock false s) w
                (Gate.takeoff (Gate.past fl)) Hc Hpast)
      as (obs & s' & w' & c' & Hadv & Hck & Hl & Hc'); [discriminate |].
    exists (Gate.OLeave i :: obs), s', w', c',
      (Gate.with_past (history w') (Gate.takeoff (Gate.past fl))).
    simpl Gate.advance. rewrite Hadv. split; [reflexivity |].
    split; [| split; [reflexivity | split; [reflexivity |]]].
    + change ((Gate.OLeave i :: obs) ++ Gate.arriving i c')
        with (Gate.OLeave i :: (obs ++ Gate.arriving i c')).
      cbn [Gate.check]. rewrite (observe_leave fl Hh (or_introl Haw)). exact Hck.
    + right. split; [reflexivity |]. split; [exact Hc' | exact Hl].
Qed.

End Advance.

(** *** The invariant of the runs *)

Section Invariant.
Context (E : Env) (h : list Event).

Lemma fire_keeps_inv (st st' : Gate.State) (fl : Gate.Flight) (mv : Gate.Move) :
  Gate.gate_inv E h st fl -> Gate.fire mv st = Some st' ->
  exists fl', Gate.gate_inv E h st' fl'.
Proof.
  intros (Hck & Hpast & Hex & Hlock & Htasks) Hfire.
  destruct mv as [i | i]; cbn [Gate.fire] in Hfire;
    destruct (Gate.tasks st !! i) as [c |] eqn:Hi; try discriminate;
    destruct c as [| | | | | | | pt k n]; try discriminate;
    pose proof (Htasks i _ Hi) as Hc.
  - destruct (Gate.enabled pt (Gate.self st)) eqn:Hen; [| discriminate].
    destruct (bool_decide (Gate.holder fl = Some i)) eqn:Hh.
    + apply bool_decide_eq_true_1 in Hh.
      assert (Hk : Gate.inside E k (Gate.awaited fl) /\
                   Gate.resumed pt i (Gate.self st) = ([], Gate.self st)).
      { destruct pt; simpl in Hc; try contradiction; destruct Hc; auto. }
      destruct Hk as (Hk & Hres). rewrite Hres in Hfire.
      destruct (advance_inside E false i k _ (Gate.self st) (Gate.outside st) fl
                  Hk Hpast Hh eq_refl Hex)
        as (obs & s' & w' & c' & fl' & Hadv & Hck' & Hp' & Hex' & Hcase).
      rewrite Hadv in Hfire. injection Hfire as <-.
      exists fl'. unfold Gate.gate_inv.
      cbn [Gate.log Gate.self Gate.outside Gate.tasks].
      split; [rewrite check_app, Hck; exact Hck' |].
      split; [exact Hp' |]. split; [exact Hex' |]. split.
      * destruct Hcase as [(Hh' & _ & Hl) | (Hh' & _ & Hl)];
          rewrite Hl, Hh'; [rewrite Hlock, Hh |]; reflexivity.
      * intros j cj Hj.
        apply list_lookup_insert_Some in Hj as [(<- & <- & _) | (Hne & Hj)].
        { destruct Hcase as [(Hh' & Hheld & _) | (Hh' & Hcalm & _)]; rewrite Hh'.
          - rewrite bool_decide_eq_true_2 by reflexivity. exact Hheld.
          - rewrite bool_decide_eq_false_2 by discriminate. exact Hcalm. }
        pose proof (Htasks j cj Hj) as Hcj.
        rewrite bool_decide_eq_false_2 in Hcj by congruence.
        rewrite bool_decide_eq_false_2; [exact Hcj |].
        destruct Hcase as [(Hh' & _) | (Hh' & _)]; rewrite Hh'; congruence.
    + apply bool_decide_eq_false_1 in Hh.
      assert (Hdec : pt = Gate.PAcquire \/ pt <> Gate.PAcquire)
        by (destruct pt; first [left; reflexivity | right; discriminate]).
      destruct Hdec as [-> | Hpt].
      * simpl in Hc. destruct Hc as [Hk _].
        simpl in Hen. apply negb_true_iff in Hen.
        assert (Hnone : Gate.holder fl = None).
        { rewrite Hen in Hlock. symmetry in Hlock.
          apply bool_decide_eq_false_1 in Hlock.
          destruct (Gate.holder fl); [exfalso; eauto | reflexivity]. }
        cbn [Gate.resumed] in Hfire.
        set (fl1 := {| Gate.holder := Some i; Gate.awaited := [];
                       Gate.queried := false; Gate.excused := false;
                       Gate.past := Gate.past fl |}).
        destruct (advance_entering E false i k (with_query_lock true (Gate.self st))
                    (Gate.outside st) fl1 (Hk _ _) Hpast eq_refl eq_refl eq_refl
                    eq_refl)
          as (obs & s' & w' & c' & fl' & Hadv & Hck' & Hp' & Hex' & Hcase).
        rewrite Hadv in Hfire. injection Hfire as <-.
        exists fl'. unfold Gate.gate_inv.
        cbn [Gate.log Gate.self Gate.outside Gate.tasks].
        split.
        { rewrite check_app, Hck.
          change ([Gate.OEnter i] ++ obs ++ Gate.arriving i c')
            with (Gate.OEnter i :: (obs ++ Gate.arriving i c')).
          cbn [Gate.check Gate.observe]. rewrite Hnone. exact Hck'. }
        split; [exact Hp' |]. split; [exact Hex' |]. split.
        { destruct Hcase as [(Hh' & _ & Hl) | (Hh' & _ & Hl)];
            rewrite Hl, Hh'; reflexivity. }
        intros j cj Hj.
        apply list_lookup_insert_Some in Hj as [(<- & <- & _) | (Hne & Hj)].
        { destruct Hcase as [(Hh' & Hheld & _) | (Hh' & Hcalm & _)]; rewrite Hh'.
          - rewrite bool_decide_eq_true_2 by reflexivity. exact Hheld.
          - rewrite bool_decide_eq_false_2 by discriminate. exact Hcalm. }
        pose proof (Htasks j cj Hj) as Hcj.
        rewrite bool_decide_eq_false_2 in Hcj by congruence.
        rewrite bool_decide_eq_false_2; [exact Hcj |].
        destruct Hcase as [(Hh' & _) | (Hh' & _)]; rewrite Hh'; congruence.
      * assert (Hk : Gate.calm E k /\
                     Gate.resumed pt i (Gate.self st) = ([], Gate.self st)).
        { destruct pt; simpl in Hc; try congruence; destruct Hc; auto. }
        destruct Hk as (Hk & Hres). rewrite Hres in Hfire.
        destruct (advance_calm E false i k (Gate.self st) (Gate.outside st) fl
                    Hk Hpast Hh)
          as (obs & s' & w' & c' & Hadv & Hck' & Hl & Hc').
        rewrite Hadv in Hfire. injection Hfire as <-.
        exists (Gate.with_past (history w') fl). unfold Gate.gate_inv.
        cbn [Gate.log Gate.self Gate.outside Gate.tasks Gate.with_past
             Gate.past Gate.holder Gate.excused Gate.awaited].
        split; [rewrite check_app, Hck; exact Hck' |].
        split; [reflexivity |]. split; [exact Hex |].
        split; [rewrite Hl; exact Hlock |].
        intros j cj Hj.
        apply list_lookup_insert_Some in Hj as [(<- & <- & _) | (Hne & Hj)].
        { rewrite bool_decide_eq_false_2 by exact Hh. exact Hc'. }
        exact (Htasks j cj Hj).
  - destruct (Gate.unwinding i n (Gate.self st)) as [obs s'] eqn:Hun.
    injection Hfire as <-.
    destruct (bool_decide (Gate.holder fl = Some i)) eqn:Hh.
    + apply bool_decide_eq_true_1 in Hh.
      assert (Hn : n = 1%nat)
        by (destruct pt; simpl in Hc; try contradiction; apply Hc).
      subst n. simpl in Hun. injection Hun as <- <-.
      exists (Gate.takeoff (Gate.past fl)). unfold Gate.gate_inv.
      cbn [Gate.log Gate.self Gate.outside Gate.tasks Gate.takeoff
           Gate.past Gate.holder Gate.excused Gate.awaited].
      split.
      { rewrite check_app, Hck. cbn [app Gate.check Gate.observe negb andb].
        rewrite bool_decide_eq_true_2 by exact Hh.
        cbn [andb Gate.holder Gate.excused Gate.awaited orb].
        rewrite bool_decide_eq_true_2 by exact Hh.
        rewrite orb_true_r. reflexivity. }
      split; [exact Hpast |]. split; [reflexivity |]. split; [reflexivity |].
      intros j cj Hj. rewrite bool_decide_eq_false_2 by discriminate.
      apply list_lookup_insert_Some in Hj as [(<- & <- & _) | (Hne & Hj)];
        [exact I |].
      pose proof (Htasks j cj Hj) as Hcj.
      rewrite bool_decide_eq_false_2 in Hcj by congruence. exact Hcj.
    + apply bool_decide_eq_false_1 in Hh.
      assert (Hn : n = 0%nat) by (destruct pt; simpl in Hc; apply Hc).
      subst n. simpl in Hun. injection Hun as <- <-.
      exists fl. unfold Gate.gate_inv.
      cbn [Gate.log Gate.self Gate.outside Gate.tasks].
      split.
      { rewrite check_app, Hck. cbn [app Gate.check Gate.observe].
        rewrite bool_decide_eq_false_2 by exact Hh. reflexivity. }
      split; [exact Hpast |]. split; [exact Hex |]. split; [exact Hlock |].
      intros j cj Hj.
      apply list_lookup_insert_Some in Hj as [(<- & <- & _) | (Hne & Hj)].
      * rewrite bool_decide_eq_false_2 by exact Hh. exact I.
      * exact (Htasks j cj Hj).
Qed.

End Invariant.

Lemma initial_inv (E : Env) (st : Gate.State) :
  Gate.initial E st ->
  Gate.gate_inv E (history (Gate.outside st)) st
    (Gate.takeoff (history (Gate.outside st))).
Proof.
  intros (Hlock & Hcalls & Hlog). unfold Gate.gate_inv. rewrite Hlog, Hlock.
  repeat split.
  intros i c Hi. simpl.
  rewrite Forall_forall in Hcalls.
  destruct (Hcalls c) as [-> | [user_message ->]].
  - apply list_elem_of_lookup. eauto.
  - simpl. split; [apply calm_start | reflexivity].
  - simpl. split; [apply calm_send_message | reflexivity].
Qed.

Lemma fire_all_steps (mvs : list Gate.Move) (st st' : Gate.State) :
  Gate.fire_all mvs st = Some st' -> rtc Gate.step st st'.
Proof.
  revert st. induction mvs as [| mv mvs IH]; intros st; simpl.
  - intros [= <-]. apply rtc_refl.
  - destruct (Gate.fire mv st) as [st1 |] eqn:Hfire; [| discriminate].
    intros Hrest. apply (rtc_l _ _ st1); [exists mv; exact Hfire | apply IH, Hrest].
Qed.

Lemma reachable_inv (E : Env) (st0 st : Gate.State) :
  Gate.initial E st0 -> rtc Gate.step st0 st ->
  exists fl, Gate.gate_inv E (history (Gate.outside st0)) st fl.
Proof.
  intros Hinit Hrun. revert st Hrun.
  apply (rtc_ind_r (fun st => exists fl,
                      Gate.gate_inv E (history (Gate.outside st0)) st fl)).
  - eexists. apply initial_inv, Hinit.
  - intros st1 st2 _ [mv Hfire] [fl Hinv].
    apply (fire_keeps_inv E _ st1 st2 fl mv Hinv Hfire).
Qed.

Lemma check_without_abandon (E : Env) (fl : Gate.Flight) (obs : list Gate.Obs) :
  existsb Gate.abandons obs = false ->
  Gate.check E true fl obs = Gate.check E false fl obs.
Proof.
  revert fl. induction obs as [| o obs IH]; intros fl; [reflexivity |].
  simpl. intros Hno. apply orb_false_iff in Hno as [Ho Hobs].
  assert (Hsame : Gate.observe E true fl o = Gate.observe E false fl o)
    by (destruct o; try reflexivity; discriminate Ho).
  rewrite Hsame. destruct (Gate.observe E false fl o); [apply IH, Hobs | reflexivity].
Qed.

Lemma called_initial : Gate.initial Runs.talkative Runs.called.
Proof.
  unfold Gate.initial. split; [reflexivity |]. split; [| reflexivity].
  apply Forall_cons. split; [left; reflexivity |].
  apply Forall_cons. split; [| apply Forall_nil; exact I].
  right. exists Runs.QUESTION. reflexivity.
Qed.

(** *** Calls taking turns at the gate *)




(** * Further properties *)

(** ** Relations the methods keep *)

Section Keeps.
Context (allowed : Event -> bool) (R : Session * World -> Session * World -> Prop).
Context (HR : step_closed allowed R).
Context (Hallowed : forall e, acquiring_event e = true -> allowed e = true).

Lemma keeps_ret {A} (a : A) : gen_keeps R (mret a).
Proof. intros s w. apply (closed_refl _ _ HR). Qed.

Lemma keeps_bind {A B} (m : Gen A) (f : A -> Gen B) :
  gen_keeps R m -> (forall a, gen_keeps R (f a)) -> gen_keeps R (m ≫= f).
Proof.
  intros Hm Hf s w. specialize (Hm s w).
  unfold mbind, gen_bind, session_of, world_of in *.
  destruct (m s w) as [[[out s'] w'] [a | e |]]; simpl in *; try exact Hm.
  specialize (Hf a s' w'). unfold session_of, world_of in Hf.
  destruct (f a s' w') as [[[out' s''] w''] r]. simpl in *.
  apply (closed_trans _ _ HR _ _ _ Hm Hf).
Qed.

Lemma keeps_yield (f : Fragment) : gen_keeps R (yield f).
Proof. intros s w. apply (closed_refl _ _ HR). Qed.

Lemma keeps_raise {A} (e : exn) : gen_keeps R (raise (A := A) e).
Proof. intros s w. apply (closed_refl _ _ HR). Qed.

Lemma keeps_get_self : gen_keeps R get_self.
Proof. intros s w. apply (closed_refl _ _ HR). Qed.

Lemma keeps_get_world : gen_keeps R get_world.
Proof. intros s w. apply (closed_refl _ _ HR). Qed.

Lemma keeps_call {A} (r : res A) : gen_keeps R (call r).
Proof. destruct r; [apply keeps_ret | apply keeps_raise]. Qed.

Lemma keeps_event (e : Event) : allowed e = true -> gen_keeps R (event e).
Proof. intros He s w. apply (closed_event _ _ HR), He. Qed.

Lemma keeps_try_except {A} (body : Gen A) (handler : exn -> Gen A) :
  gen_keeps R body -> (forall e, gen_keeps R (handler e)) ->
  gen_keeps R (try_except body handler).
Proof.
  intros Hm Hf s w. specialize (Hm s w).
  unfold try_except, session_of, world_of in *.
  destruct (body s w) as [[[out s'] w'] [a | e |]]; simpl in *; try exact Hm.
  specialize (Hf e s' w'). unfold session_of, world_of in Hf.
  destruct (handler e s' w') as [[[out' s''] w''] r]. simpl in *.
  apply (closed_trans _ _ HR _ _ _ Hm Hf).
Qed.

Lemma keeps_try_finally {A} (body : Gen A) (cleanup : Gen unit) :
  gen_keeps R body -> gen_keeps R cleanup -> gen_keeps R (try_finally body cleanup).
Proof.
  intros Hm Hf s w. specialize (Hm s w).
  unfold try_finally, session_of, world_of in *.
  destruct (body s w) as [[[out s'] w'] r]. simpl in *.
  specialize (Hf s' w'). unfold session_of, world_of in Hf.
  destruct (cleanup s' w') as [[[out' s''] w''] r'].
  destruct r; simpl in *; try exact Hm; apply (closed_trans _ _ HR _ _ _ Hm Hf).
Qed.

Lemma keeps_lock (b : bool) : gen_keeps R (update (with_query_lock b)).
Proof. intros s w. apply (closed_lock _ _ HR). Qed.

Lemma keeps_gate {A} (body : Gen A) :
  gen_keeps R body -> gen_keeps R (async_with_query_lock body).
Proof.
  intros Hm s w. unfold async_with_query_lock.
  destruct (_query_lock s); [apply (closed_refl _ _ HR) |].
  apply keeps_try_finally; [| apply keeps_lock].
  apply keeps_bind; [apply keeps_lock | intros _; exact Hm].
Qed.

Lemma keeps_for {A} (body : A -> Gen unit) (xs : list A) :
  (forall x, gen_keeps R (body x)) -> gen_keeps R (gen_for body xs).
Proof.
  intros Hbody. induction xs as [| x xs IH]; [apply keeps_ret |].
  apply keeps_bind; [apply Hbody | intros _; exact IH].
Qed.

Section WithEnv.
Context (E : Env).

Lemma keeps_append_message (r : Role) (c : pystr) :
  gen_keeps R (append_message E r c).
Proof. intros s w. apply (closed_append _ _ HR). Qed.

Lemma keeps_query_claude (message : pystr) : gen_keeps R (_query_claude E message).
Proof.
  unfold _query_claude.
  apply keeps_bind; [apply keeps_get_self | intros s].
  destruct (client s); [| apply keeps_ret].
  apply keeps_bind; [apply keeps_get_world | intros w]. cbv zeta.
  apply keeps_bind; [apply keeps_event, Hallowed; reflexivity | intros _].
  destruct (query_raises _); [apply keeps_raise |].
  apply keeps_bind.
  - apply keeps_for. intros msg. apply keeps_for. intros t.
    apply keeps_bind; [apply keeps_yield | intros _; apply keeps_append_message].
  - intros _. destruct (stream_raises _); [apply keeps_raise | apply keeps_ret].
Qed.

Lemma keeps_write_settings (p : path) : gen_keeps R (write_settings E p).
Proof.
  intros s w. unfold write_settings, session_of, world_of. simpl.
  eapply (closed_trans _ _ HR).
  - apply (closed_event _ _ HR s w (EvWrite p)), Hallowed. reflexivity.
  - apply (closed_write _ _ HR s
             {| files := files w; history := history w ++ [EvWrite p] |}).
Qed.

Lemma keeps_open_client (options : ClaudeAgentOptions) :
  gen_keeps R (open_client E options).
Proof.
  unfold open_client.
  apply keeps_bind; [apply keeps_get_world | intros w].
  apply keeps_bind; [apply keeps_event, Hallowed; reflexivity | intros _].
  assert (Hset : gen_keeps R (update (with_client (Some (ClaudeSDKClient options)))))
    by (intros s' w'; apply (closed_client _ _ HR)).
  assert (Henter : gen_keeps R (event EvClientEnter))
    by (apply keeps_event, Hallowed; reflexivity).
  destruct (connect E (history w)).
  - apply keeps_bind; [exact Hset | intros _].
    apply keeps_bind; [exact Henter | intros _].
    intros s' w'. apply (closed_entered _ _ HR).
  - apply keeps_raise.
  - apply keeps_bind; [exact Hset | intros _].
    apply keeps_bind; [exact Henter | intros _]. apply keeps_raise.
Qed.

Lemma keeps_start : gen_keeps R (start E).
Proof.
  unfold start.
  destruct (which_claude E) as [[| c rest] |]; try apply keeps_yield.
  apply keeps_bind; [apply keeps_yield | intros _].
  apply keeps_bind; [apply keeps_get_self | intros s].
  apply keeps_bind; [apply keeps_call | intros ctx].
  destruct (str_in NO_SESSIONS_MARKER ctx).
  { apply keeps_bind; [apply keeps_yield | intros _].
    apply keeps_bind; [apply keeps_yield | intros _].
    intros s' w'. apply (closed_complete _ _ HR). }
  apply keeps_bind; [apply keeps_get_world | intros w].
  apply keeps_bind; [apply keeps_call | intros cfg]. cbv zeta.
  apply keeps_bind; [intros s' w'; apply (closed_settings _ _ HR) | intros _].
  apply keeps_bind; [apply keeps_write_settings | intros _].
  apply keeps_bind.
  - apply keeps_try_except.
    + apply keeps_bind; [apply keeps_open_client | intros _; apply keeps_ret].
    + intros _. apply keeps_bind; [apply keeps_event, Hallowed; reflexivity | intros _].
      apply keeps_bind; [apply keeps_yield | intros _; apply keeps_ret].
  - intros [|]; [| apply keeps_ret].
    apply keeps_try_except.
    + apply keeps_bind; [apply keeps_gate, keeps_query_claude | intros _].
      apply keeps_bind; [apply keeps_yield | intros _].
      apply keeps_bind; [intros s' w'; apply (closed_complete _ _ HR) | intros _].
      apply keeps_yield.
    + intros _. apply keeps_bind; [apply keeps_event, Hallowed; reflexivity | intros _].
      apply keeps_yield.
Qed.

Lemma keeps_send_message (user_message : pystr) :
  gen_keeps R (send_message E user_message).
Proof.
  unfold send_message.
  apply keeps_bind; [apply keeps_get_self | intros s].
  destruct (client s); [| apply keeps_yield].
  apply keeps_bind; [apply keeps_append_message | intros _].
  apply keeps_try_except.
  - apply keeps_bind; [apply keeps_gate, keeps_query_claude | intros _].
    apply keeps_yield.
  - intros _. apply keeps_bind; [apply keeps_event, Hallowed; reflexivity | intros _].
    apply keeps_yield.
Qed.

End WithEnv.
End Keeps.

Section KeepsClose.
Context (allowed : Event -> bool) (R : Session * World -> Session * World -> Prop).
Context (HR : step_closed allowed R) (HC : close_closed R).
Context (Hallowed : forall e, session_event e = true -> allowed e = true).
Context (E : Env).

Lemma keeps_close : gen_keeps R (close E).
Proof.
  assert (Hacq : forall e, acquiring_event e = true -> allowed e = true).
  { intros e He. apply Hallowed. destruct e; try discriminate He; reflexivity. }
  unfold close.
  apply (keeps_bind allowed R HR); [apply (keeps_get_self allowed R HR) | intros s].
  apply (keeps_bind allowed R HR).
  - destruct (bool_decide (is_Some (client s)) && _client_entered s);
      [| apply (keeps_ret allowed R HR)].
    apply (keeps_try_finally allowed R HR).
    + apply (keeps_try_except allowed R HR).
      * apply (keeps_bind allowed R HR);
          [apply (keeps_get_world allowed R HR) | intros w].
        apply (keeps_bind allowed R HR);
          [apply (keeps_event allowed R HR), Hallowed; reflexivity | intros _].
        destruct (exit_raises E (history w));
          [apply (keeps_raise allowed R HR) | apply (keeps_ret allowed R HR)].
      * intros _. apply (keeps_event allowed R HR), Hallowed. reflexivity.
    + intros s' w'. apply (closed_disconnect _ HC).
  - intros _.
    apply (keeps_bind allowed R HR); [apply (keeps_get_self allowed R HR) | intros s'].
    destruct (_settings_file s') as [p |]; [| apply (keeps_ret allowed R HR)].
    apply (keeps_bind allowed R HR); [apply (keeps_get_world allowed R HR) | intros w].
    apply (keeps_bind allowed R HR); [apply (keeps_call allowed R HR) | intros there].
    destruct there; [| apply (keeps_ret allowed R HR)].
    apply (keeps_try_except allowed R HR).
    + destruct (unlink_raises E p); [apply (keeps_raise allowed R HR) |].
      intros s0 w0. unfold session_of, world_of. simpl.
      eapply (closed_trans _ _ HR).
      * apply (closed_event _ _ HR s0 w0 (EvUnlink p)), Hallowed. reflexivity.
      * apply (closed_files _ HC).
    + intros _. apply (keeps_event allowed R HR), Hallowed. reflexivity.
Qed.

End KeepsClose.

(** ** The life of a session *)

Lemma forallb_session_app (evs1 evs2 : list Event) (f : Event -> bool) :
  forallb f evs1 = true -> forallb f evs2 = true -> forallb f (evs1 ++ evs2) = true.
Proof. intros H1 H2. rewrite forallb_app, H1, H2. reflexivity. Qed.

Lemma evolves_step_closed : step_closed session_event evolves.
Proof.
  split.
  - intros [s w]. unfold evolves. simpl. repeat split; try tauto.
    + exists []. symmetry. apply app_nil_r.
    + exists []. split; [symmetry; apply app_nil_r | reflexivity].
  - intros [s1 w1] [s2 w2] [s3 w3]. unfold evolves. simpl.
    intros (Hn1 & Hd1 & Hc1 & Hf1 & [t1 Ht1] & (e1 & He1 & Ha1))
           (Hn2 & Hd2 & Hc2 & Hf2 & [t2 Ht2] & (e2 & He2 & Ha2)).
    repeat split; try congruence; try tauto.
    + exists (t1 ++ t2). rewrite Ht2, Ht1, app_assoc. reflexivity.
    + exists (e1 ++ e2). split; [rewrite He2, He1, app_assoc; reflexivity |].
      apply forallb_session_app; assumption.
  - intros s w. unfold evolves. simpl. repeat split.
    + exists []. symmetry. apply app_nil_r.
    + exists []. split; [symmetry; apply app_nil_r | reflexivity].
  - intros s w p. unfold evolves. simpl. repeat split; try tauto.
    + exists []. symmetry. apply app_nil_r.
    + exists []. split; [symmetry; apply app_nil_r | reflexivity].
  - intros s w c. unfold evolves. simpl. repeat split; try tauto.
    + exists []. symmetry. apply app_nil_r.
    + exists []. split; [symmetry; apply app_nil_r | reflexivity].
  - intros s w. unfold evolves. simpl. repeat split; try tauto.
    + exists []. symmetry. apply app_nil_r.
    + exists []. split; [symmetry; apply app_nil_r | reflexivity].
  - intros s w b. unfold evolves. simpl. repeat split; try tauto.
    + exists []. symmetry. apply app_nil_r.
    + exists []. split; [symmetry; apply app_nil_r | reflexivity].
  - intros s w m. unfold evolves. simpl. repeat split; try tauto.
    + exists [m]. reflexivity.
    + exists []. split; [symmetry; apply app_nil_r | reflexivity].
  - intros s w e He. unfold evolves. simpl. repeat split; try tauto.
    + exists []. symmetry. apply app_nil_r.
    + exists [e]. split; [reflexivity | simpl; rewrite He; reflexivity].
  - intros s w p c. unfold evolves. simpl. repeat split; try tauto.
    + exists []. symmetry. apply app_nil_r.
    + exists []. split; [symmetry; apply app_nil_r | reflexivity].
Qed.

Lemma evolves_close_closed : close_closed evolves.
Proof.
  split.
  - intros s w. unfold evolves. simpl. repeat split; try tauto.
    + exists []. symmetry. apply app_nil_r.
    + exists []. split; [symmetry; apply app_nil_r | reflexivity].
  - intros s w fs. unfold evolves. simpl. repeat split; try tauto.
    + exists []. symmetry. apply app_nil_r.
    + exists []. split; [symmetry; apply app_nil_r | reflexivity].
Qed.

Lemma acquiring_is_session_event (e : Event) :
  acquiring_event e = true -> session_event e = true.
Proof. destruct e; intros H; try discriminate H; reflexivity. Qed.

Lemma start_evolves (E : Env) (s : Session) (w : World) :
  evolves (s, w) (session_of (start E s w), world_of (start E s w)).
Proof.
  apply (keeps_start session_event evolves evolves_step_closed
           acquiring_is_session_event E).
Qed.

Lemma send_message_evolves (E : Env) (m : pystr) (s : Session) (w : World) :
  evolves (s, w) (session_of (send_message E m s w), world_of (send_message E m s w)).
Proof.
  apply (keeps_send_message session_event evolves evolves_step_closed
           acquiring_is_session_event E).
Qed.

Lemma close_evolves (E : Env) (s : Session) (w : World) :
  evolves (s, w) (session_of (close E s w), world_of (close E s w)).
Proof.
  apply (keeps_close session_event evolves evolves_step_closed evolves_close_closed
           (fun e H => H) E).
Qed.

(** X1: the completion flag is monotonic: once it is set, no call of
    [start], [send_message] or [close] resets it, however the call ends. *)
Theorem completion_is_never_reset (E : Env) (user_message : pystr)
    (s : Session) (w : World) :
  complete s = true ->
  complete (session_of (start E s w)) = true /\
  complete (session_of (send_message E user_message s w)) = true /\
  complete (session_of (close E s w)) = true.
Proof.
  intros Hdone.
  destruct (start_evolves E s w) as (_ & _ & _ & H1 & _).
  destruct (send_message_evolves E user_message s w) as (_ & _ & _ & H2 & _).
  destruct (close_evolves E s w) as (_ & _ & _ & H3 & _).
  simpl in *. auto.
Qed.

Lemma completion_is_never_reset_witness :
  complete (session_of (start Examples.flaky Examples.analysed Examples.settled))
    = true /\
  complete (session_of (send_message Examples.flaky (lit "Why?") Examples.analysed
                          Examples.settled)) = true /\
  complete (session_of (close Examples.flaky Examples.analysed Examples.settled))
    = true.
Proof.
  apply (completion_is_never_reset Examples.flaky (lit "Why?") Examples.analysed
           Examples.settled).
  reflexivity.
Defined.

(** X2: the turns of a session are only appended to: after [start] and after
    [send_message], however they end, the turns there were are still there,
    in order, before the new ones; [close] leaves the turns as they are. *)
Theorem turns_are_only_appended (E : Env) (user_message : pystr)
    (s : Session) (w : World) :
  (exists turns, messages (session_of (start E s w)) = messages s ++ turns) /\
  (exists turns,
     messages (session_of (send_message E user_message s w)) = messages s ++ turns) /\
  messages (session_of (close E s w)) = messages s.
Proof.
  destruct (start_evolves E s w) as (_ & _ & _ & _ & H1 & _).
  destruct (send_message_evolves E user_message s w) as (_ & _ & _ & _ & H2 & _).
  split; [exact H1 |]. split; [exact H2 |].
  unfold close, try_except, try_finally, call, path_exists, session_of.
  unfold mbind, gen_bind, get_self, get_world, event, update, set_files, raise,
    mret, gen_ret, res_ret.
  destruct s as [name dir [c |] ms done created conv [|] [p |] lock]; simpl;
    repeat match goal with
           | |- context [if ?b then _ else _] => destruct b; simpl
           end; reflexivity.
Qed.

Lemma holds_on_step_closed : step_closed acquiring_event holds_on.
Proof.
  assert (Hrefl : forall s s' w, holds_on (s, w) (s', w)).
  { intros s s' w. split; [tauto |]. exists []. split; [symmetry; apply app_nil_r |].
    reflexivity. }
  split; try (intros; apply Hrefl).
  - intros [s w]. apply Hrefl.
  - intros [s1 w1] [s2 w2] [s3 w3]. unfold holds_on. simpl.
    intros (Hf1 & e1 & He1 & Ha1) (Hf2 & e2 & He2 & Ha2). split; [auto |].
    exists (e1 ++ e2). split; [rewrite He2, He1, app_assoc; reflexivity |].
    apply forallb_session_app; assumption.
  - intros s w e He. split; [simpl; tauto |]. exists [e]. split; [reflexivity |].
    simpl. rewrite He. reflexivity.
  - intros s w p c. split.
    + simpl. intros q Hq. destruct (decide (p = q)) as [-> | Hne].
      * rewrite lookup_insert_eq. eauto.
      * rewrite lookup_insert_ne by exact Hne. exact Hq.
    + exists []. split; [symmetry; apply app_nil_r | reflexivity].
Qed.

(** X3: only [close] lets go of anything: after [start] and after
    [send_message], however they end, every file that was on disk is still on
    disk, and what happened in between are acquiring events (a client
    constructed or entered, a query sent, a file written, a log entry), so no
    client has been exited and no file removed. *)
Theorem only_close_releases (E : Env) (user_message : pystr)
    (s : Session) (w : World) :
  holds_on (s, w) (session_of (start E s w), world_of (start E s w)) /\
  holds_on (s, w) (session_of (send_message E user_message s w),
                   world_of (send_message E user_message s w)).
Proof.
  split.
  - apply (keeps_start acquiring_event holds_on holds_on_step_closed (fun e H => H) E).
  - apply (keeps_send_message acquiring_event holds_on holds_on_step_closed
             (fun e H => H) E).
Qed.

(** ** Queries, text by text *)

Section QueryStream.
Context (E : Env).

Lemma texts_loop_turns (texts : list pystr) (s : Session) (w : World) :
  gen_for (surface_text E) texts s w =
    (map FText texts,
     with_messages
       (messages s ++ assistant_turns E (history w) (length (messages s)) texts) s,
     w, Done tt).
Proof.
  set (body := surface_text E).
  revert s. induction texts as [| t texts IH]; intros s.
  - simpl. rewrite app_nil_r, with_messages_id. reflexivity.
  - pose (entry := {| role := Assistant; content := t;
                      timestamp := now_iso E (history w) (length (messages s)) |}).
    change (gen_for body (t :: texts) s w)
      with (match body t s w with
            | (out, s', w', Done a) =>
              match gen_for body texts s' w' with
              | (out', s'', w'', r) => (out ++ out', s'', w'', r)
              end
            | (out, s', w', Raised e) => (out, s', w', Raised e)
            | (out, s', w', Waiting) => (out, s', w', Waiting)
            end).
    change (body t s w)
      with ([FText t], with_messages (messages s ++ [entry]) s, w, Done tt).
    cbv beta iota. rewrite IH. simpl messages.
    rewrite length_app, Nat.add_1_r, <- app_assoc. reflexivity.
Qed.

Lemma assistant_turns_app (h : list Event) (n : nat) (t1 t2 : list pystr) :
  assistant_turns E h n (t1 ++ t2) =
  assistant_turns E h n t1 ++ assistant_turns E h (n + length t1) t2.
Proof.
  revert n. induction t1 as [| t t1 IH]; intros n; simpl.
  - rewrite Nat.add_0_r. reflexivity.
  - rewrite IH, Nat.add_succ_r. reflexivity.
Qed.

Lemma assistant_turns_length (h : list Event) (n : nat) (texts : list pystr) :
  length (assistant_turns E h n texts) = length texts.
Proof. revert n. induction texts; intros n; simpl; [| rewrite IHtexts]; reflexivity. Qed.

Lemma assistant_turns_content (h : list Event) (n : nat) (texts : list pystr) :
  map content (assistant_turns E h n texts) = texts.
Proof. revert n. induction texts; intros n; simpl; [| rewrite IHtexts]; reflexivity. Qed.

Lemma assistant_turns_roles (h : list Event) (n : nat) (texts : list pystr) :
  Forall is_assistant (assistant_turns E h n texts).
Proof.
  revert n. induction texts; intros n; simpl; constructor; [reflexivity | apply IHtexts].
Qed.

Lemma stream_loop_turns (msgs : list SDKMessage) (s : Session) (w : World) :
  gen_for (surface_message E) msgs s w =
    (map FText (concat (map surfaced_texts msgs)),
     with_messages
       (messages s ++
        assistant_turns E (history w) (length (messages s))
          (concat (map surfaced_texts msgs))) s,
     w, Done tt).
Proof.
  set (body := surface_message E).
  revert s. induction msgs as [| msg msgs IH]; intros s.
  - simpl. rewrite app_nil_r, with_messages_id. reflexivity.
  - change (gen_for body (msg :: msgs) s w)
      with (match body msg s w with
            | (out, s', w', Done a) =>
              match gen_for body msgs s' w' with
              | (out', s'', w'', r) => (out ++ out', s'', w'', r)
              end
            | (out, s', w', Raised e) => (out, s', w', Raised e)
            | (out, s', w', Waiting) => (out, s', w', Waiting)
            end).
    unfold body at 1, surface_message. rewrite texts_loop_turns. cbv beta iota.
    rewrite IH. simpl messages. simpl concat.
    rewrite map_app, assistant_turns_app, length_app, assistant_turns_length,
      <- app_assoc.
    reflexivity.
Qed.

(** What one query does on a session with a client. *)
Lemma query_claude_stream (message : pystr) (s : Session) (w : World) (c : Client) :
  client s = Some c ->
  let r := reply E (history w) message in
  let sent := {| files := files w; history := history w ++ [EvQuery message] |} in
  _query_claude E message s w =
    (map FText (surfaced r),
     with_messages
       (messages s ++
        assistant_turns E (history sent) (length (messages s)) (surfaced r)) s,
     sent, query_end r).
Proof.
  intros Hc r sent. unfold _query_claude, query_end, surfaced.
  unfold mbind, gen_bind, get_self, get_world, event, raise, mret, gen_ret.
  rewrite Hc. cbv zeta. fold r.
  destruct (query_raises r) as [e |].
  - simpl. rewrite (app_nil_r (messages s)), with_messages_id. reflexivity.
  - simpl. fold sent. rewrite stream_loop_turns.
    destruct (stream_raises r); simpl; rewrite ?app_nil_r; reflexivity.
Qed.

Lemma gated_query_stream (message : pystr) (s : Session) (w : World) (c : Client) :
  client s = Some c ->
  _query_lock s = false ->
  let r := reply E (history w) message in
  let sent := {| files := files w; history := history w ++ [EvQuery message] |} in
  async_with_query_lock (_query_claude E message) s w =
    (map FText (surfaced r),
     with_messages
       (messages s ++
        assistant_turns E (history sent) (length (messages s)) (surfaced r)) s,
     sent, query_end r).
Proof.
  intros Hc Hfree r sent.
  unfold async_with_query_lock. rewrite Hfree.
  unfold try_finally, mbind, gen_bind, update.
  rewrite (query_claude_stream message (with_query_lock true s) w c Hc).
  fold r. fold sent. unfold query_end.
  destruct (query_raises r); [| destruct (stream_raises r)];
    simpl; rewrite ?app_nil_r; destruct s; simpl in *; subst; reflexivity.
Qed.

End QueryStream.

Lemma surfaced_texts_spec (msg : SDKMessage) (t : pystr) :
  In t (surfaced_texts msg) <->
  t <> [] /\ msg_type msg = "AssistantMessage" /\
  exists blocks b,
    msg_content msg = Some blocks /\ In b blocks /\
    block_type b = "TextBlock" /\ text b = Some t.
Proof.
  unfold surfaced_texts. rewrite <- list_elem_of_In.
  destruct (String.eqb_spec (msg_type msg) "AssistantMessage") as [Hty | Hty].
  - destruct (msg_content msg) as [blocks |].
    + rewrite list_elem_of_omap. split.
      * intros (b & Hb & Hsome).
        destruct (String.eqb_spec (block_type b) "TextBlock") as [Hbt | Hbt];
          [| discriminate].
        destruct (text b) as [[| ch rest] |] eqn:Htext; try discriminate.
        injection Hsome as <-.
        split; [discriminate |]. split; [exact Hty |].
        exists blocks, b. rewrite <- list_elem_of_In. auto.
      * intros (Hne & _ & blocks' & b & Hc & Hb & Hbt & Htext).
        injection Hc as <-. exists b. rewrite list_elem_of_In. split; [exact Hb |].
        rewrite Hbt, Htext. simpl. destruct t; [contradiction | reflexivity].
    + split; [intros H; inversion H |].
      intros (_ & _ & blocks & b & Hc & _). discriminate.
  - split; [intros H; inversion H |]. intros (_ & Hty' & _). contradiction.
Qed.

Lemma surfaced_spec (r : Reply) (t : pystr) :
  In t (surfaced r) ->
  t <> [] /\
  exists msg blocks b,
    In msg (stream r) /\ msg_type msg = "AssistantMessage" /\
    msg_content msg = Some blocks /\ In b blocks /\
    block_type b = "TextBlock" /\ text b = Some t.
Proof.
  unfold surfaced. destruct (query_raises r); [intros [] |].
  intros Hin. apply in_concat in Hin as (ts & Hts & Ht).
  apply in_map_iff in Hts as (msg & <- & Hmsg).
  apply surfaced_texts_spec in Ht as (Hne & Hty & blocks & b & Hc & Hb & Hbt & Htext).
  split; [exact Hne |]. exists msg, blocks, b. repeat split; assumption.
Qed.

(** X4: on a session with a client, [_query_claude] sends one query.  What
    it yields are [text] fragments, one for each text it surfaces, in order,
    and for each it appends one assistant turn with that text; every text it
    surfaces is the non-empty text of a text block of an assistant message
    of the response stream, and nothing is surfaced when the query call
    itself raises. *)
Theorem query_surfaces_text_blocks (E : Env) (message : pystr)
    (s : Session) (w : World) (c : Client) :
  client s = Some c ->
  let r := reply E (history w) message in
  let run := _query_claude E message s w in
  exists turns,
    stream_of run = map FText (map content turns) /\
    messages (session_of run) = messages s ++ turns /\
    Forall is_assistant turns /\
    map content turns = surfaced r /\
    (is_Some (query_raises r) -> turns = []) /\
    (forall t, In t (surfaced r) ->
       t <> [] /\
       exists msg blocks b,
         In msg (stream r) /\ msg_type msg = "AssistantMessage" /\
         msg_content msg = Some blocks /\ In b blocks /\
         block_type b = "TextBlock" /\ text b = Some t) /\
    history (world_of run) = history w ++ [EvQuery message] /\
    outcome_of run = query_end r.
Proof.
  intros Hc r run.
  exists (assistant_turns E (history w ++ [EvQuery message]) (length (messages s))
            (surfaced r)).
  unfold run. rewrite (query_claude_stream E message s w c Hc). fold r.
  unfold stream_of, session_of, world_of, outcome_of. simpl.
  rewrite assistant_turns_content.
  split; [reflexivity |]. split; [reflexivity |].
  split; [apply assistant_turns_roles |]. split; [reflexivity |].
  split; [| split; [apply surfaced_spec | split; reflexivity]].
  intros [e He]. unfold surfaced. rewrite He. reflexivity.
Qed.

Lemma query_surfaces_text_blocks_witness :
  let r := Examples.short_reply in
  let run := _query_claude Examples.healthy (lit "Why?") Examples.connected
               Examples.quiet in
  exists turns,
    stream_of run = map FText (map content turns) /\
    messages (session_of run) = messages Examples.connected ++ turns /\
    Forall is_assistant turns /\
    map content turns = surfaced r /\
    (is_Some (query_raises r) -> turns = []) /\
    (forall t, In t (surfaced r) ->
       t <> [] /\
       exists msg blocks b,
         In msg (stream r) /\ msg_type msg = "AssistantMessage" /\
         msg_content msg = Some blocks /\ In b blocks /\
         block_type b = "TextBlock" /\ text b = Some t) /\
    history (world_of run) = history Examples.quiet ++ [EvQuery (lit "Why?")] /\
    outcome_of run = query_end r.
Proof.
  exact (query_surfaces_text_blocks Examples.healthy (lit "Why?") Examples.connected
           Examples.quiet _ eq_refl).
Defined.

(** ** The analysis, once the connection is open *)

Section Analysis.
Context (E : Env) (s : Session) (w : World).

Let settings_file : path :=
  get_expand_settings_path E (project_dir s) (uuid4_hex E (history w)).

Let options_for (cli ctx cfg : pystr) : ClaudeAgentOptions :=
  client_options E cli (_build_system_prompt (project_name s) ctx cfg)
                 (project_dir s) settings_file.

Lemma start_connected_stream c rest ctx cfg :
  which_claude E = Some (c :: rest) ->
  _gather_log_context E (project_name s) (project_dir s) = Ok ctx ->
  str_in NO_SESSIONS_MARKER ctx = false ->
  _read_project_config E (project_dir s) (files w) = Ok cfg ->
  connect E (history w ++ [EvWrite settings_file]) = ConnectOk ->
  _query_lock s = false ->
  let options := options_for (c :: rest) ctx cfg in
  let entered :=
    history w ++ [EvWrite settings_file; EvClientNew options; EvClientEnter] in
  let r := reply E entered ANALYSIS_REQUEST in
  start E s w =
    (PROGRESS_NOTICE :: map FText (surfaced r) ++ analysis_closing (query_end r),
     match query_end r with
     | Done _ => with_complete true
     | _ => fun s' => s'
     end (with_messages
            (messages s ++
             assistant_turns E (entered ++ [EvQuery ANALYSIS_REQUEST])
               (length (messages s)) (surfaced r))
            (with_client_entered true
               (with_client (Some (ClaudeSDKClient options))
                  (with_settings_file (Some settings_file) s)))),
     {| files := <[settings_file := Some (json_dump E security_settings)]> (files w);
        history := entered ++ EvQuery ANALYSIS_REQUEST ::
                   match query_end r with
                   | Done _ => []
                   | _ => [EvLog "Failed to start log review analysis"]
                   end |},
     Done tt).
Proof.
  intros Hcli Hctx Hin Hcfg Hconn Hfree options entered r.
  set (s1 := with_client_entered true
               (with_client (Some (ClaudeSDKClient options))
                  (with_settings_file (Some settings_file) s))).
  set (w1 := {| files := <[settings_file := Some (json_dump E security_settings)]>
                           (files w);
                history := entered |}).
  assert (Hc1 : client s1 = Some (ClaudeSDKClient options)) by reflexivity.
  assert (Hfree1 : _query_lock s1 = false) by exact Hfree.
  pose proof (gated_query_stream E ANALYSIS_REQUEST s1 w1 _ Hc1 Hfree1) as Hrun.
  cbv zeta in Hrun. simpl history in Hrun. simpl files in Hrun. fold r in Hrun.
  unfold start. rewrite Hcli.
  unfold try_except, open_client, write_settings.
  unfold mbind, gen_bind, yield, get_self, get_world, event, update, set_files,
    raise, mret, gen_ret.
  simpl. rewrite Hctx. simpl. rewrite Hin, Hcfg. simpl.
  fold settings_file. rewrite Hconn. simpl.
  rewrite <- !app_assoc. simpl app.
  fold (options_for (c :: rest) ctx cfg). fold options.
  fold entered. fold w1. fold s1.
  rewrite Hrun.
  unfold query_end, analysis_closing.
  destruct (query_raises r); [| destruct (stream_raises r)];
    simpl; rewrite ?app_nil_r, <- ?app_assoc; reflexivity.
Qed.

End Analysis.

(** X5: when the connection opens and the query of the analysis ends
    without an exception, [start] on a session whose gate is free yields the
    progress notice, the texts of the answer, [analysis_complete] and then
    [response_done], and finishes; the session is complete, holds the
    entered client and the path of the settings file, which is on disk, and
    its gate is free again; one client was constructed and entered and one
    query sent. *)
Theorem analysis_completes (E : Env) (s : Session) (w : World) c rest ctx cfg :
  let settings_file :=
    get_expand_settings_path E (project_dir s) (uuid4_hex E (history w)) in
  let options :=
    client_options E (c :: rest) (_build_system_prompt (project_name s) ctx cfg)
      (project_dir s) settings_file in
  let r := reply E (history w ++ [EvWrite settings_file; EvClientNew options;
                                  EvClientEnter]) ANALYSIS_REQUEST in
  let run := start E s w in
  which_claude E = Some (c :: rest) ->
  _gather_log_context E (project_name s) (project_dir s) = Ok ctx ->
  str_in NO_SESSIONS_MARKER ctx = false ->
  _read_project_config E (project_dir s) (files w) = Ok cfg ->
  connect E (history w ++ [EvWrite settings_file]) = ConnectOk ->
  _query_lock s = false ->
  query_end r = Done tt ->
  stream_of run =
    PROGRESS_NOTICE :: map FText (surfaced r) ++ [FAnalysisComplete; FResponseDone] /\
  outcome_of run = Done tt /\
  complete (session_of run) = true /\
  client (session_of run) = Some (ClaudeSDKClient options) /\
  _client_entered (session_of run) = true /\
  _query_lock (session_of run) = false /\
  _settings_file (session_of run) = Some settings_file /\
  files (world_of run) !! settings_file = Some (Some (json_dump E security_settings)) /\
  history (world_of run) =
    history w ++ [EvWrite settings_file; EvClientNew options; EvClientEnter;
                  EvQuery ANALYSIS_REQUEST].
Proof.
  intros settings_file options r run Hcli Hctx Hin Hcfg Hconn Hfree Hend.
  unfold run.
  rewrite (start_connected_stream E s w c rest ctx cfg Hcli Hctx Hin Hcfg Hconn Hfree).
  fold settings_file. fold options. fold r. rewrite Hend.
  unfold stream_of, session_of, world_of, outcome_of. simpl.
  repeat split; try assumption.
  - apply lookup_insert_eq.
  - rewrite <- app_assoc. reflexivity.
Qed.

Lemma analysis_completes_witness :
  stream_of (start Examples.healthy Examples.fresh Examples.quiet) =
    [PROGRESS_NOTICE; FText (lit "All good."); FAnalysisComplete; FResponseDone] /\
  complete (session_of (start Examples.healthy Examples.fresh Examples.quiet)) = true.
Proof.
  pose proof (analysis_completes Examples.healthy Examples.fresh Examples.quiet
                47%N (lit "usr/local/bin/claude") Scenarios.one_session_context
                Scenarios.no_config_context) as H.
  cbv zeta in H.
  destruct H as (Hstream & _ & Hdone & _);
    [reflexivity | vm_compute; reflexivity | vm_compute; reflexivity
     | vm_compute; reflexivity | reflexivity | reflexivity | reflexivity |].
  split; [exact Hstream | exact Hdone].
Defined.

(** X6: when the connection opens and the query of the analysis raises, at
    once or in the middle of the answer, [start] yields the progress notice,
    the texts received so far and one [error] fragment, and finishes; the
    texts received are recorded as turns, the completion flag is as before,
    and the session keeps its entered client with the gate free, so that a
    follow-up is not rejected as not initialized. *)
Theorem analysis_fails (E : Env) (s : Session) (w : World) c rest ctx cfg :
  let settings_file :=
    get_expand_settings_path E (project_dir s) (uuid4_hex E (history w)) in
  let options :=
    client_options E (c :: rest) (_build_system_prompt (project_name s) ctx cfg)
      (project_dir s) settings_file in
  let entered :=
    history w ++ [EvWrite settings_file; EvClientNew options; EvClientEnter] in
  let r := reply E entered ANALYSIS_REQUEST in
  let run := start E s w in
  which_claude E = Some (c :: rest) ->
  _gather_log_context E (project_name s) (project_dir s) = Ok ctx ->
  str_in NO_SESSIONS_MARKER ctx = false ->
  _read_project_config E (project_dir s) (files w) = Ok cfg ->
  connect E (history w ++ [EvWrite settings_file]) = ConnectOk ->
  _query_lock s = false ->
  query_end r <> Done tt ->
  stream_of run =
    PROGRESS_NOTICE :: map FText (surfaced r) ++
    [FError (lit "Failed to start analysis")] /\
  outcome_of run = Done tt /\
  complete (session_of run) = complete s /\
  messages (session_of run) =
    messages s ++
    assistant_turns E (entered ++ [EvQuery ANALYSIS_REQUEST]) (length (messages s))
      (surfaced r) /\
  live (session_of run) = true /\
  _query_lock (session_of run) = false /\
  forall user_message,
    stream_of (send_message E user_message (session_of run) (world_of run)) <>
    [FError (lit "Session not initialized. Call start() first.")].
Proof.
  intros settings_file options entered r run Hcli Hctx Hin Hcfg Hconn Hfree Hend.
  assert (Hrun := start_connected_stream E s w c rest ctx cfg Hcli Hctx Hin Hcfg
                    Hconn Hfree).
  cbv beta zeta in Hrun. fold settings_file in Hrun. fold options in Hrun.
  fold entered in Hrun. fold r in Hrun.
  assert (Hclosing : analysis_closing (query_end r) =
                     [FError (lit "Failed to start analysis")]).
  { destruct (query_end r) as [[] | e |]; [contradiction | reflexivity | reflexivity]. }
  assert (Hsession : session_of run =
            with_messages
              (messages s ++
               assistant_turns E (entered ++ [EvQuery ANALYSIS_REQUEST])
                 (length (messages s)) (surfaced r))
              (with_client_entered true
                 (with_client (Some (ClaudeSDKClient options))
                    (with_settings_file (Some settings_file) s)))).
  { unfold run. rewrite Hrun. unfold session_of. simpl.
    destruct (query_end r) as [[] | e |]; [contradiction | reflexivity | reflexivity]. }
  split; [unfold run; rewrite Hrun, Hclosing; reflexivity |].
  split; [unfold run; rewrite Hrun; reflexivity |].
  rewrite Hsession. repeat split; try assumption.
  intros user_message.
  destruct (_query_lock s) eqn:Hlock; [discriminate |].
  match goal with
  | |- stream_of (send_message E _ ?s1 ?w1) <> _ =>
    destruct (send_message_run E user_message s1 w1 (ClaudeSDKClient options)
                eq_refl Hlock) as (texts & entries & Hsend & _)
  end.
  rewrite Hsend. unfold stream_of. simpl.
  intros Heq. apply (f_equal (@last Fragment)) in Heq.
  rewrite last_snoc in Heq. simpl in Heq. injection Heq as Heq.
  unfold follow_up_closing in Heq.
  match type of Heq with context [query_end ?q] => destruct (query_end q) end;
    discriminate Heq.
Qed.

Lemma analysis_fails_witness :
  stream_of (start Examples.flaky Examples.fresh Examples.quiet) =
    [PROGRESS_NOTICE; FText (lit "Looking"); FError (lit "Failed to start analysis")] /\
  complete (session_of (start Examples.flaky Examples.fresh Examples.quiet)) = false.
Proof.
  pose proof (analysis_fails Examples.flaky Examples.fresh Examples.quiet
                47%N (lit "usr/local/bin/claude") Scenarios.one_session_context
                Scenarios.no_config_context) as H.
  cbv zeta in H.
  destruct H as (Hstream & _ & Hdone & _);
    [reflexivity | vm_compute; reflexivity | vm_compute; reflexivity
     | vm_compute; reflexivity | reflexivity | reflexivity | discriminate |].
  split; [exact Hstream | exact Hdone].
Defined.

(** ** [close], again *)

(** How [close] ends and what it leaves. *)
Lemma close_ends (E : Env) (s : Session) (w : World) :
  let run := close E s w in
  stream_of run = [] /\
  live (session_of run) = false /\
  (live s = true -> client (session_of run) = None) /\
  (outcome_of run = Done tt \/
   exists p, _settings_file s = Some p /\ stat_raises E p = true /\
             outcome_of run = Raised (OtherError "PermissionError")) /\
  (forall p, _settings_file s = Some p -> stat_raises E p = false ->
             unlink_raises E p = false -> files (world_of run) !! p = None).
Proof.
  unfold close, try_except, try_finally, call, path_exists, live,
    stream_of, session_of, world_of, outcome_of.
  unfold mbind, gen_bind, get_self, get_world, event, update, set_files, raise,
    mret, gen_ret, res_ret.
  destruct s as [name dir [c |] ms done created conv [|] [p |] lock]; simpl;
    repeat match goal with
           | |- context [if ?b then _ else _] => destruct b eqn:?; simpl
           end;
    (split; [reflexivity |]); (split; [reflexivity |]);
    (split; [try reflexivity; intros; discriminate |]);
    (split; [first [left; reflexivity | right; eexists; repeat split; eassumption] |]);
    intros q Hq Hstat Hunlink; try discriminate Hq; injection Hq as <-;
    try congruence;
    try apply lookup_delete_eq;
    match goal with
    | H : bool_decide (is_Some (?m !! ?k)) = false |- ?m !! ?k = None =>
      apply bool_decide_eq_false_1 in H; destruct (m !! k); [exfalso; eauto | reflexivity]
    end.
Qed.

(** X7: [close] ends normally unless the existence test of the recorded
    settings file is refused, in which case that refusal is raised; failures
    of the client's exit and of the removal of the file are swallowed.
    However it ends, no entered client is left, the client field is empty if
    the client was entered, and when the test and the removal are not refused
    the settings file is not on disk afterwards. *)
Theorem close_tears_down (E : Env) (s : Session) (w : World) :
  let run := close E s w in
  stream_of run = [] /\
  live (session_of run) = false /\
  (live s = true -> client (session_of run) = None) /\
  (outcome_of run = Done tt \/
   exists p, _settings_file s = Some p /\ stat_raises E p = true /\
             outcome_of run = Raised (OtherError "PermissionError")) /\
  (forall p, _settings_file s = Some p -> stat_raises E p = false ->
             unlink_raises E p = false -> files (world_of run) !! p = None).
Proof. apply close_ends. Qed.

Lemma close_keeps_settings_path (E : Env) (s : Session) (w : World) :
  _settings_file (session_of (close E s w)) = _settings_file s.
Proof.
  unfold close, try_except, try_finally, call, path_exists, session_of.
  unfold mbind, gen_bind, get_self, get_world, event, update, set_files, raise,
    mret, gen_ret, res_ret.
  destruct s as [name dir cl ms done created conv entered [p |] lock]; simpl;
    (destruct (bool_decide (is_Some cl) && entered); simpl;
     [destruct (exit_raises E (history w)); simpl |]);
    try reflexivity;
    destruct (stat_raises E p); simpl; try reflexivity;
    destruct (bool_decide (is_Some (files w !! p))); simpl; try reflexivity;
    destruct (unlink_raises E p); reflexivity.
Qed.

(** [close] on a session without an entered client: all it does is to look
    for the recorded settings file and to try to remove it. *)
Lemma close_without_client (E : Env) (s : Session) (w : World) :
  live s = false ->
  close E s w =
    match _settings_file s with
    | None => ([], s, w, Done tt)
    | Some p =>
      if stat_raises E p then ([], s, w, Raised (OtherError "PermissionError"))
      else if bool_decide (is_Some (files w !! p)) then
        if unlink_raises E p then
          ([], s,
           {| files := files w;
              history := history w ++ [EvLog "Error removing settings file"] |},
           Done tt)
        else
          ([], s,
           {| files := delete p (files w); history := history w ++ [EvUnlink p] |},
           Done tt)
      else ([], s, w, Done tt)
    end.
Proof.
  unfold live. intros Hlive.
  unfold close, try_except, try_finally, call, path_exists.
  unfold mbind, gen_bind, get_self, get_world, event, update, set_files, raise,
    mret, gen_ret, res_ret.
  rewrite Hlive. simpl.
  destruct (_settings_file s) as [p |]; [| reflexivity].
  destruct (stat_raises E p); simpl; [reflexivity |].
  destruct (bool_decide (is_Some (files w !! p))); simpl; [| reflexivity].
  destruct (unlink_raises E p); simpl; [reflexivity |].
  destruct w; reflexivity.
Qed.

(** X8: a second [close] only retries the removal of the settings file.
    Whatever the first [close] did and however it ended, and whatever the
    file system answers by the time of the second (the second runs on a
    machine [E'] of its own), the second yields nothing, leaves the session
    object as the first left it, exits no client, and touches no file but the
    recorded settings file.  It raises only a refusal of the existence test;
    when the settings file is gone it changes nothing at all; when the file
    is still there, because its removal failed the first time, it removes it
    now unless that is refused again. *)
Theorem close_again_only_retries_removal (E E' : Env) (s : Session) (w : World) :
  let s1 := session_of (close E s w) in
  let w1 := world_of (close E s w) in
  let again := close E' s1 w1 in
  stream_of again = [] /\
  session_of again = s1 /\
  (forall q, _settings_file s <> Some q ->
             files (world_of again) !! q = files w1 !! q) /\
  (outcome_of again = Done tt \/
   exists p, _settings_file s = Some p /\ stat_raises E' p = true /\
             outcome_of again = Raised (OtherError "PermissionError")) /\
  (forall p, _settings_file s = Some p ->
     history (world_of again) = history w1 \/
     history (world_of again) = history w1 ++ [EvUnlink p] \/
     history (world_of again) =
       history w1 ++ [EvLog "Error removing settings file"]) /\
  (_settings_file s = None -> again = ([], s1, w1, Done tt)) /\
  (forall p, _settings_file s = Some p -> stat_raises E' p = false ->
     (files w1 !! p = None -> again = ([], s1, w1, Done tt)) /\
     (unlink_raises E' p = false ->
      outcome_of again = Done tt /\ files (world_of again) !! p = None)).
Proof.
  intros s1 w1 again.
  destruct (close_ends E s w) as (_ & Hlive & _).
  pose proof (close_keeps_settings_path E s w) as Hpath.
  fold s1 in Hlive, Hpath.
  unfold again. rewrite (close_without_client E' s1 w1 Hlive), Hpath.
  unfold stream_of, session_of, world_of, outcome_of.
  destruct (_settings_file s) as [p |];
    [| simpl; repeat first [split | intro]; simplify_eq; auto].
  destruct (stat_raises E' p) eqn:Hstat; simpl.
  { repeat first [split | intro]; simplify_eq; try congruence; eauto 6. }
  destruct (bool_decide (is_Some (files w1 !! p))) eqn:Hthere.
  - apply bool_decide_eq_true_1 in Hthere.
    assert (Hsome : files w1 !! p <> None)
      by (destruct Hthere as [x Hx]; congruence).
    destruct (unlink_raises E' p) eqn:Hunlink; simpl;
      repeat first [split | intro]; simplify_eq; try congruence; auto;
      try (apply lookup_delete_ne; congruence);
      try apply lookup_delete_eq.
  - apply bool_decide_eq_false_1 in Hthere.
    assert (Hnone : files w1 !! p = None)
      by (destruct (files w1 !! p); [exfalso; eauto | reflexivity]).
    simpl. repeat first [split | intro]; simplify_eq; try congruence; auto.
Qed.

Lemma close_again_only_retries_removal_witness :
  let first := close Scenarios.stuck_file Examples.analysed Examples.settled in
  let again := close Examples.healthy (session_of first) (world_of first) in
  outcome_of first = Done tt /\
  is_Some (files (world_of first) !! Examples.settings_path) /\
  outcome_of again = Done tt /\
  files (world_of again) !! Examples.settings_path = None.
Proof.
  split; [reflexivity |]. split; [vm_compute; eauto |].
  destruct (close_again_only_retries_removal Scenarios.stuck_file Examples.healthy
              Examples.analysed Examples.settled)
    as (_ & _ & _ & _ & _ & _ & Hretry).
  apply (Hretry Examples.settings_path); reflexivity.
Defined.

(** ** The log context *)

Lemma for_each_ext {A B} (f g : A -> res B) (xs : list A) :
  (forall x, In x xs -> f x = g x) -> for_each f xs = for_each g xs.
Proof.
  induction xs as [| x xs IH]; intros Hfg; [reflexivity |]. simpl.
  rewrite (Hfg x) by (left; reflexivity).
  rewrite IH by (intros y Hy; apply Hfg; right; exact Hy). reflexivity.
Qed.

Lemma for_each_take {A B} (f : A -> res B) (xs : list A) (ys : list B) (n : nat) :
  for_each f xs = Ok ys -> for_each f (take n xs) = Ok (take n ys).
Proof.
  revert ys n. induction xs as [| x xs IH]; intros ys n Hall.
  - injection Hall as <-. destruct n; reflexivity.
  - simpl in Hall. unfold mbind, res_bind in Hall.
    destruct (f x) as [y | e] eqn:Hy; [| discriminate].
    destruct (for_each f xs) as [ys' | e] eqn:Hys; [| discriminate].
    injection Hall as <-. destruct n; [reflexivity |]. simpl.
    unfold mbind, res_bind. rewrite Hy, (IH ys' n eq_refl). reflexivity.
Qed.

Lemma for_each_ids (rows : list Row) (ids : list PyVal) :
  for_each (fun s => getitem s "id") rows = Ok ids ->
  ids = omap (fun row => row !! "id") rows.
Proof.
  revert ids. induction rows as [| row rows IH]; intros ids Hall.
  - injection Hall as <-. reflexivity.
  - simpl in Hall. unfold mbind, res_bind in Hall.
    destruct (getitem row "id") as [v | e] eqn:Hv; [| discriminate].
    destruct (for_each (fun s => getitem s "id") rows) as [ids' | e]; [| discriminate].
    injection Hall as <-. unfold getitem in Hv. simpl.
    destruct (row !! "id") as [v' |]; [| discriminate].
    injection Hv as ->. rewrite (IH ids' eq_refl). reflexivity.
Qed.

Lemma omap_length_le {A B} (f : A -> option B) (xs : list A) :
  (length (omap f xs) <= length xs)%nat.
Proof.
  induction xs as [| x xs IH]; [reflexivity |].
  change (omap f (x :: xs))
    with (match f x with Some y => y :: omap f xs | None => omap f xs end).
  destruct (f x); simpl; lia.
Qed.

Lemma log_lines_ext (E E' : Env) (dir : path) (line_type : string) (limit : Z)
    (line line' : PyVal -> Row -> res (list pystr)) (sids : list PyVal) :
  (forall sid, In sid sids ->
     get_session_logs E dir sid (lit line_type) limit =
     get_session_logs E' dir sid (lit line_type) limit) ->
  (forall sid r, line sid r = line' sid r) ->
  log_lines E dir line_type limit line sids =
  log_lines E' dir line_type limit line' sids.
Proof.
  intros Hlogs Hline. unfold log_lines.
  rewrite (for_each_ext _
             (fun sid =>
                rows ← get_session_logs E' dir sid (lit line_type) limit;
                per_row ← for_each (line' sid) rows;
                mret (concat per_row)) sids); [reflexivity |].
  intros sid Hsid. rewrite (Hlogs sid Hsid).
  destruct (get_session_logs E' dir sid (lit line_type) limit) as [rows | e];
    [| reflexivity].
  simpl. rewrite (for_each_ext (line sid) (line' sid) rows); [reflexivity |].
  intros r _. apply Hline.
Qed.

(** X11: the log context depends on the logs of the most recent sessions
    only: two databases that return the same sessions, the same error and
    tool-result rows for the ids of the first five of them and the same
    tool-use rows for the ids of the first three give the same log context,
    whatever they hold for any other session. *)
Theorem log_context_reads_recent_sessions (E E' : Env) (name : pystr) (dir : path)
    (sessions : list Row) :
  get_sessions E dir name 10 = Ok sessions ->
  get_sessions E' dir name 10 = Ok sessions ->
  (forall a b, iso_minutes E a b = iso_minutes E' a b) ->
  (forall t, str_lower E t = str_lower E' t) ->
  (forall sid, In sid (recent_ids 5 sessions) ->
     get_session_logs E dir sid (lit "error") 50 =
       get_session_logs E' dir sid (lit "error") 50 /\
     get_session_logs E dir sid (lit "tool_result") 200 =
       get_session_logs E' dir sid (lit "tool_result") 200) ->
  (forall sid, In sid (recent_ids 3 sessions) ->
     get_session_logs E dir sid (lit "tool_use") 200 =
       get_session_logs E' dir sid (lit "tool_use") 200) ->
  _gather_log_context E name dir = _gather_log_context E' name dir.
Proof.
  intros Hs Hs' Hiso Hlower Hfive Hthree.
  unfold _gather_log_context. rewrite Hs, Hs'.
  destruct sessions as [| row more]; [reflexivity |].
  cbn [mbind res_bind mret res_ret].
  rewrite (for_each_ext (session_line E) (session_line E') (row :: more)).
  2: { intros x _. unfold session_line. rewrite Hiso. reflexivity. }
  destruct (for_each (session_line E') (row :: more)) as [session_lines | e];
    [| reflexivity].
  cbn [mbind res_bind mret res_ret].
  destruct (for_each (fun s => getitem s "id") (slice_to 5 (row :: more)))
    as [session_ids | e] eqn:Hids; [| reflexivity].
  cbn [mbind res_bind mret res_ret].
  rewrite slice_to_take in Hids by lia.
  assert (Hids5 : session_ids = recent_ids 5 (row :: more))
    by (apply for_each_ids, Hids).
  assert (Hids3 : slice_to 3 session_ids = recent_ids 3 (row :: more)).
  { rewrite slice_to_take by lia. apply for_each_ids.
    pose proof (for_each_take _ _ _ (Z.to_nat 3) Hids) as Htake.
    rewrite take_take in Htake. exact Htake. }
  assert (Hsame5 : slice_to 5 session_ids = session_ids).
  { apply slice_to_short. rewrite Hids5. unfold recent_ids.
    pose proof (omap_length_le (fun row : Row => row !! "id")
                  (take 5 (row :: more))) as Hle.
    rewrite length_take in Hle. lia. }
  rewrite (log_lines_ext E E' dir "error" 50 _ (one_line error_line) session_ids).
  2: { intros sid Hsid. rewrite Hids5 in Hsid. apply (Hfive sid Hsid). }
  2: { reflexivity. }
  destruct (log_lines E' dir "error" 50 (one_line error_line) session_ids)
    as [error_lines | e]; [| reflexivity].
  cbn [mbind res_bind mret res_ret].
  rewrite (log_lines_ext E E' dir "tool_use" 200 _ (one_line tool_line)
             (slice_to 3 session_ids)).
  2: { intros sid Hsid. rewrite Hids3 in Hsid. apply (Hthree sid Hsid). }
  2: { reflexivity. }
  destruct (log_lines E' dir "tool_use" 200 (one_line tool_line)
              (slice_to 3 session_ids)) as [tool_lines | e]; [| reflexivity].
  cbn [mbind res_bind mret res_ret].
  rewrite (log_lines_ext E E' dir "tool_result" 200 (result_line E)
             (result_line E') (slice_to 5 session_ids)).
  2: { intros sid Hsid. rewrite Hsame5, Hids5 in Hsid. apply (Hfive sid Hsid). }
  2: { intros sid r. unfold result_line.
       destruct (getitem r "content") as [[| | | t] | e]; simpl; try reflexivity.
       rewrite Hlower. reflexivity. }
  reflexivity.
Qed.

Lemma log_context_reads_recent_sessions_witness :
  get_session_logs Examples.healthy Examples.demo_dir (PInt 9) (lit "error") 50 <>
    get_session_logs Scenarios.noisy_elsewhere Examples.demo_dir (PInt 9)
      (lit "error") 50 /\
  _gather_log_context Examples.healthy (lit "demo") Examples.demo_dir =
    _gather_log_context Scenarios.noisy_elsewhere (lit "demo") Examples.demo_dir.
Proof.
  split; [discriminate |].
  apply (log_context_reads_recent_sessions Examples.healthy Scenarios.noisy_elsewhere
           (lit "demo") Examples.demo_dir [Examples.session_row]);
    try reflexivity.
  - intros sid [<- | []]. split; reflexivity.
  - intros sid [<- | []]. reflexivity.
Defined.

Lemma first_missing_key_spec (row : Row) (k : string) :
  first_missing_key row = Some k ->
  row !! k = None /\
  (k = "id" \/
   (is_Some (row !! "id") /\
    (k = "status" \/ (is_Some (row !! "status") /\ k = "yolo_mode")))).
Proof.
  unfold first_missing_key. simpl.
  destruct (row !! "id") as [v1 |] eqn:H1; simpl.
  - destruct (row !! "status") as [v2 |] eqn:H2; simpl.
    + destruct (row !! "yolo_mode") as [v3 |] eqn:H3; simpl; [discriminate |].
      intros [= <-]. split; [exact H3 |]. right. split; [eauto |]. right. eauto.
    + intros [= <-]. split; [exact H2 |]. right. split; [eauto |]. left. reflexivity.
  - intros [= <-]. split; [exact H1 |]. left. reflexivity.
Qed.

Lemma session_line_missing_key (E : Env) (row : Row) (k : string) :
  first_missing_key row = Some k -> session_line E row = Raise (KeyError k).
Proof.
  intros Hk. apply first_missing_key_spec in Hk as (Hnone & Hcases).
  unfold session_line, getitem. cbn [mbind res_bind].
  destruct Hcases as [-> | ([v1 H1] & [-> | ([v2 H2] & ->)])].
  - rewrite Hnone. reflexivity.
  - rewrite H1, Hnone. reflexivity.
  - rewrite H1, H2, Hnone. reflexivity.
Qed.

(** X12: a row without one of the keys the session line reads by subscript
    ([id], [status], [yolo_mode]) is not skipped: when the first session
    returned by the database lacks one, [_gather_log_context] raises the
    [KeyError] of the first key missing, and [start], which calls it outside
    of any handler, yields the progress notice and raises that error into
    its consumer, with the session and the world as they were. *)
Theorem malformed_session_row_raises (E : Env) (s : Session) (w : World) c rest
    (row : Row) (more : list Row) (k : string) :
  which_claude E = Some (c :: rest) ->
  get_sessions E (project_dir s) (project_name s) 10 = Ok (row :: more) ->
  first_missing_key row = Some k ->
  _gather_log_context E (project_name s) (project_dir s) = Raise (KeyError k) /\
  start E s w = ([PROGRESS_NOTICE], s, w, Raised (KeyError k)).
Proof.
  intros Hcli Hsessions Hk.
  assert (Hctx : _gather_log_context E (project_name s) (project_dir s) =
                 Raise (KeyError k)).
  { unfold _gather_log_context. rewrite Hsessions. cbn [mbind res_bind for_each].
    rewrite (session_line_missing_key E row k Hk). reflexivity. }
  split; [exact Hctx |].
  apply (start_gather_raises E s w c rest (KeyError k) Hcli Hctx).
Qed.

Lemma malformed_session_row_raises_witness :
  _gather_log_context Scenarios.half_written (project_name Examples.fresh)
    (project_dir Examples.fresh) = Raise (KeyError "status") /\
  start Scenarios.half_written Examples.fresh Examples.quiet =
    ([PROGRESS_NOTICE], Examples.fresh, Examples.quiet, Raised (KeyError "status")).
Proof.
  apply (malformed_session_row_raises Scenarios.half_written Examples.fresh
           Examples.quiet 47%N (lit "usr/local/bin/claude") Scenarios.unfinished_row []);
    reflexivity.
Defined.

(** ** The registry, operation by operation *)

Lemma dict_get_None {V} (k : pystr) (d : Dict V) :
  dict_get k d = None <-> ~ In k (map fst d).
Proof.
  induction d as [| [k' v] d IH]; simpl; [tauto |].
  destruct (decide (k = k')) as [-> | Hne].
  - split; [discriminate | intros H; exfalso; apply H; left; reflexivity].
  - rewrite IH. split; [intros H [Heq | Hin]; [congruence | tauto] | tauto].
Qed.

Lemma dict_get_In {V} (k : pystr) (v : V) (d : Dict V) :
  dict_get k d = Some v -> In v (dict_values d).
Proof.
  induction d as [| [k' v'] d IH]; simpl; [discriminate |].
  destruct (decide (k = k')); [intros [= ->]; left; reflexivity | auto].
Qed.

Lemma dict_pop_absent {V} (k : pystr) (d : Dict V) :
  dict_get k d = None -> dict_pop k d = (None, d).
Proof.
  induction d as [| [k' v] d IH]; simpl; [reflexivity |].
  destruct (decide (k = k')); [discriminate |].
  intros H. rewrite (IH H). reflexivity.
Qed.

Lemma dict_pop_keys {V} (k : pystr) (d : Dict V) :
  forall k', In k' (map fst (snd (dict_pop k d))) -> In k' (map fst d).
Proof.
  induction d as [| [k0 v] d IH]; simpl; [tauto |].
  destruct (decide (k = k0)); simpl; [tauto |].
  destruct (dict_pop k d) as [r rest]. simpl in *.
  intros k' [H | H]; [tauto | right; apply IH, H].
Qed.

Lemma dict_pop_values {V} (k : pystr) (d : Dict V) :
  forall v, In v (dict_values (snd (dict_pop k d))) -> In v (dict_values d).
Proof.
  unfold dict_values. induction d as [| [k0 v0] d IH]; simpl; [tauto |].
  destruct (decide (k = k0)); simpl; [tauto |].
  destruct (dict_pop k d) as [r rest]. simpl in *.
  intros v [H | H]; [tauto | right; apply IH, H].
Qed.

Lemma dict_pop_gone {V} (k : pystr) (d : Dict V) :
  NoDup (map fst d) -> dict_get k (snd (dict_pop k d)) = None.
Proof.
  induction d as [| [k0 v] d IH]; simpl; [reflexivity |].
  intros Hnd. apply NoDup_cons in Hnd as [Hk0 Hnd].
  destruct (decide (k = k0)) as [-> | Hne]; simpl.
  - apply dict_get_None. rewrite <- list_elem_of_In. exact Hk0.
  - destruct (dict_pop k d) as [r rest]. simpl in *.
    destruct (decide (k = k0)); [contradiction | apply IH, Hnd].
Qed.

Lemma dict_pop_NoDup {V} (k : pystr) (d : Dict V) :
  NoDup (map fst d) -> NoDup (map fst (snd (dict_pop k d))).
Proof.
  induction d as [| [k0 v] d IH]; simpl; [constructor |].
  intros Hnd. apply NoDup_cons in Hnd as [Hk0 Hnd].
  destruct (decide (k = k0)); simpl; [exact Hnd |].
  pose proof (dict_pop_keys k d k0) as Hkeys.
  destruct (dict_pop k d) as [r rest]. simpl in *.
  apply NoDup_cons. split; [| apply IH, Hnd].
  rewrite list_elem_of_In. rewrite list_elem_of_In in Hk0. tauto.
Qed.

Lemma dict_pop_values_NoDup {V} (k : pystr) (d : Dict V) :
  NoDup (dict_values d) -> NoDup (dict_values (snd (dict_pop k d))).
Proof.
  unfold dict_values. induction d as [| [k0 v] d IH]; simpl; [constructor |].
  intros Hnd. apply NoDup_cons in Hnd as [Hv Hnd].
  destruct (decide (k = k0)); simpl; [exact Hnd |].
  pose proof (dict_pop_values k d v) as Hvals. unfold dict_values in Hvals.
  destruct (dict_pop k d) as [r rest]. simpl in *.
  apply NoDup_cons. split; [| apply IH, Hnd].
  rewrite list_elem_of_In. rewrite list_elem_of_In in Hv. tauto.
Qed.

Lemma dict_set_absent {V} (k : pystr) (v : V) (d : Dict V) :
  dict_get k d = None -> dict_set k v d = d ++ [(k, v)].
Proof.
  induction d as [| [k0 v0] d IH]; simpl; [reflexivity |].
  destruct (decide (k = k0)); [discriminate |].
  intros H. rewrite (IH H). reflexivity.
Qed.

Section RegistryOperations.
Context (E : Env).

(** A guarded call of [close] returns normally and keeps the registry and
    the size of the heap, also on a reference to nothing. *)
Lemma guarded_close_any (l : nat) (what : string) (p : Process) :
  exists p',
    proc_try (await_close E l) (log_warning what) p = (p', Done tt) /\
    _log_review_sessions p' = _log_review_sessions p /\
    length (heap p') = length (heap p) /\
    (forall l', l' <> l -> heap p' !! l' = heap p !! l').
Proof.
  destruct (decide (l < length (heap p))%nat) as [Hl | Hl].
  - destruct (guarded_close E l what p Hl) as (s' & w' & evs & Hrun & _).
    eexists. split; [exact Hrun |]. simpl.
    split; [reflexivity |]. split; [apply length_insert |].
    intros l' Hne. apply list_lookup_insert_ne. congruence.
  - unfold proc_try, await_close.
    rewrite (lookup_ge_None_2 (heap p) l) by lia.
    eexists. split; [reflexivity |]. simpl. repeat split.
Qed.

Lemma well_formed_get (p : Process) (name : pystr) (l : nat) :
  well_formed p -> dict_get name (_log_review_sessions p) = Some l ->
  (l < length (heap p))%nat.
Proof.
  intros Hwf Hget. unfold well_formed in Hwf. rewrite Forall_forall in Hwf.
  apply Hwf. rewrite list_elem_of_In. apply (dict_get_In name), Hget.
Qed.

Lemma create_shape (name : pystr) (dir : path) (p : Process) :
  well_formed p ->
  let session := length (heap p) in
  exists p',
    create_log_review_session E name dir p = (p', Done session) /\
    _log_review_sessions p' =
      dict_set name session (snd (dict_pop name (_log_review_sessions p))) /\
    length (heap p') = S session /\
    heap p' !! session =
      Some (new_session name dir
              (now_iso E (history (world p) ++
                          [EvRegistryAcquire; EvRegistry (RegPop name)]) 0)) /\
    (forall l, dict_get name (_log_review_sessions p) <> Some l ->
               (l < session)%nat -> heap p' !! l = heap p !! l).
Proof.
  intros Hwf session.
  pose proof (well_formed_get p name) as Hvalid. specialize (Hvalid session Hwf).
  unfold create_log_review_session.
  unfold mbind, proc_bind, proc_event, registry_pop, registry_set,
    registry_get, registry_values, registry_clear, registry_op,
    LogReviewSession, mret, proc_ret.
  simpl.
  pose proof (dict_pop_get name (_log_review_sessions p)) as Hfst.
  destruct (dict_pop name (_log_review_sessions p)) as [popped d'].
  simpl in Hfst. simpl. destruct popped as [old |]; simpl.
  - match goal with
    | |- context [proc_try _ _ ?p1] =>
      destruct (guarded_close_any old "Error closing old log review session" p1)
        as (p' & Hrun & Hreg & Hlen & Hframe)
    end.
    rewrite Hrun. exists p'. simpl in Hreg, Hlen, Hframe.
    split; [reflexivity |]. split; [exact Hreg |].
    split; [rewrite Hlen, length_app; simpl; lia |].
    assert (Hne : session <> old).
    { intros <-. rewrite <- Hfst in Hvalid. specialize (Hvalid eq_refl).
      unfold session in Hvalid. lia. }
    split.
    + rewrite (Hframe session Hne). rewrite lookup_app_r by reflexivity.
      unfold session. rewrite Nat.sub_diag, <- app_assoc. reflexivity.
    + intros l Hl Hlt. rewrite Hframe by (rewrite <- Hfst in Hl; congruence).
      apply lookup_app_l. exact Hlt.
  - eexists. split; [reflexivity |]. simpl.
    split; [reflexivity |]. split; [rewrite length_app; simpl; lia |].
    split.
    + rewrite lookup_app_r by reflexivity. unfold session.
      rewrite Nat.sub_diag, <- app_assoc. reflexivity.
    + intros l _ Hlt. apply lookup_app_l. exact Hlt.
Qed.

Lemma remove_shape (name : pystr) (p : Process) :
  exists p',
    remove_log_review_session E name p = (p', Done tt) /\
    _log_review_sessions p' = snd (dict_pop name (_log_review_sessions p)) /\
    length (heap p') = length (heap p).
Proof.
  unfold remove_log_review_session.
  unfold mbind, proc_bind, proc_event, registry_pop, registry_set,
    registry_get, registry_values, registry_clear, registry_op, mret, proc_ret.
  simpl.
  destruct (dict_pop name (_log_review_sessions p)) as [[old |] d']; simpl.
  - match goal with
    | |- context [proc_try _ _ ?p1] =>
      destruct (guarded_close_any old "Error closing log review session" p1)
        as (p' & Hrun & Hreg & Hlen & _)
    end.
    exists p'. split; [exact Hrun |]. split; assumption.
  - eexists. split; [reflexivity |]. split; reflexivity.
Qed.

Lemma registry_ok_after_pop (p p' : Process) (name : pystr) :
  registry_ok p ->
  _log_review_sessions p' = snd (dict_pop name (_log_review_sessions p)) ->
  length (heap p') = length (heap p) ->
  registry_ok p'.
Proof.
  intros (Hkeys & Hvals & Hwf) Hreg Hlen. unfold registry_ok, well_formed.
  rewrite Hreg, Hlen. split; [apply dict_pop_NoDup, Hkeys |].
  split; [apply dict_pop_values_NoDup, Hvals |].
  unfold well_formed in Hwf. rewrite Forall_forall in *.
  intros l Hl. apply Hwf. rewrite list_elem_of_In in *.
  apply (dict_pop_values name), Hl.
Qed.

Lemma registry_ok_after_create (p p' : Process) (name : pystr) :
  registry_ok p ->
  _log_review_sessions p' =
    dict_set name (length (heap p)) (snd (dict_pop name (_log_review_sessions p))) ->
  length (heap p') = S (length (heap p)) ->
  registry_ok p'.
Proof.
  intros (Hkeys & Hvals & Hwf) Hreg Hlen.
  assert (Hgone := dict_pop_gone name _ Hkeys).
  rewrite (dict_set_absent _ _ _ Hgone) in Hreg.
  unfold registry_ok, well_formed, dict_values in *. rewrite Hreg, Hlen.
  rewrite !map_app. simpl.
  assert (Hbelow : forall l, In l (map snd (snd (dict_pop name (_log_review_sessions p)))) ->
                             (l < length (heap p))%nat).
  { intros l Hl. rewrite Forall_forall in Hwf. apply Hwf.
    rewrite list_elem_of_In. apply (dict_pop_values name), Hl. }
  split; [| split].
  - apply NoDup_app. split; [apply dict_pop_NoDup, Hkeys |]. split.
    + intros k Hk Hk'. apply list_elem_of_In in Hk.
      apply list_elem_of_singleton in Hk'. subst k.
      apply (proj1 (dict_get_None name _) Hgone Hk).
    + apply NoDup_singleton.
  - apply NoDup_app. split; [apply (dict_pop_values_NoDup name), Hvals |]. split.
    + intros l Hl Hl'. apply list_elem_of_In in Hl.
      apply list_elem_of_singleton in Hl'. subst l.
      specialize (Hbelow _ Hl). lia.
    + apply NoDup_singleton.
  - apply Forall_app. split.
    + rewrite Forall_forall. intros l Hl. rewrite list_elem_of_In in Hl.
      specialize (Hbelow _ Hl). lia.
    + constructor; [lia | constructor].
Qed.

Lemma get_run (name : pystr) (p : Process) :
  get_log_review_session name p =
    ({| heap := heap p; _log_review_sessions := _log_review_sessions p;
        world := {| files := files (world p);
                    history := history (world p) ++
                               [EvRegistryAcquire; EvRegistry (RegGet name);
                                EvRegistryRelease] |} |},
     Done (dict_get name (_log_review_sessions p))).
Proof.
  unfold get_log_review_session.
  unfold mbind, proc_bind, proc_event, registry_get, registry_op, mret, proc_ret.
  simpl. rewrite <- !app_assoc. reflexivity.
Qed.

(** X13: the registry stays a dictionary of constructed sessions: if no
    project is registered twice, no session object is registered for two
    projects and every reference points to a constructed session, the same
    holds after a lookup, after [create_log_review_session], after
    [remove_log_review_session] and after the shut-down. *)
Theorem registry_stays_ok (name : pystr) (dir : path) (p : Process) :
  registry_ok p ->
  registry_ok (process_of (get_log_review_session name p)) /\
  registry_ok (process_of (create_log_review_session E name dir p)) /\
  registry_ok (process_of (remove_log_review_session E name p)) /\
  registry_ok (process_of (cleanup_all_log_review_sessions E p)).
Proof.
  intros Hok. split; [| split; [| split]].
  - rewrite get_run. exact Hok.
  - destruct (create_shape name dir p (proj2 (proj2 Hok)))
      as (p' & Hrun & Hreg & Hlen & _).
    rewrite Hrun. apply (registry_ok_after_create p p' name Hok Hreg Hlen).
  - destruct (remove_shape name p) as (p' & Hrun & Hreg & Hlen).
    rewrite Hrun. apply (registry_ok_after_pop p p' name Hok Hreg Hlen).
  - unfold cleanup_all_log_review_sessions.
    unfold mbind, proc_bind, proc_event, registry_pop, registry_set,
      registry_get, registry_values, registry_clear, registry_op. simpl.
    match goal with
    | |- context [proc_for ?body ?ls ?p1] =>
      destruct (close_each E "Error closing log review session" ls p1)
        as (p' & Hrun & Hreg & Hlen & _);
        [exact (proj2 (proj2 Hok)) |]
    end.
    rewrite Hrun. unfold process_of, registry_ok, well_formed. simpl in *.
    rewrite Hreg. repeat split; constructor.
Qed.

(** X14: a session just created is the one a lookup finds: on a well-formed
    registry [create_log_review_session] returns normally the reference of a
    session object that did not exist before and that is as its constructor
    makes it (no client, no turns, not complete); a lookup of the project
    then returns that reference, and a lookup of any other project returns
    what it returned before. *)
Theorem lookup_finds_created_session (name : pystr) (dir : path) (p : Process) :
  well_formed p ->
  let created := create_log_review_session E name dir p in
  exists session s,
    result_of created = Done session /\
    heap p !! session = None /\
    heap (process_of created) !! session = Some s /\
    project_name s = name /\ project_dir s = dir /\
    client s = None /\ messages s = [] /\ complete s = false /\
    result_of (get_log_review_session name (process_of created)) =
      Done (Some session) /\
    forall other, other <> name ->
      result_of (get_log_review_session other (process_of created)) =
      result_of (get_log_review_session other p).
Proof.
  intros Hwf created.
  destruct (create_shape name dir p Hwf) as (p' & Hrun & Hreg & Hlen & Hnew & _).
  unfold created. rewrite Hrun. unfold result_of, process_of. cbn [fst snd].
  eexists _, _. split; [reflexivity |].
  split; [apply lookup_ge_None_2; lia |]. split; [exact Hnew |].
  do 5 (split; [reflexivity |]). split.
  - rewrite get_run. cbn [fst snd]. rewrite Hreg, dict_get_set_eq. reflexivity.
  - intros other Hother. rewrite !get_run. cbn [fst snd].
    rewrite Hreg, dict_get_set_ne, dict_get_pop_ne by exact Hother. reflexivity.
Qed.

Lemma create_absent_run (name : pystr) (dir : path) (p : Process) :
  dict_get name (_log_review_sessions p) = None ->
  create_log_review_session E name dir p =
    ({| heap := heap p ++
                [new_session name dir
                   (now_iso E (history (world p) ++
                               [EvRegistryAcquire; EvRegistry (RegPop name)]) 0)];
        _log_review_sessions := _log_review_sessions p ++ [(name, length (heap p))];
        world := {| files := files (world p);
                    history := history (world p) ++
                               [EvRegistryAcquire; EvRegistry (RegPop name);
                                EvRegistry (RegSet name (length (heap p)));
                                EvRegistryRelease] |} |},
     Done (length (heap p))).
Proof.
  intros Habsent.
  unfold create_log_review_session.
  unfold mbind, proc_bind, proc_event, registry_pop, registry_set,
    registry_get, registry_values, registry_clear, registry_op,
    LogReviewSession, mret, proc_ret.
  simpl. rewrite (dict_pop_absent _ _ Habsent). simpl.
  rewrite (dict_set_absent _ _ _ Habsent), <- !app_assoc. reflexivity.
Qed.

(** X15: for a project that is not registered, [create_log_review_session]
    closes nothing: it takes the lock, pops nothing, registers the new
    session object and releases the lock; the new object is added to the heap
    and the project at the end of the registry, and every other session
    object, the files and the rest of the registry are as they were. *)
Theorem create_without_predecessor (name : pystr) (dir : path) (p : Process) :
  dict_get name (_log_review_sessions p) = None ->
  create_log_review_session E name dir p =
    ({| heap := heap p ++
                [new_session name dir
                   (now_iso E (history (world p) ++
                               [EvRegistryAcquire; EvRegistry (RegPop name)]) 0)];
        _log_review_sessions := _log_review_sessions p ++ [(name, length (heap p))];
        world := {| files := files (world p);
                    history := history (world p) ++
                               [EvRegistryAcquire; EvRegistry (RegPop name);
                                EvRegistry (RegSet name (length (heap p)));
                                EvRegistryRelease] |} |},
     Done (length (heap p))).
Proof. apply create_absent_run. Qed.

(** X16: [remove_log_review_session] for a project that is not registered
    closes nothing and changes nothing: it only takes the lock, pops nothing
    and releases the lock. *)
Theorem remove_absent_changes_nothing (name : pystr) (p : Process) :
  dict_get name (_log_review_sessions p) = None ->
  remove_log_review_session E name p =
    ({| heap := heap p; _log_review_sessions := _log_review_sessions p;
        world := {| files := files (world p);
                    history := history (world p) ++
                               [EvRegistryAcquire; EvRegistry (RegPop name);
                                EvRegistryRelease] |} |},
     Done tt).
Proof.
  intros Habsent.
  unfold remove_log_review_session.
  unfold mbind, proc_bind, proc_event, registry_pop, registry_set,
    registry_get, registry_values, registry_clear, registry_op, mret, proc_ret.
  simpl. rewrite (dict_pop_absent _ _ Habsent). simpl.
  rewrite <- !app_assoc. reflexivity.
Qed.

Lemma remove_registered_run (name : pystr) (p : Process) (l : nat) :
  registry_ok p ->
  dict_get name (_log_review_sessions p) = Some l ->
  let removed := remove_log_review_session E name p in
  exists s' evs,
    result_of removed = Done tt /\
    history (world (process_of removed)) =
      history (world p) ++
      [EvRegistryAcquire; EvRegistry (RegPop name); EvRegistryRelease; EvClose l] ++
      evs /\
    forallb session_event evs = true /\
    heap (process_of removed) !! l = Some s' /\ live s' = false /\
    dict_get name (_log_review_sessions (process_of removed)) = None /\
    forall other, other <> name ->
      dict_get other (_log_review_sessions (process_of removed)) =
      dict_get other (_log_review_sessions p).
Proof.
  intros (Hkeys & _ & Hwf) Hget removed.
  pose proof (well_formed_get p name l Hwf Hget) as Hl.
  pose proof (dict_pop_get name (_log_review_sessions p)) as Hfst.
  pose proof (dict_pop_gone name _ Hkeys) as Hgone.
  pose proof (fun k => dict_get_pop_ne name k (_log_review_sessions p)) as Hother.
  unfold removed, remove_log_review_session.
  unfold mbind, proc_bind, proc_event, registry_pop, registry_set,
    registry_get, registry_values, registry_clear, registry_op, mret, proc_ret.
  simpl.
  destruct (dict_pop name (_log_review_sessions p)) as [popped d'].
  simpl in Hfst, Hgone, Hother. rewrite Hget in Hfst. subst popped. simpl.
  match goal with
  | |- context [proc_try _ _ ?p1] =>
    destruct (guarded_close E l "Error closing log review session" p1)
      as (s' & w' & evs & Hrun & Hlive & Hh & Hev); [exact Hl |]
  end.
  rewrite Hrun. unfold result_of, process_of. simpl. simpl in Hh.
  exists s', evs. split; [reflexivity |].
  split; [rewrite Hh, <- !app_assoc; reflexivity |].
  split; [exact Hev |].
  split; [apply list_lookup_insert_eq; exact Hl |].
  split; [exact Hlive |]. split; [exact Hgone |]. exact Hother.
Qed.

(** X17: [remove_log_review_session] for a registered project returns
    normally whatever [close] does; after the lock is released it calls
    [close] once, on the session that was registered, which is left without
    an entered client; a lookup of the project then finds nothing, and a
    lookup of any other project finds what it found before. *)
Theorem remove_closes_registered_session (name : pystr) (p : Process) (l : nat) :
  registry_ok p ->
  dict_get name (_log_review_sessions p) = Some l ->
  let removed := remove_log_review_session E name p in
  exists s' evs,
    result_of removed = Done tt /\
    history (world (process_of removed)) =
      history (world p) ++
      [EvRegistryAcquire; EvRegistry (RegPop name); EvRegistryRelease; EvClose l] ++
      evs /\
    forallb session_event evs = true /\
    heap (process_of removed) !! l = Some s' /\ live s' = false /\
    dict_get name (_log_review_sessions (process_of removed)) = None /\
    forall other, other <> name ->
      dict_get other (_log_review_sessions (process_of removed)) =
      dict_get other (_log_review_sessions p).
Proof. apply remove_registered_run. Qed.

End RegistryOperations.

Lemma registry_stays_ok_witness :
  registry_ok (process_of (get_log_review_session (lit "demo") Examples.two_projects)) /\
  registry_ok (process_of (create_log_review_session Examples.healthy (lit "demo")
                             Examples.demo_dir Examples.two_projects)) /\
  registry_ok (process_of (remove_log_review_session Examples.healthy (lit "demo")
                             Examples.two_projects)) /\
  registry_ok (process_of (cleanup_all_log_review_sessions Examples.healthy
                             Examples.two_projects)).
Proof.
  apply (registry_stays_ok Examples.healthy (lit "demo") Examples.demo_dir
           Examples.two_projects).
  split; [| split].
  - apply (bool_decide_unpack _). vm_compute. exact I.
  - apply (bool_decide_unpack _). vm_compute. exact I.
  - repeat constructor.
Defined.

Lemma lookup_finds_created_session_witness :
  result_of (get_log_review_session (lit "demo")
               (process_of (create_log_review_session Examples.healthy (lit "demo")
                              Examples.demo_dir Examples.registered))) =
    Done (Some 1%nat).
Proof.
  destruct (lookup_finds_created_session Examples.healthy (lit "demo")
              Examples.demo_dir Examples.registered)
    as (session & s & Hdone & _ & _ & _ & _ & _ & _ & _ & Hget & _);
    [repeat constructor |].
  injection Hdone as <-. exact Hget.
Defined.

Lemma create_without_predecessor_witness :
  result_of (create_log_review_session Examples.healthy (lit "other")
               Examples.demo_dir Examples.registered) = Done 1%nat /\
  closes (history (world (process_of
            (create_log_review_session Examples.healthy (lit "other")
               Examples.demo_dir Examples.registered)))) = [].
Proof.
  rewrite (create_without_predecessor Examples.healthy (lit "other")
             Examples.demo_dir Examples.registered eq_refl).
  split; reflexivity.
Defined.

Lemma remove_absent_changes_nothing_witness :
  heap (process_of (remove_log_review_session Examples.healthy (lit "other")
                      Examples.registered)) = heap Examples.registered /\
  closes (history (world (process_of
            (remove_log_review_session Examples.healthy (lit "other")
               Examples.registered)))) = [].
Proof.
  rewrite (remove_absent_changes_nothing Examples.healthy (lit "other")
             Examples.registered eq_refl).
  split; reflexivity.
Defined.

Lemma remove_closes_registered_session_witness :
  dict_get (lit "demo")
    (_log_review_sessions
       (process_of (remove_log_review_session Examples.locked_down (lit "demo")
                      Examples.two_projects))) = None /\
  result_of (remove_log_review_session Examples.locked_down (lit "demo")
               Examples.two_projects) = Done tt.
Proof.
  destruct (remove_closes_registered_session Examples.locked_down (lit "demo")
              Examples.two_projects 0)
    as (s' & evs & Hdone & _ & _ & _ & _ & Hgone & _).
  - split; [| split].
    + apply (bool_decide_unpack _). vm_compute. exact I.
    + apply (bool_decide_unpack _). vm_compute. exact I.
    + repeat constructor.
  - reflexivity.
  - split; [exact Hgone | exact Hdone].
Defined.

(** ** The handler of the socket *)

Lemma dict_get_app_Some {V} (k : pystr) (v : V) (d d' : Dict V) :
  dict_get k d = Some v -> dict_get k (d ++ d') = Some v.
Proof.
  induction d as [| [k0 v0] d IH]; simpl; [discriminate |].
  destruct (decide (k = k0)); [tauto | exact IH].
Qed.

Lemma dict_get_app_other {V} (k name : pystr) (v : V) (d : Dict V) :
  k <> name -> dict_get k (d ++ [(name, v)]) = dict_get k d.
Proof.
  intros Hne. induction d as [| [k0 v0] d IH]; simpl.
  - destruct (decide (k = name)); [contradiction | reflexivity].
  - destruct (decide (k = k0)); [reflexivity | exact IH].
Qed.

Lemma handler_keeps_refl (name : pystr) (p : Process) : handler_keeps name p p.
Proof. unfold handler_keeps. repeat split; auto; lia. Qed.

Lemma handler_keeps_trans (name : pystr) (p1 p2 p3 : Process) :
  handler_keeps name p1 p2 -> handler_keeps name p2 p3 -> handler_keeps name p1 p3.
Proof.
  intros (Hc1 & Hr1 & Ho1 & Hl1 & Hs1 & Hn1) (Hc2 & Hr2 & Ho2 & Hl2 & Hs2 & Hn2).
  unfold handler_keeps.
  assert (Hreg : is_Some (dict_get name (_log_review_sessions p1)) ->
                 is_Some (dict_get name (_log_review_sessions p2)))
    by (intros [l Hl]; exists l; apply Hr1, Hl).
  assert (Hreg' : is_Some (dict_get name (_log_review_sessions p2)) ->
                  is_Some (dict_get name (_log_review_sessions p3)))
    by (intros [l Hl]; exists l; apply Hr2, Hl).
  split; [congruence |]. split; [auto |].
  split; [intros k Hk; rewrite Ho2, Ho1 by exact Hk; reflexivity |].
  assert (Hcase : length (heap p2) = length (heap p1) \/
                  length (heap p2) = S (length (heap p1))) by lia.
  split; [| split].
  - destruct Hcase as [Heq | Hgrow]; [lia |].
    specialize (Hs2 (Hn1 Hgrow)). lia.
  - intros Hsome. rewrite (Hs2 (Hreg Hsome)). apply Hs1, Hsome.
  - intros Hgrow. destruct Hcase as [Heq | Hgrow1].
    + apply Hn2. lia.
    + apply Hreg', Hn1, Hgrow1.
Qed.

(** A step that leaves the registry and the size of the heap and calls no
    [close]. *)
Lemma handler_keeps_quiet (name : pystr) (p p' : Process) :
  _log_review_sessions p' = _log_review_sessions p ->
  length (heap p') = length (heap p) ->
  closes (history (world p')) = closes (history (world p)) ->
  handler_keeps name p p'.
Proof.
  intros Hreg Hlen Hcloses. unfold handler_keeps. rewrite Hreg, Hlen.
  repeat split; auto; try lia.
Qed.

Lemma handler_keeps_log (name : pystr) (what : string) (p : Process) :
  handler_keeps name p (fst (proc_event (EvLog what) p)).
Proof.
  apply handler_keeps_quiet; try reflexivity.
  simpl. rewrite closes_app. simpl. apply app_nil_r.
Qed.

Lemma handler_keeps_get (name k : pystr) (p : Process) :
  handler_keeps name p (fst (get_log_review_session k p)).
Proof.
  rewrite get_run. apply handler_keeps_quiet; try reflexivity.
  simpl. rewrite closes_app. simpl. apply app_nil_r.
Qed.

Lemma handler_keeps_create (E : Env) (name : pystr) (dir : path) (p : Process) :
  dict_get name (_log_review_sessions p) = None ->
  handler_keeps name p (fst (create_log_review_session E name dir p)).
Proof.
  intros Habsent. rewrite (create_absent_run E name dir p Habsent).
  unfold handler_keeps. simpl. rewrite closes_app, length_app. simpl.
  split; [apply app_nil_r |].
  split; [intros k l; apply dict_get_app_Some |].
  split; [intros k Hk; apply dict_get_app_other, Hk |].
  split; [lia |]. split.
  - intros [l Hl]. congruence.
  - intros _.
    assert (Hset := dict_get_set_eq name (length (heap p)) (_log_review_sessions p)).
    rewrite (dict_set_absent _ _ _ Habsent) in Hset. rewrite Hset. eauto.
Qed.

Lemma handler_keeps_drive (name : pystr) (m : Gen unit) (l : nat) (p : Process) :
  (forall s w, evolves (s, w) (session_of (m s w), world_of (m s w))) ->
  handler_keeps name p (snd (fst (drive m l p))).
Proof.
  intros Hm. unfold drive.
  destruct (heap p !! l) as [s |]; [| apply handler_keeps_refl].
  specialize (Hm s (world p)). unfold session_of, world_of, evolves in Hm.
  destruct (m s (world p)) as [[[out s'] w'] r]. simpl in *.
  destruct Hm as (_ & _ & _ & _ & _ & evs & Hh & Hev).
  apply handler_keeps_quiet; simpl.
  - reflexivity.
  - apply length_insert.
  - rewrite Hh, closes_app, (closes_session_events evs Hev). apply app_nil_r.
Qed.

Arguments get_log_review_session : simpl never.
Arguments create_log_review_session : simpl never.
Arguments remove_log_review_session : simpl never.
Arguments drive : simpl never.
Arguments strip : simpl never.
Arguments internal_error : simpl never.
Arguments is_literal : simpl never.

Ltac continue_with H :=
  match goal with
  | IH : forall session p, handler_keeps _ p (left_of (receive_loop _ _ _ _ ?rest session p))
    |- handler_keeps ?name ?p
         (left_of ?continued) =>
    match continued with
    | context [receive_loop ?R ?E name ?dir rest ?s' ?p'] =>
    let Hih := fresh "Hih" in
    pose proof (IH s' p') as Hih;
    destruct (receive_loop R E name dir rest s' p') as [[? ?] ?];
    unfold left_of in *; simpl in *;
    exact (handler_keeps_trans name p p' _ H Hih)
    end
  end.

Section Handler.
Context (R : RouterEnv) (E : Env).

Lemma left_of_continue (pre : list Outbound)
    (rest : list Outbound * Process * HandlerEnd) :
  left_of (let '(out, p'', e) := rest in (pre ++ out, p'', e)) = left_of rest.
Proof. destruct rest as [[out p''] e]. reflexivity. Qed.

Lemma receive_loop_keeps (name : pystr) (dir : path) (inbound : list pystr) :
  forall session p,
    handler_keeps name p (left_of (receive_loop R E name dir inbound session p)).
Proof.
  induction inbound as [| data rest IH]; intros session p.
  - apply handler_keeps_log.
  - assert (Hcrash : forall pre e p',
              handler_keeps name p p' ->
              handler_keeps name p (left_of (internal_error pre e p'))).
    { intros pre e p' Hstep.
      apply (handler_keeps_trans name p p' _ Hstep), handler_keeps_log. }
    cbn [receive_loop].
    destruct (json_loads R data) as [[message |] |].
    + destruct (is_literal (get message "type") "ping");
        [continue_with (handler_keeps_refl name p) |].
      destruct (is_literal (get message "type") "start").
      { pose proof (handler_keeps_get name name p) as Hget.
        pose proof (get_run name p) as Hrun.
        destruct (get_log_review_session name p) as [p1 found].
        injection Hrun as Hp1 Hfound. simpl in Hget.
        rewrite Hfound.
        destruct (dict_get name (_log_review_sessions p)) as [existing |] eqn:Hreg.
        - continue_with Hget.
        - assert (Habsent : dict_get name (_log_review_sessions p1) = None)
            by (rewrite Hp1; exact Hreg).
          pose proof (handler_keeps_create E name dir p1 Habsent) as Hcreate.
          destruct (create_log_review_session E name dir p1) as [p2 [created | e |]];
            simpl in Hcreate.
          + pose proof (handler_keeps_drive name (start E) created p2
                          (start_evolves E)) as Hdrive.
            destruct (drive (start E) created p2) as [[chunks p3] [[] | e |]];
              simpl in Hdrive.
            * continue_with
                (handler_keeps_trans name p p1 _ Hget
                   (handler_keeps_trans name p1 p2 _ Hcreate Hdrive)).
            * apply Hcrash.
              apply (handler_keeps_trans name p p1 _ Hget).
              apply (handler_keeps_trans name p1 p2 _ Hcreate), Hdrive.
            * apply (handler_keeps_trans name p p1 _ Hget).
              apply (handler_keeps_trans name p1 p2 _ Hcreate), Hdrive.
          + apply Hcrash. apply (handler_keeps_trans name p p1 _ Hget), Hcreate.
          + apply (handler_keeps_trans name p p1 _ Hget), Hcreate. }
      destruct (is_literal (get message "type") "message");
        [| continue_with (handler_keeps_refl name p)].
      assert (Hfound : handler_keeps name p
                (fst match session with
                     | Some l => (p, Done (Some l))
                     | None => get_log_review_session name p
                     end)).
      { destruct session; [apply handler_keeps_refl | apply handler_keeps_get]. }
      destruct (match session with
                | Some l => (p, Done (Some l))
                | None => get_log_review_session name p
                end) as [p1 [[l |] | e |]]; simpl in Hfound.
      * destruct (get_or message "content" (PStr [])) as [| b | z | content];
          try (apply Hcrash, Hfound).
        destruct (strip (isspace R) content) as [| ch user_content] eqn:Hstrip;
          [continue_with Hfound |].
        pose proof (handler_keeps_drive name (send_message E (ch :: user_content)) l p1
                      (send_message_evolves E (ch :: user_content))) as Hdrive.
        destruct (drive (send_message E (ch :: user_content)) l p1)
          as [[chunks p2] [[] | e |]]; simpl in Hdrive.
        -- continue_with (handler_keeps_trans name p p1 _ Hfound Hdrive).
        -- apply Hcrash, (handler_keeps_trans name p p1 _ Hfound), Hdrive.
        -- apply (handler_keeps_trans name p p1 _ Hfound), Hdrive.
      * continue_with Hfound.
      * apply Hcrash, Hfound.
      * exact Hfound.
    + apply Hcrash, handler_keeps_refl.
    + continue_with (handler_keeps_refl name p).
Qed.

(** X18: whatever the client sends, the handler of the socket closes no
    session and unregisters none: every project that was registered is still
    registered with the same session object when the handler ends, also
    after the client has gone away or an exception has ended the loop; and
    it constructs at most one session object. *)
Theorem handler_keeps_sessions (project_name : pystr) (inbound : list pystr)
    (p : Process) :
  let p' := left_of (log_review_websocket R E project_name inbound p) in
  closes (history (world p')) = closes (history (world p)) /\
  (forall k l, dict_get k (_log_review_sessions p) = Some l ->
               dict_get k (_log_review_sessions p') = Some l) /\
  (length (heap p) <= length (heap p') <= S (length (heap p)))%nat.
Proof.
  unfold log_review_websocket.
  destruct (validate_project_name R project_name) as [e | valid];
    [simpl; repeat split; auto; lia |].
  destruct (_get_project_path R valid) as [project_dir |];
    [| simpl; repeat split; auto; lia].
  destruct (dir_exists R project_dir); [| simpl; repeat split; auto; lia].
  pose proof (receive_loop_keeps valid project_dir inbound None p) as Hkeeps.
  destruct (receive_loop R E valid project_dir inbound None p) as [[out p'] e].
  unfold left_of in *. simpl in *.
  destruct Hkeeps as (Hc & Hr & _ & Hl & _). auto.
Qed.

Lemma sent_of_continue (pre : list Outbound)
    (rest : list Outbound * Process * HandlerEnd) :
  (let '(out, p'', e) := rest in (pre ++ out, p'', e)) =
  (pre ++ sent_of rest, left_of rest, end_of rest).
Proof. destruct rest as [[out p''] e]. reflexivity. Qed.


Lemma continue_after_sending (fs : list Fragment)
    (rest : list Outbound * Process * HandlerEnd) :
  (let '(out, p'', e) := rest in (map SendJson fs ++ out, p'', e)) =
  after_sending fs rest.
Proof. destruct rest as [[out p''] e]. reflexivity. Qed.

Lemma start_is_not_ping : is_literal (PStr (lit "start")) "ping" = false.
Proof. reflexivity. Qed.

Lemma message_is_not_ping : is_literal (PStr (lit "message")) "ping" = false.
Proof. reflexivity. Qed.

Lemma message_is_not_start : is_literal (PStr (lit "message")) "start" = false.
Proof. reflexivity. Qed.

Lemma is_literal_refl (k : string) : is_literal (PStr (lit k)) k = true.
Proof. unfold is_literal. apply bool_decide_eq_true_2. reflexivity. Qed.

(** X20: a [start] for a project that is registered resumes: whatever state
    the registered session is in, the handler sends the resumption notice,
    [analysis_complete] and [response_done], keeps that session for the
    follow-ups of this connection and goes on; it constructs no session and
    does not run [start] on the registered one: all that has happened is a
    lookup. *)
Theorem start_resumes_registered_session (name : pystr) (dir : path)
    (data : pystr) (rest : list pystr) (message : Row)
    (session : option nat) (p : Process) (l : nat) :
  json_loads R data = Some (DObject message) ->
  message !! "type" = Some (PStr (lit "start")) ->
  dict_get name (_log_review_sessions p) = Some l ->
  receive_loop R E name dir (data :: rest) session p =
    after_sending [RESUME_NOTICE; FAnalysisComplete; FResponseDone]
      (receive_loop R E name dir rest (Some l)
         (process_of (get_log_review_session name p))).
Proof.
  intros Hjson Htype Hreg. cbn [receive_loop]. rewrite Hjson. cbn zeta.
  unfold get. rewrite Htype. simpl default.
  rewrite start_is_not_ping, is_literal_refl, get_run, Hreg.
  unfold process_of. cbn [fst]. apply continue_after_sending.
Qed.


Lemma lstrip_blank (space : N -> bool) (t : pystr) :
  lstrip space t = [] <-> forallb space t = true.
Proof.
  induction t as [| ch t IH]; simpl; [tauto |].
  destruct (space ch); simpl; [exact IH |]. split; discriminate.
Qed.

Lemma lstrip_suffix (space : N -> bool) (t : pystr) :
  exists dropped, t = dropped ++ lstrip space t /\ forallb space dropped = true.
Proof.
  induction t as [| ch t IH]; simpl; [exists []; auto |].
  destruct (space ch) eqn:Hch.
  - destruct IH as (dropped & Ht & Hd). exists (ch :: dropped). simpl.
    rewrite Hch, <- Ht. auto.
  - exists []. auto.
Qed.

Lemma forallb_rev {A} (f : A -> bool) (xs : list A) :
  forallb f (rev xs) = forallb f xs.
Proof.
  induction xs as [| x xs IH]; [reflexivity |]. simpl.
  rewrite forallb_app, IH. simpl. rewrite andb_true_r. apply andb_comm.
Qed.

(** [strip] leaves nothing exactly of the texts made of the characters it
    removes. *)
Lemma strip_blank (space : N -> bool) (t : pystr) :
  strip space t = [] <-> forallb space t = true.
Proof.
  unfold strip. split.
  - intros Hnil. apply (f_equal (@rev N)) in Hnil. rewrite rev_involutive in Hnil.
    simpl in Hnil. apply lstrip_blank in Hnil. rewrite forallb_rev in Hnil.
    destruct (lstrip_suffix space t) as (dropped & Ht & Hd).
    rewrite Ht, forallb_app, Hd, Hnil. reflexivity.
  - intros Hblank. apply lstrip_blank in Hblank. rewrite Hblank. reflexivity.
Qed.

(** X22: a follow-up whose content is missing, empty or made of whitespace
    only never reaches the session: on a connection that holds a session,
    the handler answers it with the [error] fragment for an empty message
    and goes on with the process as it was. *)
Theorem blank_follow_up_is_rejected (name : pystr) (dir : path)
    (data : pystr) (rest : list pystr) (message : Row) (content : pystr)
    (l : nat) (p : Process) :
  json_loads R data = Some (DObject message) ->
  message !! "type" = Some (PStr (lit "message")) ->
  get_or message "content" (PStr []) = PStr content ->
  forallb (isspace R) content = true ->
  receive_loop R E name dir (data :: rest) (Some l) p =
    after_sending [FError (lit "Empty message")]
      (receive_loop R E name dir rest (Some l) p).
Proof.
  intros Hjson Htype Hcontent Hblank. cbn [receive_loop]. rewrite Hjson. cbn zeta.
  unfold get. rewrite Htype. simpl default.
  rewrite message_is_not_ping, message_is_not_start, is_literal_refl, Hcontent.
  rewrite (proj2 (strip_blank (isspace R) content) Hblank).
  apply continue_after_sending.
Qed.

(** X23: cancelling unregisters: for a registered project on a well-formed
    registry, the cancel endpoint returns its confirmation after [close] has
    been called once on the registered session; from then on the status
    endpoint and a second cancel both answer 404, and the second cancel
    calls no [close]. *)
Theorem cancel_unregisters (project_name name : pystr) (p : Process) (l : nat) :
  validate_project_name R project_name = inr name ->
  registry_ok p ->
  dict_get name (_log_review_sessions p) = Some l ->
  let cancelled := cancel_log_review_session R E project_name p in
  let again := cancel_log_review_session R E project_name (fst cancelled) in
  snd cancelled = Returned (lit "Log review session cancelled") /\
  closes (history (world (fst cancelled))) = closes (history (world p)) ++ [l] /\
  snd (get_log_review_session_status R project_name (fst cancelled)) =
    HttpRaised NOT_ACTIVE /\
  snd again = HttpRaised NOT_ACTIVE /\
  closes (history (world (fst again))) = closes (history (world p)) ++ [l].
Proof.
  intros Hvalid Hok Hreg cancelled again.
  assert (Hcancel : exists p2,
            cancelled = (p2, Returned (lit "Log review session cancelled")) /\
            closes (history (world p2)) = closes (history (world p)) ++ [l] /\
            dict_get name (_log_review_sessions p2) = None).
  { unfold cancelled, cancel_log_review_session. rewrite Hvalid, get_run, Hreg.
    match goal with
    | |- context [remove_log_review_session E name ?p1] =>
      destruct (remove_registered_run E name p1 l Hok Hreg)
        as (s' & evs & Hdone & Hh & Hev & _ & _ & Hgone & _);
      destruct (remove_log_review_session E name p1) as [p2 r]
    end.
    unfold result_of, process_of in *. simpl in *. subst r.
    exists p2. split; [reflexivity |]. split; [| exact Hgone].
    rewrite Hh, !closes_app.
    change (closes (EvRegistryAcquire :: EvRegistry (RegPop name) ::
                    EvRegistryRelease :: EvClose l :: evs))
      with (l :: closes evs).
    rewrite (closes_session_events evs Hev). simpl. rewrite app_nil_r.
    reflexivity. }
  destruct Hcancel as (p2 & Hrun & Hcloses & Hgone).
  unfold again. rewrite Hrun. cbn [fst snd].
  split; [reflexivity |]. split; [exact Hcloses |].
  unfold get_log_review_session_status, cancel_log_review_session.
  rewrite Hvalid, get_run, Hgone. cbn [fst snd].
  split; [reflexivity |]. split; [reflexivity |].
  simpl. rewrite closes_app, Hcloses. simpl. apply app_nil_r.
Qed.

Lemma after_sending_app (fs gs : list Fragment)
    (r : list Outbound * Process * HandlerEnd) :
  after_sending fs (after_sending gs r) = after_sending (fs ++ gs) r.
Proof.
  unfold after_sending, sent_of, left_of, end_of. simpl.
  rewrite map_app, <- app_assoc. reflexivity.
Qed.

(** X25: resuming does not look at the session it resumes: when the
    registered session has no client (its [start] found no sessions, or
    failed before a client was there), a [start] on a new connection is
    still answered with the resumption notice, [analysis_complete] and
    [response_done], and the follow-up that comes next, though not blank, is
    answered with the [error] that the session is not initialized; no query
    is sent, no turn recorded, and the loop goes on with the session and the
    registry as they were. *)
Theorem resumed_session_without_client (name : pystr) (dir : path)
    (start_data ask_data : pystr) (rest : list pystr) (start_msg ask_msg : Row)
    (content : pystr) (session : option nat) (p : Process) (l : nat)
    (s : Session) :
  json_loads R start_data = Some (DObject start_msg) ->
  start_msg !! "type" = Some (PStr (lit "start")) ->
  json_loads R ask_data = Some (DObject ask_msg) ->
  ask_msg !! "type" = Some (PStr (lit "message")) ->
  get_or ask_msg "content" (PStr []) = PStr content ->
  forallb (isspace R) content = false ->
  dict_get name (_log_review_sessions p) = Some l ->
  heap p !! l = Some s ->
  client s = None ->
  receive_loop R E name dir (start_data :: ask_data :: rest) session p =
    after_sending
      [RESUME_NOTICE; FAnalysisComplete; FResponseDone;
       FError (lit "Session not initialized. Call start() first.")]
      (receive_loop R E name dir rest (Some l)
         (process_of (get_log_review_session name p))).
Proof.
  intros Hstart Hstart_type Hask Hask_type Hcontent Hblank Hreg Hl Hc.
  change [RESUME_NOTICE; FAnalysisComplete; FResponseDone;
          FError (lit "Session not initialized. Call start() first.")]
    with ([RESUME_NOTICE; FAnalysisComplete; FResponseDone] ++
          [FError (lit "Session not initialized. Call start() first.")]).
  rewrite <- after_sending_app.
  set (p1 := process_of (get_log_review_session name p)).
  assert (Hfirst :
    receive_loop R E name dir (start_data :: ask_data :: rest) session p =
    after_sending [RESUME_NOTICE; FAnalysisComplete; FResponseDone]
      (receive_loop R E name dir (ask_data :: rest) (Some l) p1)).
  { unfold p1. generalize (ask_data :: rest). intros inbound.
    cbn [receive_loop]. rewrite Hstart. cbn zeta.
    unfold get. rewrite Hstart_type. simpl default.
    rewrite start_is_not_ping, is_literal_refl, get_run, Hreg.
    unfold process_of. cbn [fst]. apply continue_after_sending. }
  rewrite Hfirst. f_equal.
  assert (Hl1 : heap p1 !! l = Some s) by (unfold p1; rewrite get_run; exact Hl).
  cbn [receive_loop]. rewrite Hask. cbn zeta.
  unfold get. rewrite Hask_type. simpl default.
  rewrite message_is_not_ping, message_is_not_start, is_literal_refl, Hcontent.
  destruct (strip (isspace R) content) as [| ch user_content] eqn:Hstrip.
  { apply strip_blank in Hstrip. congruence. }
  unfold drive. rewrite Hl1.
  rewrite (send_message_no_client E (ch :: user_content) s (world p1) Hc).
  rewrite list_insert_id by exact Hl1.
  replace {| heap := heap p1; _log_review_sessions := _log_review_sessions p1;
             world := world p1 |} with p1 by (destruct p1; reflexivity).
  apply continue_after_sending.
Qed.

Lemma receive_loop_only_sends (name : pystr) (dir : path) (inbound : list pystr) :
  forall session p, only_sends (receive_loop R E name dir inbound session p).
Proof.
  induction inbound as [| data rest IH]; intros session p.
  - split; [exists []; reflexivity | discriminate].
  - assert (Hcontinue : forall sent session' p',
              only_sends
                (let '(out, p'', e) := receive_loop R E name dir rest session' p' in
                 (map SendJson sent ++ out, p'', e))).
    { intros sent session' p'. rewrite sent_of_continue.
      destruct (IH session' p') as ((fs & Hfs) & Hend).
      split; [| exact Hend]. exists (sent ++ fs).
      unfold sent_of at 1. simpl. rewrite Hfs, map_app. reflexivity. }
    assert (Hcrash : forall chunks e p',
              only_sends (internal_error (map SendJson chunks) e p')).
    { intros chunks e p'. split; [| discriminate].
      exists (chunks ++ [FError (lit "Internal server error")]).
      unfold internal_error, sent_of. simpl. rewrite map_app. reflexivity. }
    assert (Hstall : forall chunks p',
              only_sends (map SendJson chunks, p', Stalled)).
    { intros chunks p'. split; [exists chunks; reflexivity | discriminate]. }
    cbn [receive_loop].
    destruct (json_loads R data) as [[message |] |];
      [| apply (Hcrash []) | apply Hcontinue].
    destruct (is_literal (get message "type") "ping"); [apply Hcontinue |].
    destruct (is_literal (get message "type") "start").
    { destruct (get_log_review_session name p) as [p1 [[existing |] | e |]];
        [apply Hcontinue | | apply (Hcrash []) | apply (Hstall [])].
      destruct (create_log_review_session E name dir p1) as [p2 [created | e |]];
        [| apply (Hcrash []) | apply (Hstall [])].
      destruct (drive (start E) created p2) as [[chunks p3] [[] | e |]];
        [apply Hcontinue | apply Hcrash | apply Hstall]. }
    destruct (is_literal (get message "type") "message"); [| apply Hcontinue].
    destruct (match session with
              | Some l => (p, Done (Some l))
              | None => get_log_review_session name p
              end) as [p1 [[l |] | e |]];
      [| apply Hcontinue | apply (Hcrash []) | apply (Hstall [])].
    destruct (get_or message "content" (PStr [])) as [| b | z | content];
      try apply (Hcrash []).
    destruct (strip (isspace R) content) as [| ch user_content];
      [apply Hcontinue |].
    destruct (drive (send_message E (ch :: user_content)) l p1)
      as [[chunks p2] [[] | e |]];
      [apply Hcontinue | apply Hcrash | apply Hstall].
Qed.

(** X24: the handler closes the socket itself only when it refuses the
    connection, which it does before reading anything: it then has accepted,
    sent one [error] fragment and closed with that text as the reason, and
    the process is as it was.  Once the loop runs, whatever the client
    sends and however the loop ends, all the handler does on the socket
    after accepting is to send fragments. *)
Theorem socket_closed_only_on_refusal (project_name : pystr)
    (inbound : list pystr) (p : Process) :
  let run := log_review_websocket R E project_name inbound p in
  match end_of run with
  | Refused =>
    left_of run = p /\
    exists content code,
      sent_of run = [Accepted; SendJson (FError content); CloseSocket code content]
  | _ => exists fs, sent_of run = Accepted :: map SendJson fs
  end.
Proof.
  unfold log_review_websocket.
  destruct (validate_project_name R project_name) as [e | valid];
    [simpl; split; [reflexivity | eauto] |].
  destruct (_get_project_path R valid) as [project_dir |];
    [| simpl; split; [reflexivity | eauto]].
  destruct (dir_exists R project_dir); [| simpl; split; [reflexivity | eauto]].
  destruct (receive_loop_only_sends valid project_dir inbound None p)
    as ((fs & Hfs) & Hend).
  destruct (receive_loop R E valid project_dir inbound None p) as [[out p'] e].
  unfold sent_of, end_of in *. simpl in *. subst out.
  destruct e; [eauto | congruence | eauto | eauto].
Qed.

End Handler.


Lemma start_resumes_registered_session_witness :
  receive_loop Clients.gateway Examples.healthy (lit "demo") Examples.demo_dir
    [Clients.START] None Examples.registered =
  after_sending [RESUME_NOTICE; FAnalysisComplete; FResponseDone]
    (receive_loop Clients.gateway Examples.healthy (lit "demo") Examples.demo_dir
       [] (Some 0%nat)
       (process_of (get_log_review_session (lit "demo") Examples.registered))).
Proof.
  apply (start_resumes_registered_session Clients.gateway Examples.healthy
           (lit "demo") Examples.demo_dir Clients.START [] 
           (<["type" := PStr (lit "start")]> ∅) None Examples.registered 0%nat).
  - vm_compute. reflexivity.
  - reflexivity.
  - reflexivity.
Defined.


Lemma blank_follow_up_is_rejected_witness :
  receive_loop Clients.gateway Examples.healthy (lit "demo") Examples.demo_dir
    [Clients.BLANK; Clients.PING] (Some 0%nat) Examples.registered =
  after_sending [FError (lit "Empty message")]
    (receive_loop Clients.gateway Examples.healthy (lit "demo") Examples.demo_dir
       [Clients.PING] (Some 0%nat) Examples.registered).
Proof.
  apply (blank_follow_up_is_rejected Clients.gateway Examples.healthy
           (lit "demo") Examples.demo_dir Clients.BLANK [Clients.PING]
           (<["type" := PStr (lit "message")]>
              (<["content" := PStr (lit "   ")]> ∅))
           (lit "   ") 0%nat Examples.registered).
  - vm_compute. reflexivity.
  - reflexivity.
  - reflexivity.
  - reflexivity.
Defined.

Lemma cancel_unregisters_witness :
  snd (cancel_log_review_session Clients.gateway Examples.healthy (lit "demo")
         Examples.two_projects) = Returned (lit "Log review session cancelled") /\
  snd (get_log_review_session_status Clients.gateway (lit "demo")
         (fst (cancel_log_review_session Clients.gateway Examples.healthy
                 (lit "demo") Examples.two_projects))) = HttpRaised NOT_ACTIVE.
Proof.
  destruct (cancel_unregisters Clients.gateway Examples.healthy (lit "demo")
              (lit "demo") Examples.two_projects 0)
    as (Hdone & _ & Hstatus & _).
  - reflexivity.
  - split; [| split].
    + apply (bool_decide_unpack _). vm_compute. exact I.
    + apply (bool_decide_unpack _). vm_compute. exact I.
    + repeat constructor.
  - reflexivity.
  - split; [exact Hdone | exact Hstatus].
Defined.

Lemma resumed_session_without_client_witness :
  receive_loop Clients.gateway Examples.healthy (lit "demo") Examples.demo_dir
    [Clients.START; Clients.ASK] None Clients.unanswered =
  after_sending
    [RESUME_NOTICE; FAnalysisComplete; FResponseDone;
     FError (lit "Session not initialized. Call start() first.")]
    (receive_loop Clients.gateway Examples.healthy (lit "demo") Examples.demo_dir
       [] (Some 0%nat)
       (process_of (get_log_review_session (lit "demo") Clients.unanswered))).
Proof.
  apply (resumed_session_without_client Clients.gateway Examples.healthy
           (lit "demo") Examples.demo_dir Clients.START Clients.ASK []
           (<["type" := PStr (lit "start")]> ∅)
           (<["type" := PStr (lit "message")]>
              (<["content" := PStr (lit "  Why did it fail? ")]> ∅))
           (lit "  Why did it fail? ") None Clients.unanswered 0%nat
           (with_complete true Examples.fresh)).
  - vm_compute. reflexivity.
  - reflexivity.
  - vm_compute. reflexivity.
  - reflexivity.
  - reflexivity.
  - reflexivity.
  - reflexivity.
  - reflexivity.
  - reflexivity.
Defined.
